(** * GitGenie agent: the file-mutation pipeline, the project scanner and
      the session entry point, embedded over a model of the host filesystem.

    Sources embedded here:
    - [agent/simple_patch_tools.py]      ([SimplePatchTools])
    - [agent/agent_tools/patch_tools.py] ([PatchTools])
    - [agent/agent_tools/file_tools.py]  ([FileTools])
    - [agent/my_agent.py], [agent/main.py] ([MyAgent], [Main])

    The Python standard library calls the sources make ([pathlib.Path],
    [os.walk], [os.path]) are modelled in the first part of the file, for a
    POSIX host ([os.sep] is a slash) without symbolic links, without
    access-permission failures and without limits on the length of names,
    so that [Path.exists] and its like answer a boolean and never raise.
    Console output ([print]) is not modelled; the notifications sent
    through [socket_service] are kept as a trace, without their message
    text and time stamp.  Paths with a NUL character, names the host finds
    too long and text the console cannot take are outside the model as
    well: the section on what the host takes describes the arguments for
    which the model stands for the host, and the properties that promise
    an answer for every path of some kind are stated for those. *)

From Stdlib.Strings Require Import String Ascii Byte.
From stdpp Require Import base numbers option list gmap.

Open Scope N_scope.

(** ** Python text and bytes *)

(** A Python [str] is a sequence of code points. *)
Abbreviation str := (list N).

(** An ASCII literal of the source, as a [str]. *)
Definition lit (s : string) : str :=
  (λ a, N_of_ascii a) <$> list_ascii_of_string s.

Definition byte_of_N (n : N) : byte := default x00 (Byte.of_N n).

Definition is_surrogate (c : N) : bool := (0xD800 <=? c) && (c <? 0xE000).

(** [str.encode('utf-8')] on one code point; [None] is [UnicodeEncodeError]
    (a lone surrogate). *)
Definition utf8_encode_cp (c : N) : option (list byte) :=
  if c <? 0x80 then Some [byte_of_N c]
  else if c <? 0x800 then
    Some [byte_of_N (0xC0 + c / 64); byte_of_N (0x80 + c mod 64)]
  else if c <? 0x10000 then
    if is_surrogate c then None
    else Some [byte_of_N (0xE0 + c / 4096);
               byte_of_N (0x80 + (c / 64) mod 64);
               byte_of_N (0x80 + c mod 64)]
  else if c <? 0x110000 then
    Some [byte_of_N (0xF0 + c / 262144);
          byte_of_N (0x80 + (c / 4096) mod 64);
          byte_of_N (0x80 + (c / 64) mod 64);
          byte_of_N (0x80 + c mod 64)]
  else None.

Fixpoint utf8_encode (s : str) : option (list byte) :=
  match s with
  | [] => Some []
  | c :: s' =>
      match utf8_encode_cp c, utf8_encode s' with
      | Some bs, Some bs' => Some (bs ++ bs')
      | _, _ => None
      end
  end.

Definition is_cont (b : byte) : bool :=
  (0x80 <=? Byte.to_N b) && (Byte.to_N b <? 0xC0).

Definition cont_bits (b : byte) : N := Byte.to_N b - 0x80.

(** [bytes.decode('utf-8')], strict: overlong forms, surrogates and values
    above U+10FFFF are rejected; [None] is [UnicodeDecodeError]. *)
Fixpoint utf8_decode (bs : list byte) : option str :=
  match bs with
  | [] => Some []
  | b0 :: r0 =>
      let n0 := Byte.to_N b0 in
      if n0 <? 0x80 then cons n0 <$> utf8_decode r0
      else if n0 <? 0xC0 then None
      else if n0 <? 0xE0 then
        match r0 with
        | b1 :: r1 =>
            let c := (n0 - 0xC0) * 64 + cont_bits b1 in
            if is_cont b1 && (0x80 <=? c)
            then cons c <$> utf8_decode r1 else None
        | _ => None
        end
      else if n0 <? 0xF0 then
        match r0 with
        | b1 :: b2 :: r2 =>
            let c := (n0 - 0xE0) * 4096 + cont_bits b1 * 64 + cont_bits b2 in
            if is_cont b1 && is_cont b2 && (0x800 <=? c)
               && negb (is_surrogate c)
            then cons c <$> utf8_decode r2 else None
        | _ => None
        end
      else if n0 <? 0xF8 then
        match r0 with
        | b1 :: b2 :: b3 :: r3 =>
            let c := (n0 - 0xF0) * 262144 + cont_bits b1 * 4096
                     + cont_bits b2 * 64 + cont_bits b3 in
            if is_cont b1 && is_cont b2 && is_cont b3
               && (0x10000 <=? c) && (c <? 0x110000)
            then cons c <$> utf8_decode r3 else None
        | _ => None
        end
      else None
  end.

Definition CR : N := 13.
Definition LF : N := 10.

(** Text-mode reading with [newline=None] (the default of
    [Path.read_text]): the line endings CR LF and CR both arrive as LF. *)
Fixpoint universal_newlines (s : str) : str :=
  match s with
  | [] => []
  | c :: s' =>
      if c =? CR then
        LF :: match s' with
              | c' :: s'' =>
                  if c' =? LF then universal_newlines s''
                  else universal_newlines s'
              | [] => []
              end
      else c :: universal_newlines s'
  end.

(** [s.split(sep)] for a one-character separator. *)
Fixpoint split_on (sep : N) (s : str) : list str :=
  match s with
  | [] => [[]]
  | c :: s' =>
      if c =? sep then [] :: split_on sep s'
      else match split_on sep s' with
           | h :: t => (c :: h) :: t
           | [] => [[c]]
           end
  end.

(** [sep.join(parts)]. *)
Fixpoint join_with (sep : str) (parts : list str) : str :=
  match parts with
  | [] => []
  | [p] => p
  | p :: ps => p ++ sep ++ join_with sep ps
  end.

Definition SEP : N := 47.

(** ** The host filesystem *)

(** A tree of directories and regular files; a directory lists its entries
    in the order [os.scandir] reports them. *)
#[warnings="-register-all"]
Inductive node :=
| File (data : list byte)
| Dir (entries : list (str * node)).

Fixpoint assoc (c : str) (es : list (str * node)) : option node :=
  match es with
  | [] => None
  | (n, v) :: es' => if decide (n = c) then Some v else assoc c es'
  end.

Fixpoint set_entry (c : str) (v : node) (es : list (str * node))
  : list (str * node) :=
  match es with
  | [] => [(c, v)]
  | (n, x) :: es' =>
      if decide (n = c) then (c, v) :: es' else (n, x) :: set_entry c v es'
  end.

(** A location is the list of names from the filesystem root down. *)
Abbreviation loc := (list str).

Fixpoint lookup_node (n : node) (l : loc) : option node :=
  match l with
  | [] => Some n
  | c :: l' =>
      match n with
      | Dir es => ch ← assoc c es; lookup_node ch l'
      | File _ => None
      end
  end.

(** Replace or add the node at [l]; the parent of [l] has to be a
    directory that is there. *)
Fixpoint put (n : node) (l : loc) (v : node) : option node :=
  match l with
  | [] => Some v
  | c :: l' =>
      match n with
      | Dir es =>
          match assoc c es with
          | Some ch => ch' ← put ch l' v; Some (Dir (set_entry c ch' es))
          | None =>
              match l' with
              | [] => Some (Dir (set_entry c v es))
              | _ => None
              end
          end
      | File _ => None
      end
  end.

Inductive kind :=
| KFile (data : list byte)
| KDir.

Definition kind_of (n : node) : kind :=
  match n with
  | File d => KFile d
  | Dir _ => KDir
  end.

Inductive event :=
| agent_log (type : string)
| agent_progress (step : string) (current total : nat)
| file_operation (operation : string) (file_path : str) (status : string).

(** The filesystem as a process sees it: the entries of the root
    directory and the working directory of the process. *)
Record fsys := Fsys {
  fs_root : list (str * node);
  fs_cwd : loc
}.

(** What the program can see and change: the filesystem and the
    notifications sent so far. *)
Record world := World {
  w_fs : fsys;
  w_trace : list event
}.

Definition stat_loc (f : fsys) (l : loc) : option kind :=
  kind_of <$> lookup_node (Dir (fs_root f)) l.

Definition put_loc (f : fsys) (l : loc) (v : node) : option fsys :=
  match put (Dir (fs_root f)) l v with
  | Some (Dir es) => Some (Fsys es (fs_cwd f))
  | _ => None
  end.

(** ** Exceptions and the monad of effectful code *)

Inductive exn :=
| FileNotFoundError (path : str)
| NotADirectoryError (path : str)
| IsADirectoryError (path : str)
| FileExistsError (path : str)
| UnicodeDecodeError
| UnicodeEncodeError
| SystemExit (code : Z).

(** [SystemExit] derives from [BaseException] only: [except Exception]
    lets it through. *)
Definition is_Exception (e : exn) : bool :=
  match e with
  | SystemExit _ => false
  | _ => true
  end.

Definition quoted (p : str) : str := lit "'" ++ p ++ lit "'".

(** [str(e)]; the path is shown between quotes as [repr] does for a path
    without quotes or control characters, and the position details of the
    codec errors are left out.  No handler of this program catches a
    [SystemExit], so its text is never asked for. *)
Definition str_exn (e : exn) : str :=
  match e with
  | FileNotFoundError p => lit "[Errno 2] No such file or directory: " ++ quoted p
  | NotADirectoryError p => lit "[Errno 20] Not a directory: " ++ quoted p
  | IsADirectoryError p => lit "[Errno 21] Is a directory: " ++ quoted p
  | FileExistsError p => lit "[Errno 17] File exists: " ++ quoted p
  | UnicodeDecodeError => lit "'utf-8' codec can't decode bytes"
  | UnicodeEncodeError => lit "'utf-8' codec can't encode characters"
  | SystemExit _ => []
  end.

Inductive result (A : Type) :=
| Ret (a : A)
| Raise (e : exn).
Arguments Ret {A} a.
Arguments Raise {A} e.

(** Code that runs on a state [S] and answers a value or raises. *)
Definition ST (S A : Type) : Type := S → result A * S.

#[export] Instance ST_ret {S} : MRet (ST S) := λ A a s, (Ret a, s).

#[export] Instance ST_bind {S} : MBind (ST S) := λ A B k m s,
  match m s with
  | (Ret a, s') => k a s'
  | (Raise e, s') => (Raise e, s')
  end.

(** The program runs on the world, the library calls on the filesystem. *)
Abbreviation M := (ST world).
Abbreviation F := (ST fsys).

Definition raise {S A} (e : exn) : ST S A := λ s, (Raise e, s).

(** [try: body  except <class> as e: handler e] for the exceptions [sel]
    selects; what [body] did to the state before raising stays done. *)
Definition try_except_if {S A} (sel : exn → bool) (body : ST S A)
    (handler : exn → ST S A) : ST S A := λ s,
  match body s with
  | (Raise e, s') => if sel e then handler e s' else (Raise e, s')
  | r => r
  end.

(** [try: body  except Exception as e: handler e] *)
Definition try_except {S A} (body : ST S A) (handler : exn → ST S A)
  : ST S A :=
  try_except_if is_Exception body handler.

(** A library call made by the program. *)
Definition on_fs {A} (op : F A) : M A := λ w,
  ((op (w_fs w)).1, World (op (w_fs w)).2 (w_trace w)).

(** A library call that only inspects the filesystem. *)
Definition inspect {A} (op : fsys → result A) : M A := λ w, (op (w_fs w), w).

Definition emit (ev : event) : M unit := λ w,
  (Ret tt, World (w_fs w) (w_trace w ++ [ev])).

(** [socket_service.emit_log], [emit_progress], [emit_file_operation]:
    each catches the failures of sending; the message text is not kept,
    and neither is the [print] of it, which comes before the sending. *)
Definition emit_log (type : string) : M unit := emit (agent_log type).
Definition emit_progress (step : string) (current total : nat) : M unit :=
  emit (agent_progress step current total).
Definition emit_file_operation (operation : string) (file_path : str)
    (status : string) : M unit :=
  emit (file_operation operation file_path status).

(** ** [pathlib] and [os.path] *)

(** A [pathlib.Path]: the root marker (empty for a relative path, one
    slash, or two slashes) and the components. *)
Record Path := MkPath {
  anchor : str;
  parts : list str
}.

Definition starts_with_sep (s : str) : bool :=
  match s with
  | c :: _ => c =? SEP
  | [] => false
  end.

(** [os.path.isabs] *)
Definition os_path_isabs (s : str) : bool := starts_with_sep s.

Definition parse_anchor (s : str) : str :=
  match s with
  | c0 :: s0 =>
      if c0 =? SEP then
        if starts_with_sep s0 && negb (starts_with_sep (tail s0))
        then [SEP; SEP] else [SEP]
      else []
  | [] => []
  end.

Definition is_name (x : str) : bool :=
  negb (bool_decide (x = [])) && negb (bool_decide (x = lit ".")).

(** [Path(s)]: empty components and single dots are dropped, double dots
    are kept. *)
Definition Path_of (s : str) : Path :=
  MkPath (parse_anchor s) (filter (λ x, is_name x = true) (split_on SEP s)).

(** [p / s] *)
Definition truediv (p : Path) (s : str) : Path :=
  let q := Path_of s in
  match anchor q with
  | [] => MkPath (anchor p) (parts p ++ parts q)
  | _ => q
  end.

(** [str(p)] *)
Definition Path_str (p : Path) : str :=
  match anchor p, parts p with
  | [], [] => lit "."
  | a, ps => a ++ join_with [SEP] ps
  end.

(** [p.parent] *)
Definition Path_parent (p : Path) : Path :=
  MkPath (anchor p) (removelast (parts p)).

Definition DOTDOT : str := lit "..".

(** Path resolution as the kernel does it, from the directory at [cur]:
    every component but the last has to name a directory; the last one may
    be missing.  The result is the location the path denotes. *)
Fixpoint namei (f : fsys) (shown : str) (cur : loc) (comps : list str)
  : exn + loc :=
  match comps with
  | [] => inr cur
  | c :: rest =>
      if decide (c = DOTDOT) then namei f shown (removelast cur) rest
      else
        match rest with
        | [] => inr (cur ++ [c])
        | _ =>
            match stat_loc f (cur ++ [c]) with
            | Some KDir => namei f shown (cur ++ [c]) rest
            | Some (KFile _) => inl (NotADirectoryError shown)
            | None => inl (FileNotFoundError shown)
            end
        end
  end.

(** Where resolution starts: the working directory for a relative path,
    the root for an absolute one. *)
Definition base_of (a : str) (f : fsys) : loc :=
  match a with
  | [] => fs_cwd f
  | _ => []
  end.

Definition resolve (f : fsys) (p : Path) : exn + loc :=
  namei f (Path_str p) (base_of (anchor p) f) (parts p).

(** [os.stat]: the kind of the node a path leads to. *)
Definition os_stat (p : Path) (f : fsys) : result kind :=
  match resolve f p with
  | inl e => Raise e
  | inr l =>
      match stat_loc f l with
      | Some k => Ret k
      | None => Raise (FileNotFoundError (Path_str p))
      end
  end.

(** [p.exists()], [p.is_dir()], [p.is_file()]: a path that does not
    resolve is reported as absent. *)
Definition exists_in (p : Path) (f : fsys) : bool :=
  match os_stat p f with
  | Ret _ => true
  | Raise _ => false
  end.

Definition is_dir_in (p : Path) (f : fsys) : bool :=
  match os_stat p f with
  | Ret KDir => true
  | _ => false
  end.

Definition is_file_in (p : Path) (f : fsys) : bool :=
  match os_stat p f with
  | Ret (KFile _) => true
  | _ => false
  end.

Definition Path_exists (p : Path) : M bool := inspect (λ f, Ret (exists_in p f)).
Definition Path_is_dir (p : Path) : M bool := inspect (λ f, Ret (is_dir_in p f)).
Definition Path_is_file (p : Path) : M bool := inspect (λ f, Ret (is_file_in p f)).

(** [p.stat()]; the fields of the result are only printed by the callers. *)
Definition stat_in (p : Path) (f : fsys) : result unit :=
  match os_stat p f with
  | Ret _ => Ret tt
  | Raise e => Raise e
  end.

Definition Path_stat (p : Path) : M unit := inspect (stat_in p).

(** [p.read_text(encoding='utf-8')] *)
Definition read_text_in (p : Path) (f : fsys) : result str :=
  match os_stat p f with
  | Raise e => Raise e
  | Ret KDir => Raise (IsADirectoryError (Path_str p))
  | Ret (KFile bs) =>
      match utf8_decode bs with
      | Some s => Ret (universal_newlines s)
      | None => Raise UnicodeDecodeError
      end
  end.

Definition Path_read_text (p : Path) : M str := inspect (read_text_in p).

(** [p.write_text(s, encoding='utf-8')]: opening for writing creates or
    empties the file, then the encoded text is written; text that cannot
    be encoded leaves the file empty. *)
Definition write_text_in (p : Path) (s : str) : F unit := λ f,
  match resolve f p with
  | inl e => (Raise e, f)
  | inr l =>
      match stat_loc f l with
      | Some KDir => (Raise (IsADirectoryError (Path_str p)), f)
      | _ =>
          match put_loc f l (File []) with
          | None => (Raise (FileNotFoundError (Path_str p)), f)
          | Some f0 =>
              match utf8_encode s with
              | None => (Raise UnicodeEncodeError, f0)
              | Some bs =>
                  match put_loc f l (File bs) with
                  | Some f1 => (Ret tt, f1)
                  | None => (Raise (FileNotFoundError (Path_str p)), f)
                  end
              end
          end
      end
  end.

Definition Path_write_text (p : Path) (s : str) : M unit :=
  on_fs (write_text_in p s).

(** [os.mkdir(p)] *)
Definition mkdir_in (p : Path) : F unit := λ f,
  match resolve f p with
  | inl e => (Raise e, f)
  | inr l =>
      match stat_loc f l with
      | Some _ => (Raise (FileExistsError (Path_str p)), f)
      | None =>
          match put_loc f l (Dir []) with
          | Some f1 => (Ret tt, f1)
          | None => (Raise (FileNotFoundError (Path_str p)), f)
          end
      end
  end.

Definition os_mkdir (p : Path) : M unit := on_fs (mkdir_in p).

Definition is_FileNotFoundError (e : exn) : bool :=
  match e with
  | FileNotFoundError _ => true
  | _ => false
  end.

Definition is_OSError (e : exn) : bool :=
  match e with
  | FileNotFoundError _ | NotADirectoryError _
  | IsADirectoryError _ | FileExistsError _ => true
  | _ => false
  end.

(** The [except OSError] branch of [Path.mkdir] with [exist_ok=True]:
    the error is dropped when the path is a directory. *)
Definition exist_ok_guard (p : Path) (e : exn) : F unit := λ f,
  if is_dir_in p f then (Ret tt, f) else (Raise e, f).

(** [p.mkdir(parents=False, exist_ok=True)] *)
Definition mkdir_flat (p : Path) : F unit :=
  try_except_if is_OSError (mkdir_in p) (λ e,
    if is_FileNotFoundError e then raise e else exist_ok_guard p e).

(** [p.mkdir(parents=True, exist_ok=True)] as [pathlib] writes it:
    [os.mkdir] first; on [FileNotFoundError] the parent is made the same
    way and the directory is made again without [parents]; any other
    [OSError] is dropped when the path is a directory.  [rparts] holds the
    components of [p] last first, so that the parent is its tail. *)
Fixpoint mkdir_rec (a : str) (rparts : list str) : F unit :=
  let p := MkPath a (rev rparts) in
  try_except_if is_OSError (mkdir_in p) (λ e,
    if is_FileNotFoundError e then
      match rparts with
      | _ :: rparent => mkdir_rec a rparent ;; mkdir_flat p
      | [] => raise e
      end
    else exist_ok_guard p e).

Definition Path_mkdir_parents_exist_ok (p : Path) : M unit :=
  on_fs (mkdir_rec (anchor p) (rev (parts p))).

(** The [os] functions take the path as text: the empty path names
    nothing, and a path that ends in a slash or in a dot component has to
    lead to a directory. *)
Definition wants_dir (s : str) : bool :=
  match last (split_on SEP s) with
  | Some x => negb (is_name x)
  | None => false
  end.

Definition os_lookup (s : str) (f : fsys) : option node :=
  if bool_decide (s = []) then None
  else
    match resolve f (Path_of s) with
    | inl _ => None
    | inr l =>
        match lookup_node (Dir (fs_root f)) l with
        | Some (File d) => if wants_dir s then None else Some (File d)
        | r => r
        end
    end.

(** [os.path.exists(s)], [os.path.isdir(s)] *)
Definition path_exists_in (s : str) (f : fsys) : bool :=
  match os_lookup s f with
  | Some _ => true
  | None => false
  end.

Definition path_isdir_in (s : str) (f : fsys) : bool :=
  match os_lookup s f with
  | Some (Dir _) => true
  | _ => false
  end.

Definition os_path_exists (s : str) : M bool :=
  inspect (λ f, Ret (path_exists_in s f)).

Definition os_path_isdir (s : str) : M bool :=
  inspect (λ f, Ret (path_isdir_in s f)).

(** ** [os.walk] *)

Definition is_dir_node (n : node) : bool :=
  match n with
  | Dir _ => true
  | File _ => false
  end.

Definition dirnames_of (es : list (str * node)) : list str :=
  fst <$> filter (λ e, is_dir_node (snd e) = true) es.

Definition filenames_of (es : list (str * node)) : list str :=
  fst <$> filter (λ e, is_dir_node (snd e) = false) es.

Fixpoint foldM {A St} (f : St → A → M St) (st : St) (l : list A) : M St :=
  match l with
  | [] => mret st
  | x :: l' => st' ← f st x; foldM f st' l'
  end.

(** The top-down walk under one directory.  [below] are the names
    descended from the top so far; [body] is the body of the [for] loop:
    it gets the loop state and answers the list it leaves in [dirnames]
    together with the new state.  Only the names left in [dirnames] are
    descended into, in that order; a name that leads to no directory is
    skipped (the error of [os.scandir] is dropped).  The loop bodies in
    this program leave the tree alone, so the walk runs on the tree as it
    is when the walk starts. *)
Fixpoint walk_node {St}
    (body : list str → list str → list str → St → M (list str * St))
    (below : list str) (n : node) (st : St) {struct n} : M St :=
  match n with
  | File _ => mret st
  | Dir es =>
      r ← body below (dirnames_of es) (filenames_of es) st;
      foldM (λ acc d,
               (fix visit (l : list (str * node)) : M St :=
                  match l with
                  | [] => mret acc
                  | (nm, ch) :: l' =>
                      if decide (nm = d)
                      then walk_node body (below ++ [d]) ch acc
                      else visit l'
                  end) es)
            r.2 r.1
  end.

(** [for dirpath, dirnames, filenames in os.walk(top): body] *)
Definition os_walk {St}
    (body : list str → list str → list str → St → M (list str * St))
    (top : str) (st : St) : M St := λ w,
  match os_lookup top (w_fs w) with
  | Some n => walk_node body [] n st w
  | None => (Ret st, w)
  end.

(** [os.path.relpath(dirpath, top)] for a [dirpath] that [os.walk(top)]
    yields: the names descended from [top], or a dot for [top] itself. *)
Definition os_path_relpath (below : list str) : str :=
  match below with
  | [] => lit "."
  | _ => join_with [SEP] below
  end.

(** ** The outcome strings of the mutator and the creator *)

Definition msg_not_found (file_path : Path) : str :=
  lit "Error: File not found: " ++ Path_str file_path.
Definition msg_unchanged (filename : str) : str :=
  lit "File " ++ filename ++ lit " already has the requested content".
Definition msg_write_error (filename : str) (e : exn) : str :=
  lit "Error writing file " ++ filename ++ lit ": " ++ str_exn e.
Definition msg_verification_failed (filename : str) : str :=
  lit "Error: File write verification failed for " ++ filename.
Definition msg_updated (filename : str) : str :=
  lit "Successfully updated " ++ filename.
Definition msg_update_error (e : exn) : str :=
  lit "Error updating file: " ++ str_exn e.
Definition msg_creation_verification_failed (path : str) : str :=
  lit "Error: File creation verification failed for " ++ path.
Definition msg_not_created (path : str) : str :=
  lit "Error: File was not created at " ++ path.
Definition msg_created (path : str) : str :=
  lit "Created new file: " ++ path.
Definition msg_create_error (e : exn) : str :=
  lit "Error creating file: " ++ str_exn e.

(** The path both modules compute from their arguments:
    [Path(filename)] when [filename] is absolute, else
    [Path(project_root) / filename]. *)
Definition target_path (project_root filename : str) : Path :=
  if os_path_isabs filename then Path_of filename
  else truediv (Path_of project_root) filename.

(** ** agent/simple_patch_tools.py *)
Module SimplePatchTools.

(** A [return] inside the inner [try] leaves the function: the inner block
    answers [Some outcome] for it and [None] to go on.  The four lines
    before the [try] that print [file_path.exists()], [is_file()],
    [is_dir()] and [parent.exists()] are console output and left out
    with it; they raise for a name the host finds too long, which is
    outside the model. *)
Definition apply_patch_raw (project_root filename new_content : str) : M str :=
  emit_log "info" ;;
  let file_path := target_path project_root filename in
  try_except
    (ex ← Path_exists file_path;
     if negb ex then
       emit_log "warning" ;;
       mret (msg_not_found file_path)
     else
       current_content ← Path_read_text file_path;
       if bool_decide (current_content = new_content) then
         emit_log "info" ;;
         mret (msg_unchanged filename)
       else
         Path_stat file_path ;;
         returned ← try_except
           (Path_write_text file_path new_content ;;
            verification_content ← Path_read_text file_path;
            verification_content2 ← Path_read_text file_path;
            mret None)
           (λ write_error, mret (Some (msg_write_error filename write_error)));
         match returned with
         | Some outcome => mret outcome
         | None =>
             Path_stat file_path ;;
             final_verification ← Path_read_text file_path;
             if negb (bool_decide (final_verification = new_content)) then
               mret (msg_verification_failed filename)
             else
               emit_log "success" ;;
               mret (msg_updated filename)
         end)
    (λ e,
       emit_log "error" ;;
       mret (msg_update_error e)).

Definition create_new_file_raw (project_root path content : str) : M str :=
  emit_log "info" ;;
  try_except
    (let full_path := target_path project_root path in
     Path_mkdir_parents_exist_ok (Path_parent full_path) ;;
     Path_write_text full_path content ;;
     ex ← Path_exists full_path;
     if ex : bool then
       verification_content ← Path_read_text full_path;
       if negb (bool_decide (verification_content = content)) then
         mret (msg_creation_verification_failed path)
       else
         emit_log "success" ;;
         mret (msg_created path)
     else
       mret (msg_not_created path))
    (λ e,
       emit_log "error" ;;
       mret (msg_create_error e)).

End SimplePatchTools.

(** ** agent/agent_tools/patch_tools.py *)
Module PatchTools.

(** As in the simple copy, the lines before the [try] that print what
    [file_path.exists()] and its like answer are left out with the
    console. *)
Definition apply_patch_raw (project_root filename new_content : str) : M str :=
  emit_file_operation "patch" filename "started" ;;
  emit_log "info" ;;
  emit_progress "File Update" 0 3 ;;
  let file_path := target_path project_root filename in
  emit_progress "File Update" 1 3 ;;
  try_except
    (ex ← Path_exists file_path;
     if negb ex then
       emit_log "warning" ;;
       mret (msg_not_found file_path)
     else
       current_content ← Path_read_text file_path;
       if bool_decide (current_content = new_content) then
         emit_log "info" ;;
         mret (msg_unchanged filename)
       else
         emit_progress "File Update" 2 3 ;;
         Path_stat file_path ;;
         Path_write_text file_path new_content ;;
         Path_stat file_path ;;
         verification_content ← Path_read_text file_path;
         if negb (bool_decide (verification_content = new_content)) then
           mret (msg_verification_failed filename)
         else
           emit_progress "File Update" 3 3 ;;
           emit_file_operation "patch" filename "completed" ;;
           emit_log "success" ;;
           mret (msg_updated filename))
    (λ e,
       emit_file_operation "patch" filename "failed" ;;
       emit_log "error" ;;
       mret (msg_update_error e)).

Definition apply_direct_edit_raw (project_root filename new_content : str)
  : M str :=
  apply_patch_raw project_root filename new_content.

Definition create_new_file_raw (project_root path content : str) : M str :=
  emit_file_operation "create" path "started" ;;
  emit_log "info" ;;
  emit_progress "File Creation" 0 3 ;;
  try_except
    (let full_path := target_path project_root path in
     emit_progress "File Creation" 1 3 ;;
     Path_mkdir_parents_exist_ok (Path_parent full_path) ;;
     emit_progress "File Creation" 2 3 ;;
     Path_write_text full_path content ;;
     ex ← Path_exists full_path;
     if ex : bool then
       verification_content ← Path_read_text full_path;
       if negb (bool_decide (verification_content = content)) then
         mret (msg_creation_verification_failed path)
       else
         emit_progress "File Creation" 3 3 ;;
         emit_file_operation "create" path "completed" ;;
         emit_log "success" ;;
         mret (msg_created path)
     else
       mret (msg_not_created path))
    (λ e,
       emit_file_operation "create" path "failed" ;;
       emit_log "error" ;;
       mret (msg_create_error e)).

End PatchTools.

(** ** agent/agent_tools/file_tools.py *)
Module FileTools.

Definition IGNORED_TOPDIRS : gset str :=
  list_to_set (lit <$> ["node_modules"; "venv"; "__pycache__"; ".git";
                        "dist"; "build"; "env"; ".venv"; ".next";
                        ".vite"]%string).

(** [parts and parts[0] in IGNORED_TOPDIRS] *)
Definition ignored_top (parts : list str) : bool :=
  match parts with
  | p0 :: _ => bool_decide (p0 ∈ IGNORED_TOPDIRS)
  | [] => false
  end.

(** The body of the first loop: [total_dirs] is the loop state. *)
Definition count_body (below dirnames filenames : list str) (total_dirs : nat)
  : M (list str * nat) :=
  let rel := os_path_relpath below in
  let parts := split_on SEP rel in
  if ignored_top parts then mret (dirnames, total_dirs)
  else mret (dirnames, S total_dirs).

(** The body of the second loop: the loop state is [tree] and
    [processed_dirs]. *)
Definition tree_body (total_dirs : nat) (below dirnames filenames : list str)
    (st : gmap str (list str) * nat) : M (list str * (gmap str (list str) * nat)) :=
  let '(tree, processed_dirs) := st in
  let rel := os_path_relpath below in
  let parts := split_on SEP rel in
  if ignored_top parts then mret ([], (tree, processed_dirs))
  else
    let dirnames := filter (λ d, d ∉ IGNORED_TOPDIRS) dirnames in
    let reldir := if bool_decide (rel = lit ".") then [] else rel in
    let tree := <[reldir := default [] (tree !! reldir) ++ filenames]> tree in
    let processed_dirs := S processed_dirs in
    (if bool_decide (processed_dirs `mod` 5 = 0)%nat
        || bool_decide (processed_dirs = total_dirs)
     then emit_progress "Analyzing directory structure" processed_dirs total_dirs
     else mret tt) ;;
    mret (dirnames, (tree, processed_dirs)).

Definition read_dir_tree_raw (project_root : str) : M (gmap str (list str)) :=
  emit_log "info" ;;
  total_dirs ← os_walk count_body project_root 0%nat;
  emit_progress "Analyzing directory structure" 0 total_dirs ;;
  st ← os_walk (tree_body total_dirs) project_root (∅, 0%nat);
  emit_log "success" ;;
  mret st.1.

End FileTools.

(** ** agent/my_agent.py *)
Module MyAgent.
Section Agent.

(** [simple_agent.simple_agent]: the planner, which asks a language model
    what to do; the session runner only hands its arguments over. *)
Variable simple_agent : str → str → str → M str.

Definition agent (project_root session_id user_instruction : str) : M str :=
  emit_log "info" ;;
  d ← os_path_isdir project_root;
  if negb d then
    emit_log "error" ;;
    raise (SystemExit 1)
  else
    emit_log "success" ;;
    emit_log "info" ;;
    try_except
      (summary ← simple_agent project_root session_id user_instruction;
       emit_log "success" ;;
       mret summary)
      (λ e,
         emit_log "error" ;;
         raise e).

End Agent.
End MyAgent.

(** ** agent/main.py *)
Module Main.

Inductive json :=
| JBool (b : bool)
| JStr (s : str).

(** What a handler answers: the HTTP status and the JSON object. *)
Record response := Response {
  status : nat;
  body : gmap string json
}.

Section FixSync.

Variable simple_agent : str → str → str → M str.

(** [parse_agent_output]: turns the planner's text into the text shown to
    the user. *)
Variable parse_agent_output : str → str → str → str.

(** [fix_sync], for a request whose JSON body is an object of strings.
    The listings of the project directory before and after the run and the
    look at the modification times, which are only printed, and the
    headers of the response are left out. *)
Definition fix_sync (method : string) (data : gmap string str) : M response :=
  if bool_decide (method = "OPTIONS"%string) then
    mret (Response 200 {[ "status"%string := JStr (lit "ok") ]})
  else
    try_except
      (let project_path := default [] (data !! "project_path"%string) in
       let session_id := default [] (data !! "session_id"%string) in
       let user_instructions := default [] (data !! "user_instructions"%string) in
       if bool_decide (project_path = []) || bool_decide (session_id = [])
          || bool_decide (user_instructions = []) then
         mret (Response 400
           {[ "success"%string := JBool false;
              "error"%string := JStr (lit "Missing required parameters: project_path, session_id, user_instructions") ]})
       else
         ex ← os_path_exists project_path;
         if negb ex then
           mret (Response 400
             {[ "success"%string := JBool false;
                "error"%string := JStr (lit "Project path does not exist: " ++ project_path);
                "session_id"%string := JStr session_id ]})
         else
           d ← os_path_isdir project_path;
           if negb d then
             mret (Response 400
               {[ "success"%string := JBool false;
                  "error"%string := JStr (lit "Project path is not a directory: " ++ project_path);
                  "session_id"%string := JStr session_id ]})
           else
             response_data ← try_except
               (result ← MyAgent.agent simple_agent project_path session_id user_instructions;
                if negb (bool_decide (result = [])) then
                  mret ({[ "success"%string := JBool true;
                           "response"%string := JStr (parse_agent_output result user_instructions session_id);
                           "session_id"%string := JStr session_id;
                           "raw_output"%string := JStr result;
                           "project_path"%string := JStr project_path;
                           "user_instructions"%string := JStr user_instructions ]}
                        : gmap string json)
                else
                  mret {[ "success"%string := JBool false;
                          "error"%string := JStr (lit "Agent completed but returned no output");
                          "session_id"%string := JStr session_id ]})
               (λ agent_error,
                  mret {[ "success"%string := JBool false;
                          "error"%string := JStr (lit "Agent execution failed: " ++ str_exn agent_error);
                          "session_id"%string := JStr session_id ]});
             mret (Response 200 response_data))
      (λ e,
         mret (Response 500
           {[ "success"%string := JBool false;
              "error"%string := JStr (lit "Server error: " ++ str_exn e);
              "session_id"%string := JStr (default (lit "unknown") (data !! "session_id"%string)) ]})).

End FixSync.
End Main.

(** ** Notions the statements below are written with *)

(** The two copies of the mutator and of the creator. *)
Inductive copy :=
| simple_patch_tools
| patch_tools.

Definition apply_patch_raw (m : copy) : str → str → str → M str :=
  match m with
  | simple_patch_tools => SimplePatchTools.apply_patch_raw
  | patch_tools => PatchTools.apply_patch_raw
  end.

Definition create_new_file_raw (m : copy) : str → str → str → M str :=
  match m with
  | simple_patch_tools => SimplePatchTools.create_new_file_raw
  | patch_tools => PatchTools.create_new_file_raw
  end.

(** What each copy of the mutator answers when the write raises. *)
Definition msg_write_failure (m : copy) (filename : str) (e : exn) : str :=
  match m with
  | simple_patch_tools => msg_write_error filename e
  | patch_tools => msg_update_error e
  end.

(** A node without anything below it. *)
Definition childless (n : node) : Prop :=
  match n with
  | File _ => True
  | Dir es => es = []
  end.

Definition not_a_dir (o : option node) : Prop :=
  match o with
  | Some (Dir _) => False
  | _ => True
  end.

(** The working directory of the process is a directory. *)
Definition wf_fs (f : fsys) : Prop := stat_loc f (fs_cwd f) = Some KDir.

(** [f1] has everything [f] has, unchanged. *)
Definition extends (f f1 : fsys) : Prop :=
  fs_cwd f1 = fs_cwd f ∧ ∀ q k, stat_loc f q = Some k → stat_loc f1 q = Some k.

(** The part of the filesystem a write through [p] cannot reach: the
    working directory and every location but the one [p] resolves to stay
    as they are, and that one keeps being a regular file, a directory or
    missing. *)
Definition frame_of (p : Path) (f f1 : fsys) : Prop :=
  fs_cwd f1 = fs_cwd f ∧
  (∀ q, resolve f p ≠ inr q → stat_loc f1 q = stat_loc f q) ∧
  (∀ l, resolve f p = inr l →
        match stat_loc f l with
        | Some (KFile _) => ∃ bs, stat_loc f1 l = Some (KFile bs)
        | o => stat_loc f1 l = o
        end).

(** Between [f] and [f1] nothing changed but directories made on the way
    to [target]. *)
Definition made_under (target : loc) (f f1 : fsys) : Prop :=
  ∀ q, stat_loc f1 q = stat_loc f q ∨
       stat_loc f q = None ∧ stat_loc f1 q = Some KDir ∧ q `prefix_of` target.

(** The directories a path goes through: the paths made of its first
    [k] components, for every [k] below their number. *)
Definition ancestors (p : Path) : list Path :=
  (λ k, MkPath (anchor p) (take k (parts p))) <$> seq 0 (length (parts p)).

(** The ways a call of the mutator ends, by what the library calls
    answered: the outcome string and the filesystem it leaves. *)
Inductive apply_outcome (m : copy) (p : Path) (filename c : str)
    (f : fsys) : str → fsys → Prop :=
| ao_not_found :
    exists_in p f = false →
    apply_outcome m p filename c f (msg_not_found p) f
| ao_read_error e :
    exists_in p f = true → read_text_in p f = Raise e →
    apply_outcome m p filename c f (msg_update_error e) f
| ao_unchanged :
    read_text_in p f = Ret c →
    apply_outcome m p filename c f (msg_unchanged filename) f
| ao_write_error cur e f1 :
    read_text_in p f = Ret cur → cur ≠ c →
    write_text_in p c f = (Raise e, f1) →
    apply_outcome m p filename c f (msg_write_failure m filename e) f1
| ao_verification_failed cur f1 :
    read_text_in p f = Ret cur → cur ≠ c →
    write_text_in p c f = (Ret tt, f1) →
    read_text_in p f1 = Ret (universal_newlines c) →
    universal_newlines c ≠ c →
    apply_outcome m p filename c f (msg_verification_failed filename) f1
| ao_updated cur f1 :
    read_text_in p f = Ret cur → cur ≠ c →
    write_text_in p c f = (Ret tt, f1) →
    read_text_in p f1 = Ret c →
    apply_outcome m p filename c f (msg_updated filename) f1.

(** The ways a call of the creator ends. *)
Inductive create_outcome (p : Path) (path c : str) (f : fsys)
  : str → fsys → Prop :=
| co_mkdir_error e f1 :
    mkdir_rec (anchor p) (rev (parts (Path_parent p))) f = (Raise e, f1) →
    create_outcome p path c f (msg_create_error e) f1
| co_write_error e f1 f2 :
    mkdir_rec (anchor p) (rev (parts (Path_parent p))) f = (Ret tt, f1) →
    write_text_in p c f1 = (Raise e, f2) →
    create_outcome p path c f (msg_create_error e) f2
| co_verification_failed f1 f2 :
    mkdir_rec (anchor p) (rev (parts (Path_parent p))) f = (Ret tt, f1) →
    write_text_in p c f1 = (Ret tt, f2) →
    read_text_in p f2 = Ret (universal_newlines c) →
    universal_newlines c ≠ c →
    create_outcome p path c f (msg_creation_verification_failed path) f2
| co_created f1 f2 :
    mkdir_rec (anchor p) (rev (parts (Path_parent p))) f = (Ret tt, f1) →
    write_text_in p c f1 = (Ret tt, f2) →
    read_text_in p f2 = Ret c →
    create_outcome p path c f (msg_created path) f2.

(** The key the scanner files a directory under: the names below the
    top joined by slashes, and the empty string for the top itself. *)
Definition reldir_of (below : list str) : str :=
  if bool_decide (os_path_relpath below = lit ".") then []
  else os_path_relpath below.

(** Every entry of [tree] is filed under a key that does not begin with an
    ignored name, and every file name in it is that of a regular file
    directly in a directory under [top] none of whose names is ignored. *)
Definition recorded_from (top : node) (tree : gmap str (list str)) : Prop :=
  ∀ k files, tree !! k = Some files →
    FileTools.ignored_top (split_on SEP k) = false ∧
    ∀ fname, fname ∈ files →
      ∃ below es,
        k = reldir_of below ∧
        Forall (λ d, d ∉ FileTools.IGNORED_TOPDIRS) below ∧
        lookup_node top below = Some (Dir es) ∧
        fname ∈ filenames_of es.

(** ** A project to run the functions on *)

(** [/proj] holds a page, a note with a Windows line ending, a dependency
    folder and a source folder with a build folder inside. *)
Definition example_fs : fsys :=
  Fsys
    [(lit "proj", Dir
       [(lit "index.html", File (list_byte_of_string "<h1>Hi</h1>"));
        (lit "notes.txt",
           File (list_byte_of_string "one" ++ [x0d; x0a]
                 ++ list_byte_of_string "two"));
        (lit "node_modules", Dir
           [(lit "pkg", Dir
              [(lit "index.js", File []);
               (lit "dist", Dir [(lit "out.js", File [])])])]);
        (lit "src", Dir
           [(lit "main.py", File (list_byte_of_string "print(1)"));
            (lit "build", Dir [(lit "gen.py", File [])])])])]
    [].

Definition example_world : world := World example_fs [].

(** The text of the note as the bytes hold it. *)
Definition note_text : str := lit "one" ++ [CR; LF] ++ lit "two".

(** ** Further notions

    Embedded in this part, beside the notions the later properties are
    stated with:
    - [agent/agent_tools/file_tools.py], [read_file_raw], with the decoder
      of [errors='replace'];
    - [agent/agent_tools/patch_tools.py], [patch_generator_raw];
    - [agent/simple_file_tools.py] ([SimpleFileTools]);
    - [agent/simple_agent.py] ([SimpleAgent]): building the client and the
      request to the language model are given from outside, the request as
      a function of what the prompt is built from; the arguments of a
      function call are taken to be well formed;
    - [agent/main.py], [parse_agent_output] ([ParseAgentOutput]). *)

(** A code point [str.encode('utf-8')] accepts. *)
Definition encodable (c : N) : Prop := is_Some (utf8_encode_cp c).

(** The way to [p] is free in [f]: the working directory is a directory,
    the path has a last component and no double dot, no regular file sits
    at the path's start or at any of its proper prefixes, and no directory
    sits at the path itself. *)
Definition way_free (p : Path) (f : fsys) : Prop :=
  wf_fs f ∧ (DOTDOT ∉ parts p) ∧ parts p ≠ [] ∧
  (∀ k d, (k < length (parts p))%nat →
     stat_loc f (base_of (anchor p) f ++ take k (parts p)) ≠ Some (KFile d)) ∧
  stat_loc f (base_of (anchor p) f ++ parts p) ≠ Some KDir.

(** A name a directory can hold: not empty, not a single dot, and without
    a slash. *)
Definition name_ok (d : str) : bool :=
  negb (bool_decide (SEP ∈ d)) && is_name d.




(** ** agent/agent_tools/file_tools.py, [read_file_raw] *)

Definition REPLACEMENT : N := 0xFFFD.

(** The second byte of a three-byte or four-byte sequence that the decoder
    refuses at once: no continuation byte, or one that would give an
    overlong form, a surrogate or a value above U+10FFFF. *)
Definition bad_second3 (ch : N) (b1 : byte) : bool :=
  negb (is_cont b1)
  || (if Byte.to_N b1 <? 0xA0 then ch =? 0xE0 else ch =? 0xED).

Definition bad_second4 (ch : N) (b1 : byte) : bool :=
  negb (is_cont b1)
  || (if Byte.to_N b1 <? 0x90 then ch =? 0xF0 else ch =? 0xF4).

(** [bytes.decode('utf-8', errors='replace')]: every maximal part of the
    input that cannot start a well-formed sequence becomes one U+FFFD and
    decoding goes on behind it: an invalid start byte alone, a start byte
    with the continuation bytes accepted so far when the next byte does
    not continue the sequence, and all that is left when the input ends
    inside a sequence. *)
Fixpoint utf8_decode_replace (bs : list byte) : str :=
  match bs with
  | [] => []
  | b0 :: r0 =>
      let ch := Byte.to_N b0 in
      if ch <? 0x80 then ch :: utf8_decode_replace r0
      else if ch <? 0xE0 then
        if ch <? 0xC2 then REPLACEMENT :: utf8_decode_replace r0
        else
          match r0 with
          | [] => [REPLACEMENT]
          | b1 :: r1 =>
              if negb (is_cont b1) then REPLACEMENT :: utf8_decode_replace r0
              else ((ch - 0xC0) * 64 + cont_bits b1) :: utf8_decode_replace r1
          end
      else if ch <? 0xF0 then
        match r0 with
        | [] => [REPLACEMENT]
        | b1 :: r1 =>
            if bad_second3 ch b1 then REPLACEMENT :: utf8_decode_replace r0
            else
              match r1 with
              | [] => [REPLACEMENT]
              | b2 :: r2 =>
                  if negb (is_cont b2)
                  then REPLACEMENT :: utf8_decode_replace r1
                  else ((ch - 0xE0) * 4096 + cont_bits b1 * 64 + cont_bits b2)
                       :: utf8_decode_replace r2
              end
        end
      else if ch <? 0xF5 then
        match r0 with
        | [] => [REPLACEMENT]
        | b1 :: r1 =>
            if bad_second4 ch b1 then REPLACEMENT :: utf8_decode_replace r0
            else
              match r1 with
              | [] => [REPLACEMENT]
              | b2 :: r2 =>
                  if negb (is_cont b2)
                  then REPLACEMENT :: utf8_decode_replace r1
                  else
                    match r2 with
                    | [] => [REPLACEMENT]
                    | b3 :: r3 =>
                        if negb (is_cont b3)
                        then REPLACEMENT :: utf8_decode_replace r2
                        else ((ch - 0xF0) * 262144 + cont_bits b1 * 4096
                              + cont_bits b2 * 64 + cont_bits b3)
                             :: utf8_decode_replace r3
                    end
              end
        end
      else REPLACEMENT :: utf8_decode_replace r0
  end.

(** [open(path, 'r')] of a path given as text, up to the bytes read: the
    empty path names nothing, a directory cannot be opened for reading,
    and a path that ends in a slash or in a dot does not lead to a regular
    file.  The error shows the path as it was given. *)
Definition os_open_read (path : str) (f : fsys) : result (list byte) :=
  if bool_decide (path = []) then Raise (FileNotFoundError path)
  else
    match namei f path (base_of (anchor (Path_of path)) f)
            (parts (Path_of path)) with
    | inl e => Raise e
    | inr l =>
        match stat_loc f l with
        | None => Raise (FileNotFoundError path)
        | Some KDir => Raise (IsADirectoryError path)
        | Some (KFile d) =>
            if wants_dir path then Raise (NotADirectoryError path) else Ret d
        end
    end.

(** [with open(path, 'r', encoding='utf-8', errors='replace') as f:
    f.read()] *)
Definition read_replace_in (path : str) (f : fsys) : result str :=
  match os_open_read path f with
  | Ret d => Ret (universal_newlines (utf8_decode_replace d))
  | Raise e => Raise e
  end.

(** [read_file_raw]; the bare [raise] of its handler passes the exception
    on. *)
Definition read_file_raw (path : str) : M str :=
  emit_file_operation "read" path "started" ;;
  emit_log "info" ;;
  try_except
    (content ← inspect (read_replace_in path);
     emit_file_operation "read" path "completed" ;;
     emit_log "success" ;;
     mret content)
    (λ e,
       emit_file_operation "read" path "failed" ;;
       emit_log "error" ;;
       raise e).

(** A path as [pathlib] builds it: the root marker is empty, one slash or
    two slashes, and the components are names a directory can hold or
    double dots. *)
Definition Path_ok (p : Path) : Prop :=
  anchor p ∈ [[]; [SEP]; [SEP; SEP]] ∧
  Forall (λ x, name_ok x = true) (parts p).

(** ** More of Python's [str] *)

(** [s.startswith(prefix)] *)
Fixpoint startswith (s prefix : str) : bool :=
  match prefix, s with
  | [], _ => true
  | p :: prefix', c :: s' => (c =? p) && startswith s' prefix'
  | _ :: _, [] => false
  end.

(** [needle in s] *)
Fixpoint contains (s needle : str) : bool :=
  startswith s needle
  || match s with
     | [] => false
     | _ :: s' => contains s' needle
     end.

(** The truth value of an optional text: [None] and the empty text are
    false. *)
Definition truthy (o : option str) : bool :=
  match o with
  | Some (_ :: _) => true
  | _ => false
  end.

(** ** agent/agent_tools/patch_tools.py, [patch_generator_raw] *)

Section PatchGenerator.

(** [str.lower] *)
Variable lower : str → str.

Definition patch_generator_raw (source_path original_source lint_summary : str)
    (instructions : option str) : M str :=
  emit_log "info" ;;
  emit_progress "Patch Generation" 0 3 ;;
  let new_source := original_source in
  if truthy instructions then
    emit_log "info" ;;
    mret original_source
  else
    emit_progress "Patch Generation" 1 3 ;;
    (if contains (lower lint_summary) (lit "style")
        || contains (lower lint_summary) (lit "css")
     then emit_log "info" else mret tt) ;;
    emit_progress "Patch Generation" 2 3 ;;
    emit_progress "Patch Generation" 3 3 ;;
    emit_log "success" ;;
    mret original_source.

End PatchGenerator.

(** ** agent/simple_file_tools.py *)
Module SimpleFileTools.

Definition ends_with_sep (s : str) : bool :=
  match last s with
  | Some c => c =? SEP
  | None => false
  end.

(** [os.path.join(a, b)] *)
Definition os_path_join (a b : str) : str :=
  if starts_with_sep b then b
  else if bool_decide (a = []) || ends_with_sep a then a ++ b
  else a ++ [SEP] ++ b.

(** [os.path.basename]: what follows the last slash. *)
Definition os_path_basename (s : str) : str :=
  default [] (last (split_on SEP s)).

(** [s.replace(old, '')] for an [old] that is not empty: the occurrences
    of [old] are found from the left, without overlap; [skip] counts the
    characters of an occurrence still to be dropped. *)
Fixpoint remove_from (old s : str) (skip : nat) : str :=
  match s with
  | [] => []
  | c :: s' =>
      match skip with
      | S k => remove_from old s' k
      | O =>
          if startswith s old then remove_from old s' (length old - 1)
          else c :: remove_from old s' 0
      end
  end.

Definition str_remove (s old : str) : str :=
  if bool_decide (old = []) then s else remove_from old s 0.

(** [s.count(c)] for one character. *)
Definition count_char (c : N) (s : str) : nat :=
  length (filter (λ x, x = c) s).

Definition SPACE : N := 32.
Definition DOT : N := 46.

(** The path [os.walk(top)] reports for the directory [below] the top:
    each name is joined to the path of its parent. *)
Definition walk_root (top : str) (below : list str) : str :=
  foldl os_path_join top below.

(** The body of the loop of [read_dir_tree]; the loop state is
    [tree_lines] and whether the loop was left by [break], after which
    nothing more is looked at. *)
Definition tree_lines_body (directory_path : str)
    (below dirnames filenames : list str) (st : list str * bool)
  : M (list str * (list str * bool)) :=
  let '(tree_lines, stopped) := st in
  if stopped then mret ([], st)
  else
    let root := walk_root directory_path below in
    let level := count_char SEP (str_remove root directory_path) in
    let indent := replicate (2 * level) SPACE in
    let tree_lines := tree_lines ++ [indent ++ os_path_basename root ++ [SEP]] in
    let subindent := replicate (2 * (level + 1)) SPACE in
    let tree_lines :=
      tree_lines
      ++ ((λ file, subindent ++ file)
            <$> filter (λ file, startswith file [DOT] = false) filenames) in
    if bool_decide (100 < length tree_lines)%nat
    then mret ([], (tree_lines ++ [lit "... (truncated)"], true))
    else mret (dirnames, (tree_lines, false)).

Definition read_dir_tree (directory_path : str) : M str :=
  returned ← try_except
    (st ← os_walk (tree_lines_body directory_path) directory_path ([], false);
     mret (inl st.1))
    (λ e, mret (inr (lit "Error reading directory: " ++ str_exn e)));
  match returned with
  | inl tree_lines => mret (join_with [LF] tree_lines)
  | inr message => mret message
  end.

(** [with open(full_path, 'r', encoding='utf-8') as f: f.read()] *)
Definition read_strict_in (path : str) (f : fsys) : result str :=
  match os_open_read path f with
  | Ret d =>
      match utf8_decode d with
      | Some s => Ret (universal_newlines s)
      | None => Raise UnicodeDecodeError
      end
  | Raise e => Raise e
  end.

Definition read_file (project_root relative_path : str) : M str :=
  try_except
    (let full_path := os_path_join project_root relative_path in
     inspect (read_strict_in full_path))
    (λ e, mret (lit "Error reading file " ++ relative_path ++ lit ": "
                ++ str_exn e)).

End SimpleFileTools.

(** ** agent/simple_agent.py *)
Module SimpleAgent.

(** [s.endswith(suffix)] *)
Definition endswith (s suffix : str) : bool :=
  startswith (rev s) (rev suffix).

Definition SOURCE_SUFFIXES : list str :=
  lit <$> [".py"; ".js"; ".html"; ".css"; ".jsx"; ".ts"; ".tsx"]%string.

(** What the language model asks for, for an answer whose function call
    carries arguments that parse and have the keys and the text values of
    the schema the request declares: one of the two declared functions,
    or a function of another name. *)
Inductive function_call :=
| modify_file (filename new_content : str)
| create_file (filename content : str)
| other_function (name : str).

(** [response.choices[0].message] *)
Record message := Message {
  content : option str;
  call : option function_call
}.

Section Agent.

(** [OpenAI(api_key=...)]: building the client succeeds or raises. *)
Variable new_client : result unit.

(** [client.chat.completions.create]: what comes back, or the exception
    raised, as a function of what the request is built from: the first
    3000 characters of the project structure, the main files and the user
    instruction. *)
Variable chat_completion : str → list (str * str) → option str → result message.

(** The body of the loop that reads the main files; once five files are
    read both loops are left, after which nothing more is looked at.
    [os.path.relpath(file_path, project_root)] is the names below the
    root with the file name, joined by slashes. *)
Definition main_files_body (project_root : str)
    (below dirnames filenames : list str) (main_files : list (str * str))
  : M (list str * list (str * str)) :=
  if bool_decide (5 ≤ length main_files)%nat then mret ([], main_files)
  else
    main_files ← foldM (λ main_files file,
      if bool_decide (5 ≤ length main_files)%nat then mret main_files
      else if existsb (endswith file) SOURCE_SUFFIXES then
        let rel_path := os_path_relpath (below ++ [file]) in
        try_except
          (content ← SimpleFileTools.read_file project_root rel_path;
           mret (main_files ++ [(rel_path, take 2000 content)]))
          (λ e, mret main_files)
      else mret main_files) main_files filenames;
    mret (dirnames, main_files).

(** The lines of the summary. *)
Definition final_result (m : message) (result_summary : list str) : list str :=
  (match content m with
   | Some (c :: cs) => [lit "Analysis:"; c :: cs]
   | _ => []
   end)
  ++ (match result_summary with
      | [] => [LF :: lit "No file modifications were made."]
      | _ => (LF :: lit "Actions taken:") :: result_summary
      end).

Definition simple_agent (project_root session_id : str)
    (user_instruction : option str) : M str :=
  inspect (λ _, new_client) ;;
  emit_log "info" ;;
  try_except
    (project_structure ← SimpleFileTools.read_dir_tree project_root;
     main_files ← os_walk (main_files_body project_root) project_root [];
     m ← inspect (λ _, chat_completion (take 3000 project_structure)
                         main_files user_instruction);
     result_summary ←
       match call m with
       | Some (modify_file filename new_content) =>
           result ← SimplePatchTools.apply_patch_raw project_root filename
                      new_content;
           mret [lit "Modified file: " ++ filename; lit "Result: " ++ result]
       | Some (create_file filename content) =>
           result ← SimplePatchTools.create_new_file_raw project_root filename
                      content;
           mret [lit "Created file: " ++ filename; lit "Result: " ++ result]
       | _ => mret []
       end;
     let final_output := join_with [LF] (final_result m result_summary) in
     emit_log "success" ;;
     mret final_output)
    (λ e,
       emit_log "error" ;;
       mret (lit "Error: " ++ str_exn e)).

End Agent.
End SimpleAgent.


(** Every progress notification in [evs] is out of [total] and not beyond
    it. *)
Definition within (total : nat) (evs : list event) : Prop :=
  ∀ step current tot,
    agent_progress step current tot ∈ evs →
    tot = total ∧ (current ≤ total)%nat.

(** [c] is what the first loop of the scanner counts in the tree [n] that
    lies [below] the root; the second loop, run with a total that leaves
    room for [c], files no more than [c] directories there and keeps its
    notifications within the total. *)
Definition walks_within (below : list str) (n : node) (c : nat) : Prop :=
  (∀ total w,
     walk_node FileTools.count_body below n total w = (Ret (total + c)%nat, w)) ∧
  (∀ total_dirs tree k w,
     (k + c ≤ total_dirs)%nat →
     ∃ tree' k' evs,
       walk_node (FileTools.tree_body total_dirs) below n (tree, k) w
         = (Ret (tree', k'), World (w_fs w) (w_trace w ++ evs)) ∧
       (k ≤ k' ≤ k + c)%nat ∧ within total_dirs evs).

(** ** agent/main.py, [parse_agent_output] *)

From stdpp Require pretty.

Module ParseAgentOutput.

(** The characters [str.strip] takes off: the white space of Unicode. *)
Definition is_space (c : N) : bool :=
  ((0x09 <=? c) && (c <=? 0x0D)) || ((0x1C <=? c) && (c <=? 0x20))
  || (c =? 0x85) || (c =? 0xA0) || (c =? 0x1680)
  || ((0x2000 <=? c) && (c <=? 0x200A))
  || (c =? 0x2028) || (c =? 0x2029) || (c =? 0x202F) || (c =? 0x205F)
  || (c =? 0x3000).

Fixpoint lstrip (s : str) : str :=
  match s with
  | c :: s' => if is_space c then lstrip s' else s
  | [] => []
  end.

(** [s.strip()] *)
Definition strip (s : str) : str := rev (lstrip (rev (lstrip s))).

(** [any(keyword in line for keyword in keywords)] *)
Definition any_in (keywords : list str) (line : str) : bool :=
  existsb (contains line) keywords.

(** The keyword lists of the four tests of the loop, in their order. *)
Definition FILE_KEYWORDS : list str :=
  lit <$> ["Created file:"; "Modified file:"; "Updated file:";
           "Successfully updated"; "Successfully created"]%string.

Definition TOOL_KEYWORDS : list str :=
  lit <$> ["edit_file"; "update_file_content"; "create_new_file"]%string.

Definition ERROR_KEYWORDS : list str :=
  lit <$> ["Error:"; "Failed:"; "Exception:"; "could not"; "cannot"]%string.

Definition SUMMARY_KEYWORDS : list str :=
  lit <$> ["completed"; "finished"; "done"; "successfully"; "applied";
           "changes"]%string.

(** The five lists the loop fills. *)
Record parsed := Parsed {
  summary_lines : list str;
  files_modified : list str;
  files_created : list str;
  errors : list str;
  tool_calls : list str
}.

(** A line of a list of the response: a bullet, a space, the text. *)
Definition bullet (s : str) : str := 0x2022 :: 0x20 :: s.

Section Parse.

(** [str.lower] *)
Variable lower : str → str.

(** The body of the loop over the lines. *)
Definition classify (p : parsed) (line : str) : parsed :=
  let line := strip line in
  if bool_decide (line = []) then p
  else if any_in FILE_KEYWORDS line then
    if contains line (lit "Created") || contains line (lit "created") then
      Parsed (summary_lines p) (files_modified p) (files_created p ++ [line])
        (errors p) (tool_calls p)
    else
      Parsed (summary_lines p) (files_modified p ++ [line]) (files_created p)
        (errors p) (tool_calls p)
  else if any_in TOOL_KEYWORDS line then
    Parsed (summary_lines p) (files_modified p) (files_created p) (errors p)
      (tool_calls p ++ [line])
  else if any_in ERROR_KEYWORDS line then
    Parsed (summary_lines p) (files_modified p) (files_created p)
      (errors p ++ [line]) (tool_calls p)
  else if any_in SUMMARY_KEYWORDS (lower line) then
    Parsed (summary_lines p ++ [line]) (files_modified p) (files_created p)
      (errors p) (tool_calls p)
  else p.

(** [parse_agent_output], as the entry point calls it: with a session id
    that is a text. *)
Definition parse_agent_output (raw_output user_instructions session_id : str)
  : str :=
  if bool_decide (raw_output = []) then
    lit "I've completed the requested task, but no detailed output was generated."
  else
    let lines := split_on LF (strip raw_output) in
    let p := foldl classify (Parsed [] [] [] [] []) lines in
    let files := files_modified p ++ files_created p in
    let response_parts :=
      [0x2705 :: lit " **Task Completed**: " ++ user_instructions; []]
      ++ (if negb (bool_decide (files_modified p = []))
             || negb (bool_decide (files_created p = [])) then
            [0x1F4DD :: lit " **Files Modified:**"]
            ++ (bullet <$> take 5 files)
            ++ (if bool_decide (5 < length files)%nat then
                  [bullet (lit "... and "
                           ++ lit (pretty.pretty_nat (length files - 5)%nat)
                           ++ lit " more files")]
                else [])
            ++ [[]]
          else if negb (bool_decide (tool_calls p = [])) then
            [0x1F527 :: lit " **Actions Performed:**"]
            ++ (bullet <$> take 3 (tool_calls p))
            ++ [[]]
          else [])
      ++ (if negb (bool_decide (errors p = [])) then
            [0x26A0 :: 0xFE0F :: lit " **Issues Encountered:**"]
            ++ (bullet <$> take 3 (errors p))
            ++ [[]]
          else [])
      ++ (if negb (bool_decide (summary_lines p = [])) then
            [0x1F4CB :: lit " **Summary:**"]
            ++ (bullet <$> take 3 (summary_lines p))
          else
            [0x1F4CB :: lit " **Summary:**"]
            ++ (if negb (bool_decide (files_modified p = []))
                   || negb (bool_decide (files_created p = []))
                   || negb (bool_decide (tool_calls p = [])) then
                  [bullet (lit "I've analyzed your project and applied the requested changes");
                   bullet (lit "The modifications have been saved to your project files")]
                else
                  [bullet (lit "I've processed your request");
                   bullet (lit "If no changes appear, the files may already meet the requirements");
                   bullet (lit "Check the session logs for detailed execution information")]))
      ++ [[];
          0x1F50D :: lit " *For detailed logs, check session ID: "
          ++ (if bool_decide (session_id = []) then lit "N/A" else session_id)
          ++ lit "*"] in
    join_with [LF] response_parts.

End Parse.
End ParseAgentOutput.

(** ** What the host takes

    The model of the filesystem stands for the host on the paths the host
    takes.  A path that holds a NUL character makes [open], [os.mkdir] and
    [os.scandir] raise [ValueError] before the host is asked; a name longer
    than [NAME_MAX] bytes or a path of [PATH_MAX] bytes or more is answered
    with the error of a name that is too long; and [print], which the
    sources and [socket_service] call on their arguments, raises on a
    lone surrogate when the console is a strict UTF-8 stream.  None of
    this has an image in the model, so the properties below that promise
    what a call answers for every path of some kind are stated for the
    arguments described here. *)

(** The character no path can hold. *)
Definition NUL : N := 0.

(** The limits of the host on the bytes of a name and of a path, the
    closing NUL of the path counted in. *)
Definition NAME_MAX : nat := 255.
Definition PATH_MAX : nat := 4096.

(** Text that can go to the console and into a system call: no NUL
    character and no lone surrogate. *)
Definition host_text (s : str) : bool :=
  negb (bool_decide (NUL ∈ s)) && bool_decide (is_Some (utf8_encode s)).

(** The text encodes to no more than [limit] bytes. *)
Definition fits (limit : nat) (s : str) : bool :=
  match utf8_encode s with
  | Some bs => bool_decide (length bs ≤ limit)%nat
  | None => false
  end.

(** Text that [repr] shows as it is, between single quotes: printable
    ASCII without the single quote and the backslash. *)
Definition repr_plain (s : str) : bool :=
  forallb (λ c, (0x20 <=? c) && (c <=? 0x7E)
                && negb (c =? 0x27) && negb (c =? 0x5C)) s.

(** A path the host takes: host text that is short enough, none of its
    components longer than a name can be. *)
Definition host_path (s : str) : bool :=
  host_text s && fits (PATH_MAX - 1) s
  && forallb (fits NAME_MAX) (split_on SEP s).

(** The arguments of the mutator and of the creator are text the console
    takes, and the path computed from them is one the host takes. *)
Definition host_target (project_root filename : str) : bool :=
  host_text project_root && host_text filename
  && host_path (Path_str (target_path project_root filename)).

(** A name the host gives to an entry of a directory, and that the console
    takes. *)
Definition host_name (x : str) : bool :=
  name_ok x && negb (bool_decide (x = DOTDOT)) && host_text x
  && fits NAME_MAX x.

(** Every name in the tree is such a name. *)
Fixpoint host_names (n : node) : bool :=
  match n with
  | File _ => true
  | Dir es => forallb (λ e, host_name e.1 && host_names e.2) es
  end.

Definition host_fs (f : fsys) : bool := host_names (Dir (fs_root f)).

(** * Proofs *)

(** ** The codec *)

Section Codec.

Local Ltac Zify.zify_post_hook ::= Z.to_euclidean_division_equations.

Lemma to_N_byte_of_N (n : N) : n < 256 → Byte.to_N (byte_of_N n) = n.
Proof.
  intros Hn. unfold byte_of_N.
  destruct (Byte.of_N n) as [b|] eqn:E; simpl.
  - by apply Byte.to_of_N.
  - apply Byte.of_N_None_iff in E. lia.
Qed.

Lemma cont_byte (x : N) :
  x < 64 →
  is_cont (byte_of_N (0x80 + x)) = true ∧ cont_bits (byte_of_N (0x80 + x)) = x.
Proof.
  intros Hx. unfold is_cont, cont_bits.
  rewrite to_N_byte_of_N by lia.
  split; [|lia].
  apply andb_true_iff; split; [apply N.leb_le | apply N.ltb_lt]; lia.
Qed.

Ltac lead_byte :=
  rewrite to_N_byte_of_N by lia;
  repeat (rewrite (proj2 (N.ltb_ge _ _)) by lia);
  rewrite (proj2 (N.ltb_lt _ _)) by lia.

Ltac cont_step x :=
  let Hc := fresh "Hc" in
  let Hb := fresh "Hb" in
  destruct (cont_byte x ltac:(lia)) as [Hc Hb]; rewrite ?Hc, ?Hb; clear Hc Hb.

Lemma utf8_decode_encode_cp (c : N) (bs rest : list byte) :
  utf8_encode_cp c = Some bs →
  utf8_decode (bs ++ rest) = cons c <$> utf8_decode rest.
Proof.
  unfold utf8_encode_cp. intros H.
  destruct (N.ltb_spec c 0x80); [|destruct (N.ltb_spec c 0x800);
    [|destruct (N.ltb_spec c 0x10000);
      [destruct (is_surrogate c) eqn:Hs; [done|]
      |destruct (N.ltb_spec c 0x110000); [|done]]]];
    simplify_eq; cbn [app utf8_decode]; lead_byte.
  - done.
  - cont_step (c `mod` 64).
    replace ((0xC0 + c / 64 - 0xC0) * 64 + c `mod` 64) with c by lia.
    by rewrite (proj2 (N.leb_le _ _)) by lia.
  - cont_step ((c / 64) `mod` 64). cont_step (c `mod` 64).
    replace ((0xE0 + c / 4096 - 0xE0) * 4096 + (c / 64) `mod` 64 * 64
             + c `mod` 64) with c by lia.
    rewrite Hs. by rewrite (proj2 (N.leb_le _ _)) by lia.
  - cont_step ((c / 4096) `mod` 64). cont_step ((c / 64) `mod` 64).
    cont_step (c `mod` 64).
    replace ((0xF0 + c / 262144 - 0xF0) * 262144 + (c / 4096) `mod` 64 * 4096
             + (c / 64) `mod` 64 * 64 + c `mod` 64) with c by lia.
    rewrite (proj2 (N.leb_le _ _)) by lia.
    by rewrite (proj2 (N.ltb_lt _ _)) by lia.
Qed.

End Codec.

(** Decoding undoes encoding. *)
Lemma utf8_decode_encode (s : str) (bs : list byte) :
  utf8_encode s = Some bs → utf8_decode bs = Some s.
Proof.
  revert bs. induction s as [|c s IH]; intros bs H; simpl in H.
  - by simplify_eq.
  - destruct (utf8_encode_cp c) as [b1|] eqn:E1; [|done].
    destruct (utf8_encode s) as [b2|] eqn:E2; [|done].
    simplify_eq. rewrite (utf8_decode_encode_cp c b1 b2 E1).
    by rewrite (IH b2 eq_refl).
Qed.

(** Text without a carriage return is read back as it is. *)
Lemma universal_newlines_id (s : str) : CR ∉ s → universal_newlines s = s.
Proof.
  induction s as [|c s IH]; intros H; [done|]. simpl.
  apply not_elem_of_cons in H as [Hc Hs].
  destruct (N.eqb_spec c CR); [done|]. by rewrite IH.
Qed.

Lemma universal_newlines_no_CR (s : str) : CR ∉ universal_newlines s.
Proof.
  assert (∀ n s, length s ≤ n → CR ∉ universal_newlines s)%nat as H.
  { clear s. induction n as [|n IH]; intros s Hn.
    - destruct s; [|simpl in Hn; lia]. simpl. apply not_elem_of_nil.
    - destruct s as [|c s]; [apply not_elem_of_nil|]. simpl in *.
      destruct (N.eqb_spec c CR).
      + apply not_elem_of_cons. split; [done|].
        destruct s as [|c' s]; [apply not_elem_of_nil|].
        destruct (c' =? LF); apply IH; simpl in *; lia.
      + apply not_elem_of_cons. split; [done|]. apply IH. lia. }
  by apply (H (length s)).
Qed.

(** Text with a carriage return is never read back as it is. *)
Lemma universal_newlines_CR (s : str) : CR ∈ s → universal_newlines s ≠ s.
Proof.
  intros H E. apply (universal_newlines_no_CR s). by rewrite E.
Qed.

(** ** The tree *)

Lemma assoc_set_entry_eq c v es : assoc c (set_entry c v es) = Some v.
Proof.
  induction es as [|[n x] es IH]; simpl.
  - by rewrite decide_True.
  - destruct (decide (n = c)); simpl.
    + by rewrite decide_True.
    + by rewrite decide_False.
Qed.

Lemma assoc_set_entry_ne c c' v es :
  c ≠ c' → assoc c' (set_entry c v es) = assoc c' es.
Proof.
  intros Hne. induction es as [|[n x] es IH]; simpl.
  - by rewrite decide_False.
  - destruct (decide (n = c)) as [->|]; simpl.
    + by rewrite !decide_False.
    + by rewrite IH.
Qed.

Lemma lookup_childless v c q : childless v → lookup_node v (c :: q) = None.
Proof. destruct v as [|es]; simpl; [done|]. by intros ->. Qed.

Lemma put_lookup_same n l v n' :
  put n l v = Some n' → lookup_node n' l = Some v.
Proof.
  revert n n'. induction l as [|c l IH]; intros n n' H; simpl in *.
  - by simplify_eq.
  - destruct n as [|es]; [done|].
    destruct (assoc c es) as [ch|] eqn:E.
    + destruct (put ch l v) as [ch'|] eqn:E'; simpl in H; [|done].
      simplify_eq. simpl. rewrite assoc_set_entry_eq. simpl. by eapply IH.
    + destruct l; [|done]. simplify_eq. simpl.
      by rewrite assoc_set_entry_eq.
Qed.

Lemma put_lookup_other n l v n' q :
  put n l v = Some n' → not_a_dir (lookup_node n l) → childless v → q ≠ l →
  kind_of <$> lookup_node n' q = kind_of <$> lookup_node n q.
Proof.
  revert n n' q. induction l as [|c l IH]; intros n n' q H Hold Hv Hq;
    simpl in *.
  - simplify_eq. destruct q as [|c q]; [done|].
    rewrite lookup_childless by done. by destruct n.
  - destruct n as [|es]; [done|].
    destruct q as [|c2 q]; simpl.
    { destruct (assoc c es); [destruct (put _ _ _)|destruct l];
        simpl in H; by simplify_eq. }
    destruct (assoc c es) as [ch|] eqn:E.
    + destruct (put ch l v) as [ch'|] eqn:E'; simpl in H; [|done].
      simplify_eq. simpl. destruct (decide (c = c2)) as [->|Hne].
      * rewrite assoc_set_entry_eq, E. simpl. simpl in Hold.
        eapply IH; eauto. congruence.
      * by rewrite assoc_set_entry_ne.
    + destruct l; [|done]. simplify_eq. simpl.
      destruct (decide (c = c2)) as [->|Hne].
      * rewrite assoc_set_entry_eq, E. simpl.
        destruct q as [|c3 q]; [done|]. by rewrite lookup_childless.
      * by rewrite assoc_set_entry_ne.
Qed.

Lemma put_under_dir n l c v :
  (∃ es, lookup_node n l = Some (Dir es)) → is_Some (put n (l ++ [c]) v).
Proof.
  revert n. induction l as [|c0 l IH]; intros n [es H]; simpl in *.
  - simplify_eq. by destruct (assoc c es).
  - destruct n as [|es0]; [done|].
    destruct (assoc c0 es0) as [ch|] eqn:E; simpl in H; [|done].
    destruct (IH ch) as [ch' ->]; eauto.
Qed.

Lemma put_is_dir es l v n' :
  l ≠ [] → put (Dir es) l v = Some n' → ∃ es', n' = Dir es'.
Proof.
  destruct l as [|c l]; [done|]. intros _ H. simpl in H.
  destruct (assoc c es); [destruct (put _ _ _)|destruct l];
    simpl in H; simplify_eq; eauto.
Qed.

(** ** The filesystem *)

Lemma stat_parent f l c k :
  stat_loc f (l ++ [c]) = Some k → stat_loc f l = Some KDir.
Proof.
  unfold stat_loc. generalize (Dir (fs_root f)). clear f.
  induction l as [|c0 l IH]; intros n H; simpl in *.
  - destruct n; [done|done].
  - destruct n as [|es]; [done|].
    destruct (assoc c0 es); simpl in *; [|done]. eauto.
Qed.

Lemma put_loc_cwd f l v f' : put_loc f l v = Some f' → fs_cwd f' = fs_cwd f.
Proof.
  unfold put_loc. intros H.
  destruct (put _ _ _) as [[|es]|]; by simplify_eq.
Qed.

Lemma put_loc_stat_same f l v f' :
  put_loc f l v = Some f' → stat_loc f' l = Some (kind_of v).
Proof.
  unfold put_loc, stat_loc. intros H.
  destruct (put _ _ _) as [[|es]|] eqn:E; simplify_eq. simpl.
  by rewrite (put_lookup_same _ _ _ _ E).
Qed.

Lemma put_loc_stat_other f l v f' q :
  put_loc f l v = Some f' → stat_loc f l ≠ Some KDir → childless v → q ≠ l →
  stat_loc f' q = stat_loc f q.
Proof.
  unfold put_loc, stat_loc. intros H Hold Hv Hq.
  destruct (put _ _ _) as [[|es]|] eqn:E; simplify_eq. simpl.
  eapply put_lookup_other; eauto.
  destruct (lookup_node _ l) as [[]|]; simpl in *; done.
Qed.

Lemma put_loc_under_dir f l c v :
  stat_loc f l = Some KDir → is_Some (put_loc f (l ++ [c]) v).
Proof.
  unfold stat_loc, put_loc. intros H.
  destruct (lookup_node _ l) as [[|es]|] eqn:E; simplify_eq.
  destruct (put_under_dir (Dir (fs_root f)) l c v) as [n' Hn']; eauto.
  assert (l ++ [c] ≠ []) as Hne by (by destruct l).
  rewrite Hn'. destruct (put_is_dir _ _ _ _ Hne Hn') as [? ->]. eauto.
Qed.

(** Resolution only asks which locations are directories. *)
Lemma namei_mono f f' shown cur comps l :
  (∀ q, stat_loc f q = Some KDir → stat_loc f' q = Some KDir) →
  namei f shown cur comps = inr l → namei f' shown cur comps = inr l.
Proof.
  intros Hd. revert cur. induction comps as [|c rest IH]; intros cur H;
    simpl in *; [done|].
  destruct (decide (c = DOTDOT)); [by apply IH|].
  destruct rest as [|c' rest]; [done|].
  destruct (stat_loc f (cur ++ [c])) as [[|]|] eqn:E; try done.
  rewrite (Hd _ E). by apply IH.
Qed.

Lemma resolve_mono f f' p l :
  fs_cwd f' = fs_cwd f →
  (∀ q, stat_loc f q = Some KDir → stat_loc f' q = Some KDir) →
  resolve f p = inr l → resolve f' p = inr l.
Proof.
  unfold resolve, base_of. intros -> Hd. by apply namei_mono.
Qed.

(** ** The primitives *)

Lemma os_stat_Ret p f k :
  os_stat p f = Ret k ↔ ∃ l, resolve f p = inr l ∧ stat_loc f l = Some k.
Proof.
  unfold os_stat. split.
  - destruct (resolve f p) as [e|l]; [done|].
    destruct (stat_loc f l) eqn:E; intros; simplify_eq; eauto.
  - intros (l & -> & ->). done.
Qed.

Lemma write_text_in_Ret p s f f1 :
  write_text_in p s f = (Ret tt, f1) →
  ∃ l bs, resolve f p = inr l ∧ stat_loc f l ≠ Some KDir ∧
          utf8_encode s = Some bs ∧ put_loc f l (File bs) = Some f1.
Proof.
  unfold write_text_in. intros H.
  destruct (resolve f p) as [e|l]; [done|].
  exists l.
  destruct (stat_loc f l) as [[|]|] eqn:E; [|done|];
    (destruct (put_loc f l (File [])); [|done];
     destruct (utf8_encode s) as [bs|]; [|done];
     destruct (put_loc f l (File bs)) eqn:E2; [|done];
     simplify_eq; exists bs; split_and!; done).
Qed.

(** Whatever [write_text] answers, it leaves the working directory alone
    and touches at most the node its path resolves to, which was no
    directory and becomes a regular file. *)
Lemma write_text_in_effect p s f r f1 :
  write_text_in p s f = (r, f1) →
  f1 = f ∨ ∃ l bs, resolve f p = inr l ∧ stat_loc f l ≠ Some KDir ∧
                   put_loc f l (File bs) = Some f1.
Proof.
  unfold write_text_in. intros H.
  destruct (resolve f p) as [e|l]; [left; by simplify_eq|].
  destruct (stat_loc f l) as [[|]|] eqn:E; [|left; by simplify_eq|];
    (destruct (put_loc f l (File [])) eqn:E0; [|left; by simplify_eq];
     destruct (utf8_encode s) as [bs|];
       [|right; simplify_eq; exists l, []; split_and!; congruence];
     destruct (put_loc f l (File bs)) eqn:E2; [|left; by simplify_eq];
     right; simplify_eq; exists l, bs; split_and!; congruence).
Qed.

Lemma put_file_keeps_dirs f l bs f1 q :
  put_loc f l (File bs) = Some f1 → stat_loc f l ≠ Some KDir →
  stat_loc f q = Some KDir → stat_loc f1 q = Some KDir.
Proof.
  intros Hp Hl Hq. destruct (decide (q = l)) as [->|Hne]; [done|].
  by rewrite (put_loc_stat_other _ _ _ _ _ Hp).
Qed.

Lemma read_after_put p f l bs f1 :
  resolve f p = inr l → stat_loc f l ≠ Some KDir →
  put_loc f l (File bs) = Some f1 →
  read_text_in p f1 = match utf8_decode bs with
                      | Some s => Ret (universal_newlines s)
                      | None => Raise UnicodeDecodeError
                      end.
Proof.
  intros Hr Hl Hp. unfold read_text_in, os_stat.
  rewrite (resolve_mono f f1 p l); eauto using put_loc_cwd, put_file_keeps_dirs.
  by rewrite (put_loc_stat_same _ _ _ _ Hp).
Qed.

(** What is read after a write that went through. *)
Lemma read_after_write p s f f1 :
  write_text_in p s f = (Ret tt, f1) →
  read_text_in p f1 = Ret (universal_newlines s).
Proof.
  intros (l & bs & Hr & Hl & He & Hp)%write_text_in_Ret.
  rewrite (read_after_put _ _ _ _ _ Hr Hl Hp).
  by rewrite (utf8_decode_encode _ _ He).
Qed.

Lemma read_text_in_file p f l bs s :
  resolve f p = inr l → stat_loc f l = Some (KFile bs) →
  utf8_encode s = Some bs → CR ∉ s → read_text_in p f = Ret s.
Proof.
  intros Hr Hl He Hc. unfold read_text_in, os_stat. rewrite Hr, Hl.
  rewrite (utf8_decode_encode _ _ He). by rewrite universal_newlines_id.
Qed.

Lemma frame_of_refl p f : frame_of p f f.
Proof.
  split_and!; [done|done|]. intros l _.
  destruct (stat_loc f l) as [[bs|]|]; eauto.
Qed.

Lemma write_text_in_frame p s f r f1 :
  is_file_in p f = true → write_text_in p s f = (r, f1) → frame_of p f f1.
Proof.
  intros Hf [->|(l & bs & Hr & Hl & Hp)]%write_text_in_effect;
    [apply frame_of_refl|].
  unfold is_file_in in Hf.
  destruct (os_stat p f) as [[d|]|] eqn:E; try done.
  apply os_stat_Ret in E as (l' & Hr' & Hl').
  assert (l' = l) as -> by congruence.
  split_and!.
  - by eapply put_loc_cwd.
  - intros q Hq.
    eapply put_loc_stat_other; [exact Hp|exact Hl|done|congruence].
  - intros l2 Hl2. assert (l2 = l) as -> by congruence. rewrite Hl'.
    exists bs. by rewrite (put_loc_stat_same _ _ _ _ Hp).
Qed.

Lemma namei_Exception f shown cur comps e :
  namei f shown cur comps = inl e → is_Exception e = true.
Proof.
  revert cur. induction comps as [|c rest IH]; intros cur H; simpl in *;
    [done|].
  destruct (decide (c = DOTDOT)); [by eapply IH|].
  destruct rest; [done|].
  destruct (stat_loc f (cur ++ [c])) as [[|]|]; simplify_eq; eauto.
Qed.

Lemma os_stat_Exception p f e : os_stat p f = Raise e → is_Exception e = true.
Proof.
  unfold os_stat, resolve. destruct (namei _ _ _ _) eqn:E.
  - intros; simplify_eq. by eapply namei_Exception.
  - destruct (stat_loc _ _); intros; by simplify_eq.
Qed.

Lemma read_text_in_Exception p f e :
  read_text_in p f = Raise e → is_Exception e = true.
Proof.
  unfold read_text_in. destruct (os_stat p f) as [[bs|]|] eqn:E.
  - destruct (utf8_decode bs); intros; by simplify_eq.
  - intros; by simplify_eq.
  - intros; simplify_eq. by eapply os_stat_Exception.
Qed.

Lemma write_text_in_Exception p s f e f1 :
  write_text_in p s f = (Raise e, f1) → is_Exception e = true.
Proof.
  unfold write_text_in, resolve. destruct (namei _ _ _ _) eqn:E.
  { intros; simplify_eq. by eapply namei_Exception. }
  destruct (stat_loc _ _) as [[|]|];
    repeat case_match; intros; by simplify_eq.
Qed.

Lemma exists_of_read p f s : read_text_in p f = Ret s → exists_in p f = true.
Proof.
  unfold read_text_in, exists_in. by destruct (os_stat p f).
Qed.

Lemma stat_of_read p f s : read_text_in p f = Ret s → stat_in p f = Ret tt.
Proof.
  unfold read_text_in, stat_in. by destruct (os_stat p f).
Qed.

Ltac run_M :=
  cbv [mbind ST_bind mret ST_ret try_except try_except_if inspect on_fs
       emit_log emit_progress emit_file_operation emit raise
       Path_exists Path_read_text Path_stat Path_write_text
       Path_mkdir_parents_exist_ok w_fs w_trace fst snd].

Ltac answer := eexists _, _; split; [reflexivity | simpl].

(** Every call of the mutator returns, in one of the ways of
    [apply_outcome]. *)
Lemma apply_patch_raw_outcome m project_root filename new_content w :
  ∃ s w',
    apply_patch_raw m project_root filename new_content w = (Ret s, w') ∧
    apply_outcome m (target_path project_root filename) filename new_content
      (w_fs w) s (w_fs w').
Proof.
  destruct w as [f t].
  destruct m; unfold apply_patch_raw, SimplePatchTools.apply_patch_raw,
    PatchTools.apply_patch_raw;
    set (p := target_path project_root filename); run_M.
  all: destruct (exists_in p f) eqn:Hex; simpl; [|answer; by constructor].
  all: destruct (read_text_in p f) as [cur|e] eqn:Hrd;
    [|rewrite (read_text_in_Exception _ _ _ Hrd); answer; by constructor].
  all: destruct (bool_decide_reflect (cur = new_content)) as [->|Hne];
    [answer; by constructor|].
  all: rewrite (stat_of_read _ _ _ Hrd).
  all: destruct (write_text_in p new_content f) as [[[]|e] f1] eqn:Hwr; simpl;
    [|rewrite (write_text_in_Exception _ _ _ _ _ Hwr); answer;
      first [ exact (ao_write_error simple_patch_tools _ _ _ _ cur e f1
                       Hrd Hne Hwr)
            | exact (ao_write_error patch_tools _ _ _ _ cur e f1
                       Hrd Hne Hwr) ]].
  all: pose proof (read_after_write _ _ _ _ Hwr) as Hrd1.
  all: pose proof (stat_of_read _ _ _ Hrd1) as Hst1.
  all: do 2 (rewrite ?Hrd1, ?Hst1; simpl).
  all: destruct (bool_decide_reflect
                   (universal_newlines new_content = new_content))
         as [Heq|Hneq]; simpl; answer.
  all: first [ by eapply ao_verification_failed
             | eapply ao_updated; eauto; congruence ].
Qed.

(** ** The outcome strings are told apart by how they begin *)

Ltac msg_neq :=
  intros;
  cbv [msg_not_found msg_unchanged msg_write_error msg_verification_failed
       msg_updated msg_update_error msg_creation_verification_failed
       msg_not_created msg_created msg_create_error];
  let H := fresh in
  intros H; vm_compute (lit _) in H; simpl in H; discriminate H.

Lemma updated_not_not_found fn p : msg_updated fn ≠ msg_not_found p.
Proof. msg_neq. Qed.
Lemma updated_not_update_error fn e : msg_updated fn ≠ msg_update_error e.
Proof. msg_neq. Qed.
Lemma updated_not_unchanged fn fn' : msg_updated fn ≠ msg_unchanged fn'.
Proof. msg_neq. Qed.
Lemma updated_not_write_error fn fn' e : msg_updated fn ≠ msg_write_error fn' e.
Proof. msg_neq. Qed.
Lemma updated_not_verification_failed fn fn' :
  msg_updated fn ≠ msg_verification_failed fn'.
Proof. msg_neq. Qed.

Lemma verification_failed_not_not_found fn p :
  msg_verification_failed fn ≠ msg_not_found p.
Proof. msg_neq. Qed.
Lemma verification_failed_not_update_error fn e :
  msg_verification_failed fn ≠ msg_update_error e.
Proof. msg_neq. Qed.
Lemma verification_failed_not_unchanged fn fn' :
  msg_verification_failed fn ≠ msg_unchanged fn'.
Proof. msg_neq. Qed.
Lemma verification_failed_not_write_error fn fn' e :
  msg_verification_failed fn ≠ msg_write_error fn' e.
Proof. msg_neq. Qed.

Lemma write_failure_not_updated m fn fn' e :
  msg_updated fn ≠ msg_write_failure m fn' e.
Proof.
  destruct m; [apply updated_not_write_error|apply updated_not_update_error].
Qed.

Lemma write_failure_not_verification_failed m fn fn' e :
  msg_verification_failed fn ≠ msg_write_failure m fn' e.
Proof.
  destruct m; [apply verification_failed_not_write_error
              |apply verification_failed_not_update_error].
Qed.

(** The filesystem a call of the mutator leaves is the one it found, or
    the one its single write left. *)
Lemma apply_outcome_frame m p fn c f s f' :
  apply_outcome m p fn c f s f' → frame_of p f f'.
Proof.
  assert (∀ cur, read_text_in p f = Ret cur → is_file_in p f = true) as Hfile.
  { intros cur. unfold read_text_in, is_file_in.
    by destruct (os_stat p f) as [[]|]. }
  destruct 1; eauto using frame_of_refl, write_text_in_frame.
Qed.



Lemma write_text_in_result p s f f1 :
  write_text_in p s f = (Ret tt, f1) →
  ∃ l bs, resolve f1 p = inr l ∧ stat_loc f1 l = Some (KFile bs) ∧
          utf8_encode s = Some bs.
Proof.
  intros (l & bs & Hr & Hl & He & Hp)%write_text_in_Ret.
  exists l, bs. split_and!; [|by rewrite (put_loc_stat_same _ _ _ _ Hp)|done].
  apply (resolve_mono f f1 p l);
    [by eapply put_loc_cwd|intros q Hq; by eapply put_file_keeps_dirs|done].
Qed.

(** Where the bytes of the file are the encoding of the new content and
    the content has no carriage return, the call answers the unchanged
    outcome and the filesystem is the one it found. *)
Lemma apply_same_text_unchanged m project_root filename new_content w l bs :
  resolve (w_fs w) (target_path project_root filename) = inr l →
  stat_loc (w_fs w) l = Some (KFile bs) →
  utf8_encode new_content = Some bs →
  CR ∉ new_content →
  ∃ w',
    apply_patch_raw m project_root filename new_content w
      = (Ret (msg_unchanged filename), w') ∧
    w_fs w' = w_fs w.
Proof.
  intros Hr Hl He Hc.
  pose proof (read_text_in_file _ _ _ _ _ Hr Hl He Hc) as Hrd.
  destruct (apply_patch_raw_outcome m project_root filename new_content w)
    as (s & w' & Hrun & Hout).
  exists w'. pose proof (exists_of_read _ _ _ Hrd) as Hex.
  destruct Hout; try congruence.
  by rewrite Hrun.
Qed.

(** The page of the example project, given its own text. *)
Lemma apply_same_text_unchanged_witness :
  ∃ w',
    apply_patch_raw patch_tools (lit "/proj") (lit "index.html")
      (lit "<h1>Hi</h1>") example_world
      = (Ret (msg_unchanged (lit "index.html")), w') ∧
    w_fs w' = example_fs.
Proof.
  apply (apply_same_text_unchanged patch_tools (lit "/proj")
           (lit "index.html") (lit "<h1>Hi</h1>") example_world
           [lit "proj"; lit "index.html"]
           (list_byte_of_string "<h1>Hi</h1>")).
  - vm_compute. reflexivity.
  - vm_compute. reflexivity.
  - vm_compute. reflexivity.
  - apply (bool_decide_unpack _). vm_compute. exact I.
Defined.

(** C1.  The note of the example project holds a Windows line ending.
    Called with the very text its bytes encode, both copies of the mutator
    find the content different (the text they read has the line ending
    turned into a line feed), write the file and answer that the
    verification of the write failed: the call is not answered as
    unchanged. *)
Theorem apply_same_bytes_with_carriage_return :
  resolve example_fs (target_path (lit "/proj") (lit "notes.txt"))
    = inr [lit "proj"; lit "notes.txt"] ∧
  (∃ bs, stat_loc example_fs [lit "proj"; lit "notes.txt"] = Some (KFile bs) ∧
         utf8_encode note_text = Some bs) ∧
  ∀ m,
    (apply_patch_raw m (lit "/proj") (lit "notes.txt") note_text
       example_world).1
      = Ret (msg_verification_failed (lit "notes.txt")) ∧
    (apply_patch_raw m (lit "/proj") (lit "notes.txt") note_text
       example_world).1
      ≠ Ret (msg_unchanged (lit "notes.txt")).
Proof.
  split_and!.
  - vm_compute. reflexivity.
  - eexists. split; vm_compute; reflexivity.
  - intros m. destruct m; split; vm_compute; (reflexivity || discriminate).
Qed.

(** C2.  When a call of the mutator answers the success outcome, reading
    the file afterwards gives exactly the new content, and the file holds
    the encoding of that content.  This holds for both copies. *)
Theorem apply_success_reads_back m project_root filename new_content w w' :
  apply_patch_raw m project_root filename new_content w
    = (Ret (msg_updated filename), w') →
  read_text_in (target_path project_root filename) (w_fs w') = Ret new_content ∧
  ∃ l bs,
    resolve (w_fs w') (target_path project_root filename) = inr l ∧
    stat_loc (w_fs w') l = Some (KFile bs) ∧
    utf8_encode new_content = Some bs.
Proof.
  intros Hrun.
  destruct (apply_patch_raw_outcome m project_root filename new_content w)
    as (s & w2 & Hrun' & Hout).
  rewrite Hrun in Hrun'. simplify_eq.
  inversion Hout; subst;
    try match goal with
        | H : _ = msg_updated _ |- _ =>
            exfalso; symmetry in H; revert H;
            first [ apply updated_not_not_found
                  | apply updated_not_update_error
                  | apply updated_not_unchanged
                  | apply write_failure_not_updated
                  | apply updated_not_verification_failed ]
        end.
  split; [done|]. by eapply write_text_in_result.
Qed.

(** The page of the example project, given a footer. *)
Lemma apply_success_reads_back_witness :
  read_text_in (target_path (lit "/proj") (lit "index.html"))
    (w_fs (apply_patch_raw simple_patch_tools (lit "/proj") (lit "index.html")
             (lit "<h1>Hi</h1><footer>bye</footer>") example_world).2)
    = Ret (lit "<h1>Hi</h1><footer>bye</footer>").
Proof.
  eapply (apply_success_reads_back simple_patch_tools (lit "/proj")
            (lit "index.html") (lit "<h1>Hi</h1><footer>bye</footer>")
            example_world).
  vm_compute. reflexivity.
Defined.

Ltac not_verification_failed :=
  match goal with
  | H : _ = msg_verification_failed _ |- _ =>
      exfalso; symmetry in H; revert H;
      first [ apply verification_failed_not_not_found
            | apply verification_failed_not_update_error
            | apply verification_failed_not_unchanged
            | apply write_failure_not_verification_failed
            | intros H'; symmetry in H'; revert H';
              apply updated_not_verification_failed ]
  end.

(** C4.  When the write went through and the file read again differs from
    the new content, the call answers the verification-failed outcome;
    that outcome is answered in no other case; and its string differs from
    every string answered for an exception of a library call.  This holds
    for both copies. *)
Theorem apply_verification_failure m project_root filename new_content w :
  (∀ cur f1 v,
     read_text_in (target_path project_root filename) (w_fs w) = Ret cur →
     cur ≠ new_content →
     write_text_in (target_path project_root filename) new_content (w_fs w)
       = (Ret tt, f1) →
     read_text_in (target_path project_root filename) f1 = Ret v →
     v ≠ new_content →
     ∃ w',
       apply_patch_raw m project_root filename new_content w
         = (Ret (msg_verification_failed filename), w') ∧
       w_fs w' = f1) ∧
  (∀ w',
     apply_patch_raw m project_root filename new_content w
       = (Ret (msg_verification_failed filename), w') →
     ∃ cur v,
       read_text_in (target_path project_root filename) (w_fs w) = Ret cur ∧
       cur ≠ new_content ∧
       write_text_in (target_path project_root filename) new_content (w_fs w)
         = (Ret tt, w_fs w') ∧
       read_text_in (target_path project_root filename) (w_fs w') = Ret v ∧
       v ≠ new_content) ∧
  (∀ e filename',
     msg_verification_failed filename ≠ msg_update_error e ∧
     msg_verification_failed filename ≠ msg_write_error filename' e).
Proof.
  destruct (apply_patch_raw_outcome m project_root filename new_content w)
    as (s & w2 & Hrun & Hout).
  split_and!.
  - intros cur f1 v Hrd Hne Hwr Hrd1 Hv. exists w2.
    pose proof (exists_of_read _ _ _ Hrd) as Hex.
    rewrite Hrun. inversion Hout; subst; try congruence.
    split; [done|congruence].
  - intros w' Hrun'. rewrite Hrun in Hrun'. simplify_eq.
    inversion Hout; subst; try not_verification_failed.
    eauto 10.
  - intros e filename'. split;
      [apply verification_failed_not_update_error
      |apply verification_failed_not_write_error].
Qed.

(** The page of the example project, given text with a Windows line
    ending. *)
Lemma apply_verification_failure_witness :
  ∃ w',
    apply_patch_raw simple_patch_tools (lit "/proj") (lit "index.html")
      note_text example_world
      = (Ret (msg_verification_failed (lit "index.html")), w') ∧
    w_fs w' = (write_text_in (target_path (lit "/proj") (lit "index.html"))
                 note_text example_fs).2.
Proof.
  apply (proj1 (apply_verification_failure simple_patch_tools (lit "/proj")
                  (lit "index.html") note_text example_world)
           (lit "<h1>Hi</h1>") _ (lit "one" ++ [LF] ++ lit "two")).
  - vm_compute. reflexivity.
  - vm_compute. discriminate.
  - vm_compute. reflexivity.
  - vm_compute. reflexivity.
  - vm_compute. discriminate.
Defined.

(** New content with a carriage return never passes the verification:
    the write goes through and the call still answers that it failed. *)
Lemma apply_carriage_return_fails_verification m project_root filename
    new_content w cur f1 :
  read_text_in (target_path project_root filename) (w_fs w) = Ret cur →
  cur ≠ new_content →
  write_text_in (target_path project_root filename) new_content (w_fs w)
    = (Ret tt, f1) →
  CR ∈ new_content →
  ∃ w',
    apply_patch_raw m project_root filename new_content w
      = (Ret (msg_verification_failed filename), w') ∧
    w_fs w' = f1.
Proof.
  intros Hrd Hne Hwr Hcr.
  pose proof (read_after_write _ _ _ _ Hwr) as Hrd1.
  pose proof (universal_newlines_CR _ Hcr) as Hnl.
  pose proof (exists_of_read _ _ _ Hrd) as Hex.
  destruct (apply_patch_raw_outcome m project_root filename new_content w)
    as (s & w' & Hrun & Hout).
  exists w'. rewrite Hrun. inversion Hout; subst; try congruence.
  split; [done|congruence].
Qed.

(** C10.  Whatever a call of the mutator answers, the working directory
    and every location other than the one its path resolves to are as
    before, and that location keeps its kind: a regular file stays a
    regular file, a directory a directory, a missing node missing.  This
    holds for both copies. *)
Theorem apply_touches_only_target m project_root filename new_content w :
  frame_of (target_path project_root filename) (w_fs w)
    (w_fs (apply_patch_raw m project_root filename new_content w).2).
Proof.
  destruct (apply_patch_raw_outcome m project_root filename new_content w)
    as (s & w' & Hrun & Hout).
  rewrite Hrun. simpl. by eapply apply_outcome_frame.
Qed.

(** ** Making directories *)

Lemma extends_refl f : extends f f.
Proof. by split. Qed.

Lemma extends_trans f f1 f2 : extends f f1 → extends f1 f2 → extends f f2.
Proof. intros [Hc H] [Hc1 H1]. split; [congruence|eauto]. Qed.

Lemma mkdir_in_extends p f r f1 : mkdir_in p f = (r, f1) → extends f f1.
Proof.
  unfold mkdir_in. intros H.
  destruct (resolve f p) as [e|l]; [simplify_eq; apply extends_refl|].
  destruct (stat_loc f l) eqn:E; [simplify_eq; apply extends_refl|].
  destruct (put_loc f l (Dir [])) as [f2|] eqn:Ep;
    [|simplify_eq; apply extends_refl].
  simplify_eq. split; [by eapply put_loc_cwd|].
  intros q k Hq. rewrite <- Hq.
  eapply put_loc_stat_other; [exact Ep|congruence|done|congruence].
Qed.

Lemma mkdir_in_Exception p f e f1 :
  mkdir_in p f = (Raise e, f1) → is_Exception e = true.
Proof.
  unfold mkdir_in, resolve. destruct (namei _ _ _ _) eqn:E.
  { intros; simplify_eq. by eapply namei_Exception. }
  repeat case_match; intros; by simplify_eq.
Qed.

Lemma exist_ok_guard_spec p e f r f1 :
  exist_ok_guard p e f = (r, f1) →
  f1 = f ∧ (r = Ret tt ∧ is_dir_in p f = true ∨ r = Raise e).
Proof.
  unfold exist_ok_guard. destruct (is_dir_in p f); intros; simplify_eq; eauto.
Qed.

Lemma mkdir_flat_spec p f r f1 :
  mkdir_flat p f = (r, f1) →
  extends f f1 ∧ (∀ e, r = Raise e → is_Exception e = true).
Proof.
  unfold mkdir_flat, try_except_if, raise. intros H.
  destruct (mkdir_in p f) as [[[]|e] f2] eqn:E.
  - simplify_eq. split; [by eapply mkdir_in_extends|done].
  - pose proof (mkdir_in_extends _ _ _ _ E) as Hx.
    pose proof (mkdir_in_Exception _ _ _ _ E) as He.
    destruct (is_OSError e); [|simplify_eq; split; [done|congruence]].
    destruct (is_FileNotFoundError e);
      [simplify_eq; split; [done|congruence]|].
    apply exist_ok_guard_spec in H as [-> [[-> _]| ->]];
      (split; [done|congruence]).
Qed.

Lemma mkdir_rec_spec a rparts f r f1 :
  mkdir_rec a rparts f = (r, f1) →
  extends f f1 ∧ (∀ e, r = Raise e → is_Exception e = true).
Proof.
  revert f r f1. induction rparts as [|c rparent IH]; intros f r f1 H;
    simpl in H; unfold try_except_if, raise in H.
  - destruct (mkdir_in _ f) as [[[]|e] f2] eqn:E.
    + simplify_eq. split; [by eapply mkdir_in_extends|done].
    + pose proof (mkdir_in_extends _ _ _ _ E) as Hx.
      pose proof (mkdir_in_Exception _ _ _ _ E) as He.
      destruct (is_OSError e); [|simplify_eq; split; [done|congruence]].
      destruct (is_FileNotFoundError e);
        [simplify_eq; split; [done|congruence]|].
      apply exist_ok_guard_spec in H as [-> [[-> _]| ->]];
        (split; [done|congruence]).
  - destruct (mkdir_in _ f) as [[[]|e] f2] eqn:E.
    + simplify_eq. split; [by eapply mkdir_in_extends|done].
    + pose proof (mkdir_in_extends _ _ _ _ E) as Hx.
      pose proof (mkdir_in_Exception _ _ _ _ E) as He.
      destruct (is_OSError e); [|simplify_eq; split; [done|congruence]].
      destruct (is_FileNotFoundError e).
      * unfold mbind, ST_bind in H.
        destruct (mkdir_rec a rparent f2) as [[[]|e2] f3] eqn:E2.
        -- destruct (IH _ _ _ E2) as [Hx2 _].
           destruct (mkdir_flat_spec _ _ _ _ H) as [Hx3 He3].
           split; [|done]. eauto using extends_trans.
        -- destruct (IH _ _ _ E2) as [Hx2 He2]. simplify_eq.
           split; [eauto using extends_trans|].
           intros e' ?; simplify_eq. eauto.
      * apply exist_ok_guard_spec in H as [-> [[-> _]| ->]];
          (split; [done|congruence]).
Qed.

(** A path that is a directory already needs nothing made. *)
Lemma mkdir_rec_existing a rparts f :
  is_dir_in (MkPath a (rev rparts)) f = true →
  mkdir_rec a rparts f = (Ret tt, f).
Proof.
  intros Hd.
  assert (mkdir_in (MkPath a (rev rparts)) f
          = (Raise (FileExistsError (Path_str (MkPath a (rev rparts)))), f))
    as Hmk.
  { unfold is_dir_in, os_stat in Hd. unfold mkdir_in.
    destruct (resolve f _) as [e|l]; [done|].
    by destruct (stat_loc f l). }
  destruct rparts; simpl; unfold try_except_if; simpl in Hmk; rewrite Hmk;
    simpl; unfold exist_ok_guard; simpl in Hd; by rewrite Hd.
Qed.

(** ** Resolution goes through directories *)

Lemma stat_removelast f l :
  stat_loc f l = Some KDir → stat_loc f (removelast l) = Some KDir.
Proof.
  intros Hd. destruct l as [|c l] using rev_ind; [done|].
  rewrite removelast_last. by eapply stat_parent.
Qed.

Lemma namei_shown f shown shown' cur comps l :
  namei f shown cur comps = inr l → namei f shown' cur comps = inr l.
Proof.
  revert cur. induction comps as [|c rest IH]; intros cur H; simpl in *;
    [done|].
  destruct (decide (c = DOTDOT)); [by apply IH|].
  destruct rest as [|c' rest]; [done|].
  destruct (stat_loc f (cur ++ [c])) as [[|]|]; try done. by apply IH.
Qed.

Lemma namei_step f shown cur c y rest :
  c ≠ DOTDOT →
  namei f shown cur (c :: y :: rest)
  = match stat_loc f (cur ++ [c]) with
    | Some KDir => namei f shown (cur ++ [c]) (y :: rest)
    | Some (KFile _) => inl (NotADirectoryError shown)
    | None => inl (FileNotFoundError shown)
    end.
Proof. intros Hc. simpl. by rewrite decide_False. Qed.

Lemma namei_prefix_dirs f shown cur pre c post l :
  stat_loc f cur = Some KDir →
  namei f shown cur (pre ++ c :: post) = inr l →
  ∃ l0, namei f shown cur pre = inr l0 ∧ stat_loc f l0 = Some KDir.
Proof.
  revert cur. induction pre as [|x pre IH]; intros cur Hc H; [eauto|].
  destruct (decide (x = DOTDOT)) as [Hx|Hx].
  { simpl in *. rewrite decide_True in * by done.
    apply IH; [|done]. by eapply stat_removelast. }
  assert (∃ y rest, pre ++ c :: post = y :: rest) as (y & rest & E).
  { destruct pre; simpl; eauto. }
  rewrite <- app_comm_cons, E, namei_step in H by done.
  destruct (stat_loc f (cur ++ [x])) as [[|]|] eqn:Ex; try done.
  rewrite <- E in H. destruct (IH _ Ex H) as (l0 & Hl0 & Hd).
  destruct pre as [|y' pre'].
  - simpl in Hl0. simplify_eq. exists (cur ++ [x]). simpl.
    by rewrite decide_False.
  - exists l0. rewrite namei_step, Ex by done. done.
Qed.

Lemma resolve_ancestor f p k l :
  wf_fs f → resolve f p = inr l → (k < length (parts p))%nat →
  is_dir_in (MkPath (anchor p) (take k (parts p))) f = true.
Proof.
  unfold resolve, base_of, wf_fs. intros Hwf Hr Hk.
  rewrite <- (take_drop k (parts p)) in Hr.
  destruct (drop k (parts p)) as [|c post] eqn:Ed.
  { apply (f_equal length) in Ed. rewrite length_drop in Ed. simpl in Ed. lia. }
  set (cur := match anchor p with [] => fs_cwd f | _ => [] end) in *.
  assert (stat_loc f cur = Some KDir) as Hcur.
  { unfold cur. by destruct (anchor p). }
  destruct (namei_prefix_dirs _ _ _ _ _ _ _ Hcur Hr) as (l0 & Hl0 & Hd).
  unfold is_dir_in, os_stat, resolve, base_of. simpl. fold cur.
  rewrite (namei_shown _ _ (Path_str (MkPath (anchor p) (take k (parts p))))
             _ _ _ Hl0).
  by rewrite Hd.
Qed.

(** Where a path resolves, all the directories it goes through are
    there. *)
Lemma resolve_ancestors f p l :
  wf_fs f → resolve f p = inr l →
  Forall (λ q, is_dir_in q f = true) (ancestors p).
Proof.
  intros Hwf Hr. unfold ancestors. apply Forall_fmap, Forall_forall.
  intros k Hk%elem_of_seq. simpl. eapply resolve_ancestor; eauto. lia.
Qed.

Lemma parent_is_dir f p l bs :
  wf_fs f → resolve f p = inr l → stat_loc f l = Some (KFile bs) →
  is_dir_in (Path_parent p) f = true.
Proof.
  intros Hwf Hr Hl. unfold Path_parent.
  destruct (parts p) as [|c ps] eqn:Ep using rev_ind.
  - unfold resolve, base_of in Hr. rewrite Ep in Hr. simpl in Hr. simplify_eq.
    unfold wf_fs in Hwf. destruct (anchor p); [congruence|].
    unfold stat_loc in Hl. simpl in Hl. congruence.
  - rewrite removelast_last.
    pose proof (resolve_ancestor f p (length ps) l Hwf Hr) as H.
    rewrite Ep, take_app_length in H. apply H.
    rewrite length_app. simpl. lia.
Qed.

Lemma extends_wf f f1 : extends f f1 → wf_fs f → wf_fs f1.
Proof. unfold wf_fs. intros [-> H] Hwf. by apply H. Qed.

Lemma write_text_in_wf p s f r f1 :
  write_text_in p s f = (r, f1) → wf_fs f → wf_fs f1.
Proof.
  intros [->|(l & bs & Hr & Hl & Hp)]%write_text_in_effect Hwf; [done|].
  unfold wf_fs. rewrite (put_loc_cwd _ _ _ _ Hp).
  by eapply put_file_keeps_dirs.
Qed.

(** ** The creator *)

(** Every call of the creator returns, in one of the ways of
    [create_outcome]. *)
Lemma create_new_file_raw_outcome m project_root path content w :
  ∃ s w',
    create_new_file_raw m project_root path content w = (Ret s, w') ∧
    create_outcome (target_path project_root path) path content
      (w_fs w) s (w_fs w').
Proof.
  destruct w as [f t].
  destruct m; unfold create_new_file_raw,
    SimplePatchTools.create_new_file_raw, PatchTools.create_new_file_raw;
    set (p := target_path project_root path); run_M.
  all: change (anchor (Path_parent p)) with (anchor p).
  all: destruct (mkdir_rec (anchor p) (rev (parts (Path_parent p))) f)
         as [[[]|e] f1] eqn:Hmk; simpl;
    [|rewrite (proj2 (mkdir_rec_spec _ _ _ _ _ Hmk) e eq_refl); answer;
      by eapply co_mkdir_error].
  all: destruct (write_text_in p content f1) as [[[]|e] f2] eqn:Hwr; simpl;
    [|rewrite (write_text_in_Exception _ _ _ _ _ Hwr); answer;
      by eapply co_write_error].
  all: pose proof (read_after_write _ _ _ _ Hwr) as Hrd.
  all: rewrite (exists_of_read _ _ _ Hrd), Hrd; simpl.
  all: destruct (bool_decide_reflect (universal_newlines content = content))
         as [Heq|Hneq]; simpl; answer.
  all: first [ by eapply co_verification_failed
             | eapply co_created; eauto; congruence ].
Qed.

Lemma created_not_create_error path e : msg_created path ≠ msg_create_error e.
Proof. msg_neq. Qed.
Lemma created_not_verification_failed path path' :
  msg_created path ≠ msg_creation_verification_failed path'.
Proof. msg_neq. Qed.

Lemma write_text_in_over_file p s f l old bs :
  resolve f p = inr l → stat_loc f l = Some (KFile old) →
  utf8_encode s = Some bs →
  ∃ f1, write_text_in p s f = (Ret tt, f1).
Proof.
  intros Hr Hl He. unfold write_text_in. rewrite Hr, Hl, He.
  destruct l as [|c l _] using rev_ind; [done|].
  pose proof (stat_parent _ _ _ _ Hl) as Hd.
  destruct (put_loc_under_dir f l c (File []) Hd) as [f0 ->].
  destruct (put_loc_under_dir f l c (File bs) Hd) as [f1 ->]. eauto.
Qed.

(** ** Making the directories of a path without double dots *)

Lemma namei_plain_inr f shown cur comps l :
  DOTDOT ∉ comps → namei f shown cur comps = inr l → l = cur ++ comps.
Proof.
  revert cur. induction comps as [|c rest IH]; intros cur Hdd H; simpl in H.
  - simplify_eq. by rewrite app_nil_r.
  - apply not_elem_of_cons in Hdd as [Hc Hrest].
    rewrite decide_False in H by done.
    destruct rest as [|c' rest]; [by simplify_eq|].
    destruct (stat_loc f (cur ++ [c])) as [[|]|]; try done.
    rewrite (IH _ Hrest H). by rewrite <- app_assoc.
Qed.

Lemma namei_plain_ok f shown cur comps :
  DOTDOT ∉ comps →
  (∀ k, (0 < k < length comps)%nat →
        stat_loc f (cur ++ take k comps) = Some KDir) →
  namei f shown cur comps = inr (cur ++ comps).
Proof.
  revert cur. induction comps as [|c rest IH]; intros cur Hdd Hd; simpl.
  - by rewrite app_nil_r.
  - apply not_elem_of_cons in Hdd as [Hc Hrest].
    rewrite decide_False by done.
    destruct rest as [|c' rest]; [done|].
    pose proof (Hd 1%nat ltac:(simpl; lia)) as H1. simpl in H1. rewrite H1.
    rewrite IH; [by rewrite <- app_assoc|done|].
    intros k Hk. rewrite <- app_assoc. apply (Hd (S k)). simpl in *. lia.
Qed.

Lemma namei_plain_err f shown cur comps e :
  DOTDOT ∉ comps →
  (∀ k d, (k < length comps)%nat →
          stat_loc f (cur ++ take k comps) ≠ Some (KFile d)) →
  namei f shown cur comps = inl e → e = FileNotFoundError shown.
Proof.
  revert cur. induction comps as [|c rest IH]; intros cur Hdd Hnf H;
    simpl in H; [done|].
  apply not_elem_of_cons in Hdd as [Hc Hrest].
  rewrite decide_False in H by done.
  destruct rest as [|c' rest]; [done|].
  destruct (stat_loc f (cur ++ [c])) as [[d|]|] eqn:E.
  - exfalso. by apply (Hnf 1%nat d ltac:(simpl; lia)).
  - apply (IH (cur ++ [c])); [done| |done].
    intros k d Hk. rewrite <- app_assoc. apply (Hnf (S k)). simpl in *. lia.
  - by simplify_eq.
Qed.

Lemma stat_prefix_dir f l l' :
  l' ≠ [] → is_Some (stat_loc f (l ++ l')) → stat_loc f l = Some KDir.
Proof.
  induction l' as [|c l' IH] using rev_ind; intros Hne [k Hk]; [done|].
  rewrite app_assoc in Hk. apply stat_parent in Hk.
  destruct l' as [|c0 l']; [by rewrite app_nil_r in Hk|].
  apply IH; [done|]. by rewrite Hk.
Qed.

(** The one node [os.mkdir] can add. *)
Lemma mkdir_in_plain_frame a ps f r f1 q :
  DOTDOT ∉ ps → mkdir_in (MkPath a ps) f = (r, f1) →
  stat_loc f1 q = stat_loc f q ∨
  stat_loc f q = None ∧ stat_loc f1 q = Some KDir ∧ q = base_of a f ++ ps.
Proof.
  intros Hdd. unfold mkdir_in, resolve. simpl.
  destruct (namei _ _ _ _) as [e|l] eqn:En; [intros; simplify_eq; by left|].
  apply namei_plain_inr in En as ->; [|done].
  destruct (stat_loc f (base_of a f ++ ps)) eqn:El;
    [intros; simplify_eq; by left|].
  destruct (put_loc _ _ _) as [f2|] eqn:Ep; [|intros; simplify_eq; by left].
  intros; simplify_eq. destruct (decide (q = base_of a f ++ ps)) as [->|Hne].
  - right. split_and!; [done| |done]. by rewrite (put_loc_stat_same _ _ _ _ Ep).
  - left. eapply put_loc_stat_other; [exact Ep|congruence|done|done].
Qed.

Lemma stat_take_dir f l ps k :
  stat_loc f (l ++ ps) = Some KDir → stat_loc f (l ++ take k ps) = Some KDir.
Proof.
  intros H. rewrite <- (take_drop k ps) in H.
  destruct (drop k ps) as [|c r] eqn:E.
  - by rewrite app_nil_r in H.
  - rewrite app_assoc in H. eapply stat_prefix_dir; [|by rewrite H]. done.
Qed.

Lemma resolve_plain a ps c f :
  DOTDOT ∉ ps ++ [c] →
  stat_loc f (base_of a f ++ ps) = Some KDir →
  resolve f (MkPath a (ps ++ [c])) = inr (base_of a f ++ ps ++ [c]).
Proof.
  intros Hdd Hd. unfold resolve. simpl. apply namei_plain_ok; [done|].
  intros k Hk. rewrite length_app in Hk. simpl in Hk.
  rewrite take_app_le by lia. by apply stat_take_dir.
Qed.

(** With the parent there and no regular file in the way, [os.mkdir]
    makes the directory or finds it made. *)
Lemma mkdir_in_plain_step a ps c f :
  DOTDOT ∉ ps ++ [c] →
  stat_loc f (base_of a f ++ ps) = Some KDir →
  (∀ d, stat_loc f (base_of a f ++ ps ++ [c]) ≠ Some (KFile d)) →
  (∃ f1, mkdir_in (MkPath a (ps ++ [c])) f = (Ret tt, f1) ∧
         stat_loc f1 (base_of a f ++ ps ++ [c]) = Some KDir) ∨
  (mkdir_in (MkPath a (ps ++ [c])) f
     = (Raise (FileExistsError (Path_str (MkPath a (ps ++ [c])))), f) ∧
   is_dir_in (MkPath a (ps ++ [c])) f = true ∧
   stat_loc f (base_of a f ++ ps ++ [c]) = Some KDir).
Proof.
  intros Hdd Hd Hnf. unfold mkdir_in, is_dir_in, os_stat.
  rewrite (resolve_plain _ _ _ _ Hdd Hd).
  destruct (stat_loc f (base_of a f ++ ps ++ [c])) as [[d|]|] eqn:E.
  - by destruct (Hnf d).
  - by right.
  - left.
    destruct (put_loc_under_dir f (base_of a f ++ ps) c (Dir []) Hd)
      as [f1 Hp].
    rewrite <- app_assoc in Hp. rewrite Hp. exists f1. split; [done|].
    by rewrite (put_loc_stat_same _ _ _ _ Hp).
Qed.

Lemma made_under_refl target f : made_under target f f.
Proof. intros q. by left. Qed.

Lemma made_under_trans t1 t2 f f1 f2 :
  t1 `prefix_of` t2 → made_under t1 f f1 → made_under t2 f1 f2 →
  made_under t2 f f2.
Proof.
  intros Hp H1 H2 q. destruct (H2 q) as [E2|(N2 & D2 & P2)];
    destruct (H1 q) as [E1|(N1 & D1 & P1)].
  - left. congruence.
  - right. split_and!; [done|congruence|by etrans].
  - right. split_and!; [congruence|done|done].
  - congruence.
Qed.

Lemma mkdir_step_made a ps c f r f1 :
  DOTDOT ∉ ps ++ [c] → mkdir_in (MkPath a (ps ++ [c])) f = (r, f1) →
  made_under (base_of a f ++ ps ++ [c]) f f1.
Proof.
  intros Hdd H q.
  destruct (mkdir_in_plain_frame _ _ _ _ _ q Hdd H) as [?|(? & ? & ->)];
    [by left|by right].
Qed.

(** One directory made below a parent that is there. *)
Lemma mkdir_flat_plain a ps c f :
  DOTDOT ∉ ps ++ [c] →
  stat_loc f (base_of a f ++ ps) = Some KDir →
  (∀ d, stat_loc f (base_of a f ++ ps ++ [c]) ≠ Some (KFile d)) →
  ∃ f1, mkdir_flat (MkPath a (ps ++ [c])) f = (Ret tt, f1) ∧
        extends f f1 ∧
        stat_loc f1 (base_of a f ++ ps ++ [c]) = Some KDir ∧
        made_under (base_of a f ++ ps ++ [c]) f f1.
Proof.
  intros Hdd Hd Hnf. unfold mkdir_flat, try_except_if.
  destruct (mkdir_in_plain_step _ _ _ _ Hdd Hd Hnf)
    as [(f1 & E & Hs)|(E & Hid & Hs)]; rewrite E; simpl.
  - exists f1. split_and!; [done|by eapply mkdir_in_extends|done|].
    by eapply mkdir_step_made.
  - unfold exist_ok_guard. rewrite Hid. exists f.
    split_and!; [done|apply extends_refl|done|apply made_under_refl].
Qed.

Lemma base_of_extends a f f1 : extends f f1 → base_of a f1 = base_of a f.
Proof. intros [Hc _]. unfold base_of. by rewrite Hc. Qed.

(** With no double dot in the path and no regular file in the way,
    [mkdir(parents=True, exist_ok=True)] makes every directory that is
    missing, and nothing else. *)
Lemma mkdir_rec_plain a rps f :
  DOTDOT ∉ rps →
  stat_loc f (base_of a f) = Some KDir →
  (∀ k d, stat_loc f (base_of a f ++ take k (rev rps)) ≠ Some (KFile d)) →
  ∃ f1, mkdir_rec a rps f = (Ret tt, f1) ∧
        extends f f1 ∧
        stat_loc f1 (base_of a f ++ rev rps) = Some KDir ∧
        made_under (base_of a f ++ rev rps) f f1.
Proof.
  revert f. induction rps as [|c rps IH]; intros f Hdd Hbase Hnf.
  - exists f. simpl. rewrite app_nil_r.
    split_and!; [|apply extends_refl|done|apply made_under_refl].
    unfold try_except_if, mkdir_in, exist_ok_guard, is_dir_in, os_stat,
      resolve. simpl. rewrite Hbase. simpl. by rewrite Hbase.
  - apply not_elem_of_cons in Hdd as [Hc Hdd].
    assert (DOTDOT ∉ rev rps ++ [c]) as Hdd'.
    { rewrite elem_of_app, list_elem_of_singleton.
      intros [H%list_elem_of_In%in_rev%list_elem_of_In|H]; [by apply Hdd|].
      by apply Hc. }
    cbn [mkdir_rec rev]. set (ps := rev rps) in *.
    assert (∀ d, stat_loc f (base_of a f ++ ps ++ [c]) ≠ Some (KFile d))
      as Hnf_target.
    { intros d. specialize (Hnf (length (ps ++ [c])) d).
      cbn [rev] in Hnf. fold ps in Hnf. by rewrite take_ge in Hnf. }
    assert (∀ k d, stat_loc f (base_of a f ++ take k ps) ≠ Some (KFile d))
      as Hnf_parent.
    { intros k d. specialize (Hnf (k `min` length ps)%nat d).
      cbn [rev] in Hnf. fold ps in Hnf.
      rewrite take_app_le in Hnf by lia.
      destruct (decide (k ≤ length ps)%nat).
      - by rewrite Nat.min_l in Hnf.
      - rewrite Nat.min_r, take_ge in Hnf by lia. by rewrite take_ge by lia. }
    destruct (stat_loc f (base_of a f ++ ps)) as [[d|]|] eqn:Eparent.
    + exfalso. apply (Hnf_parent (length ps) d). by rewrite take_ge.
    + unfold try_except_if.
      destruct (mkdir_in_plain_step _ _ _ _ Hdd' Eparent Hnf_target)
        as [(f1 & E & Hs)|(E & Hid & Hs)]; rewrite E; simpl.
      * exists f1. split_and!; [done|by eapply mkdir_in_extends|done|].
        by eapply mkdir_step_made.
      * unfold exist_ok_guard. rewrite Hid. exists f.
        split_and!; [done|apply extends_refl|done|apply made_under_refl].
    + assert (mkdir_in (MkPath a (ps ++ [c])) f
              = (Raise (FileNotFoundError (Path_str (MkPath a (ps ++ [c])))),
                 f)) as E.
      { unfold mkdir_in, resolve. simpl.
        destruct (namei f _ (base_of a f) (ps ++ [c])) as [e|l] eqn:En.
        - erewrite (namei_plain_err _ _ _ _ e Hdd' _ En). done.
        - exfalso.
          destruct (namei_prefix_dirs _ _ _ ps c [] l Hbase En)
            as (l0 & Hl0 & Hd0).
          apply namei_plain_inr in Hl0 as ->; [congruence|].
          intros ?. apply Hdd'. apply elem_of_app. by left. }
      unfold try_except_if. rewrite E. simpl.
      destruct (IH f Hdd Hbase Hnf_parent) as (f1 & E1 & Hx1 & Hs1 & Hm1).
      fold ps in Hs1, Hm1. unfold mbind, ST_bind. rewrite E1.
      pose proof (base_of_extends a _ _ Hx1) as Hb.
      destruct (mkdir_flat_plain a ps c f1 Hdd') as (f2 & E2 & Hx2 & Hs2 & Hm2).
      * by rewrite Hb.
      * intros d. rewrite Hb. destruct (Hm1 (base_of a f ++ ps ++ [c]))
          as [Hsame|(_ & Hnew & _)]; [|congruence].
        rewrite Hsame. destruct (stat_loc f (base_of a f ++ ps ++ [c]))
          as [k|] eqn:Et; [|done].
        rewrite app_assoc in Et. apply stat_parent in Et. congruence.
      * rewrite Hb in Hs2, Hm2. exists f2.
        split_and!; [done|by eapply extends_trans|done|].
        eapply made_under_trans; [|exact Hm1|exact Hm2].
        by apply prefix_app, prefix_app_r.
  Unshelve.
  intros k d Hk. apply Hnf.
Qed.

Lemma write_text_in_under_dir p s f l c bs :
  resolve f p = inr (l ++ [c]) → stat_loc f l = Some KDir →
  stat_loc f (l ++ [c]) ≠ Some KDir → utf8_encode s = Some bs →
  ∃ f1, write_text_in p s f = (Ret tt, f1).
Proof.
  intros Hr Hd Hl He. unfold write_text_in. rewrite Hr, He.
  destruct (put_loc_under_dir f l c (File []) Hd) as [f0 ->].
  destruct (put_loc_under_dir f l c (File bs) Hd) as [f1 ->].
  destruct (stat_loc f (l ++ [c])) as [[|]|]; [eauto|done|eauto].
Qed.

Lemma stat_base_dir a f : wf_fs f → stat_loc f (base_of a f) = Some KDir.
Proof. intros Hwf. by destruct a. Qed.

(** With no double dot in the path, no regular file in the way and no
    directory at the path itself, the creator succeeds for content that
    can be encoded and has no carriage return: the missing directories are
    made and the file is written. *)
Lemma create_makes_parents m project_root path content w :
  wf_fs (w_fs w) →
  DOTDOT ∉ parts (target_path project_root path) →
  parts (target_path project_root path) ≠ [] →
  (∀ k d, (k < length (parts (target_path project_root path)))%nat →
     stat_loc (w_fs w)
       (base_of (anchor (target_path project_root path)) (w_fs w)
        ++ take k (parts (target_path project_root path)))
     ≠ Some (KFile d)) →
  stat_loc (w_fs w)
    (base_of (anchor (target_path project_root path)) (w_fs w)
     ++ parts (target_path project_root path)) ≠ Some KDir →
  is_Some (utf8_encode content) → CR ∉ content →
  ∃ w',
    create_new_file_raw m project_root path content w
      = (Ret (msg_created path), w').
Proof.
  set (p := target_path project_root path). set (f := w_fs w).
  intros Hwf Hdd Hne Hnf Htarget [bs Hbs] Hcr.
  destruct (create_new_file_raw_outcome m project_root path content w)
    as (s & w2 & Hrun & Hout).
  fold p f in Hout. exists w2. rewrite Hrun.
  assert (∃ ps c, parts p = ps ++ [c]) as (ps & c & Ep).
  { destruct (parts p) as [|c ps _] using rev_ind; [done|eauto]. }
  clear Hne. rewrite Ep in Hdd, Hnf, Htarget.
  assert (parts (Path_parent p) = ps) as Hpp.
  { unfold Path_parent. simpl. by rewrite Ep, removelast_last. }
  assert (DOTDOT ∉ rev ps) as Hdd1.
  { intros H%list_elem_of_In%in_rev%list_elem_of_In. apply Hdd.
    apply elem_of_app. by left. }
  destruct (mkdir_rec_plain (anchor p) (rev ps) f Hdd1)
    as (f1 & Emk & Hx & Hs1 & Hm1).
  { by apply stat_base_dir. }
  { intros k d. rewrite rev_involutive.
    specialize (Hnf (k `min` length ps)%nat d).
    rewrite take_app_le, length_app in Hnf by lia. simpl in Hnf.
    destruct (decide (k ≤ length ps)%nat).
    - rewrite Nat.min_l in Hnf by lia. apply Hnf. lia.
    - rewrite Nat.min_r, take_ge in Hnf by lia. rewrite take_ge by lia.
      apply Hnf. lia. }
  rewrite rev_involutive in Hs1, Hm1.
  pose proof (base_of_extends (anchor p) _ _ Hx) as Hb.
  assert (resolve f1 p = inr ((base_of (anchor p) f ++ ps) ++ [c])) as Hr.
  { replace p with (MkPath (anchor p) (ps ++ [c]))
      by (destruct p; simpl in *; congruence).
    simpl. rewrite resolve_plain, Hb, <- ?app_assoc; [done|done|].
    by rewrite Hb. }
  assert (stat_loc f1 ((base_of (anchor p) f ++ ps) ++ [c]) ≠ Some KDir) as Ht.
  { destruct (Hm1 ((base_of (anchor p) f ++ ps) ++ [c]))
      as [->|(_ & _ & Hpre)]; [by rewrite <- app_assoc|].
    apply prefix_length in Hpre. rewrite !length_app in Hpre. simpl in Hpre.
    lia. }
  destruct (write_text_in_under_dir p content f1 _ c bs Hr Hs1 Ht Hbs)
    as [f2 Hwr].
  pose proof (read_after_write _ _ _ _ Hwr) as Hrd.
  rewrite universal_newlines_id in Hrd by done.
  inversion Hout; subst; congruence.
Qed.

(** C6.  In a filesystem whose working directory is a directory: when a
    call of the creator answers the success outcome, reading the path
    afterwards gives exactly the content, the file holds its encoding and
    every directory the path goes through is there.  The call does answer
    the success outcome, for arguments the console and the host take and
    content that can be encoded and has no carriage return, when the path
    has no double dot, no regular file is in the way of its directories
    and no directory sits at the path: the missing directories are made.
    And a regular file already at the path is no obstacle: it is
    overwritten.  This holds for both copies. *)
Theorem create_writes_content m project_root path content w :
  wf_fs (w_fs w) →
  (∀ w',
     create_new_file_raw m project_root path content w
       = (Ret (msg_created path), w') →
     read_text_in (target_path project_root path) (w_fs w') = Ret content ∧
     (∃ l bs,
        resolve (w_fs w') (target_path project_root path) = inr l ∧
        stat_loc (w_fs w') l = Some (KFile bs) ∧
        utf8_encode content = Some bs) ∧
     Forall (λ q, is_dir_in q (w_fs w') = true)
       (ancestors (target_path project_root path))) ∧
  (host_target project_root path = true →
   DOTDOT ∉ parts (target_path project_root path) →
   parts (target_path project_root path) ≠ [] →
   (∀ k d, (k < length (parts (target_path project_root path)))%nat →
      stat_loc (w_fs w)
        (base_of (anchor (target_path project_root path)) (w_fs w)
         ++ take k (parts (target_path project_root path)))
      ≠ Some (KFile d)) →
   stat_loc (w_fs w)
     (base_of (anchor (target_path project_root path)) (w_fs w)
      ++ parts (target_path project_root path)) ≠ Some KDir →
   is_Some (utf8_encode content) → CR ∉ content →
   ∃ w',
     create_new_file_raw m project_root path content w
       = (Ret (msg_created path), w')) ∧
  (host_target project_root path = true →
   is_file_in (target_path project_root path) (w_fs w) = true →
   is_Some (utf8_encode content) → CR ∉ content →
   ∃ w',
     create_new_file_raw m project_root path content w
       = (Ret (msg_created path), w')).
Proof.
  intros Hwf.
  destruct (create_new_file_raw_outcome m project_root path content w)
    as (s & w2 & Hrun & Hout).
  set (p := target_path project_root path) in *. split_and!.
  - intros w' Hrun'. rewrite Hrun in Hrun'. simplify_eq.
    inversion Hout as [e f1 Hmk He|e f1 f2 Hmk Hwr He|f1 f2 Hmk Hwr Hrd Hne He
                      |f1 f2 Hmk Hwr Hrd He]; subst;
      try (exfalso; symmetry in He; revert He;
           first [apply created_not_create_error
                 |apply created_not_verification_failed]).
    destruct (write_text_in_result _ _ _ _ Hwr) as (l & bs & Hr & Hl & Hb).
    split_and!; [done|eauto|].
    apply (resolve_ancestors _ _ l); [|done].
    eapply write_text_in_wf; [exact Hwr|].
    eapply extends_wf; [|exact Hwf].
    by destruct (mkdir_rec_spec _ _ _ _ _ Hmk).
  - intros _. by apply create_makes_parents.
  - intros _ Hfile [bs Hbs] Hcr. exists w2. rewrite Hrun.
    unfold is_file_in in Hfile.
    destruct (os_stat p (w_fs w)) as [[old|]|] eqn:Hst; try done.
    apply os_stat_Ret in Hst as (l & Hr & Hl).
    pose proof (parent_is_dir _ _ _ _ Hwf Hr Hl) as Hpd.
    pose proof (mkdir_rec_existing (anchor p) (rev (parts (Path_parent p)))
                  (w_fs w)) as Hmk.
    rewrite rev_involutive in Hmk. specialize (Hmk Hpd).
    destruct (write_text_in_over_file _ _ _ _ _ _ Hr Hl Hbs) as [f1 Hwr].
    pose proof (read_after_write _ _ _ _ Hwr) as Hrd.
    rewrite universal_newlines_id in Hrd by done.
    inversion Hout; subst; congruence.
Qed.

(** In the example project: a file two directories down that are not
    there yet, and a file in the place of the page. *)
Lemma create_writes_content_witness :
  (∃ w',
     create_new_file_raw patch_tools (lit "/proj") (lit "a/b/c.txt")
       (lit "X") example_world
       = (Ret (msg_created (lit "a/b/c.txt")), w') ∧
     read_text_in (target_path (lit "/proj") (lit "a/b/c.txt")) (w_fs w')
       = Ret (lit "X") ∧
     Forall (λ q, is_dir_in q (w_fs w') = true)
       [MkPath [SEP] []; MkPath [SEP] [lit "proj"];
        MkPath [SEP] [lit "proj"; lit "a"];
        MkPath [SEP] [lit "proj"; lit "a"; lit "b"]]) ∧
  is_dir_in (MkPath [SEP] [lit "proj"; lit "a"]) example_fs = false ∧
  ∃ w',
    create_new_file_raw patch_tools (lit "/proj") (lit "index.html")
      (lit "X") example_world
      = (Ret (msg_created (lit "index.html")), w').
Proof.
  assert (wf_fs (w_fs example_world)) as Hwf by (vm_compute; reflexivity).
  assert (CR ∉ lit "X") as Hcr.
  { apply (bool_decide_unpack _). vm_compute. exact I. }
  destruct (create_writes_content patch_tools (lit "/proj") (lit "a/b/c.txt")
              (lit "X") example_world Hwf) as (Hback & Hmake & _).
  destruct (create_writes_content patch_tools (lit "/proj") (lit "index.html")
              (lit "X") example_world Hwf) as (_ & _ & Hover).
  split_and!.
  - destruct Hmake as [w' Hrun].
    + vm_compute. reflexivity.
    + apply (bool_decide_unpack _). vm_compute. exact I.
    + vm_compute. discriminate.
    + intros k d Hk. change (length _) with 4%nat in Hk.
      destruct k as [|[|[|[|k]]]]; [vm_compute; discriminate..|lia].
    + vm_compute. discriminate.
    + vm_compute. eauto.
    + exact Hcr.
    + exists w'. destruct (Hback w' Hrun) as (Hrd & _ & Hanc).
      split_and!; [exact Hrun|exact Hrd|exact Hanc].
  - vm_compute. reflexivity.
  - apply Hover;
      [vm_compute; reflexivity|vm_compute; reflexivity|vm_compute; eauto
      |exact Hcr].
Defined.

(** ** The walk *)

(** Induction on the tree: a directory is reached with the property known
    for every node it lists. *)
Lemma node_tree_ind (P : node → Prop) :
  (∀ d, P (File d)) →
  (∀ es, Forall (λ e, P e.2) es → P (Dir es)) →
  ∀ n, P n.
Proof.
  intros HFile HDir. fix IH 1. intros [d|es]; [apply HFile|].
  apply HDir. induction es as [|[nm ch] es IHes]; constructor; [apply IH|done].
Qed.

Lemma assoc_Forall (P : node → Prop) c es ch :
  Forall (λ e, P e.2) es → assoc c es = Some ch → P ch.
Proof.
  induction 1 as [|[nm x] es Hx _ IH]; simpl; [done|].
  destruct (decide (nm = c)); intros; simplify_eq; eauto.
Qed.

Lemma lookup_node_app n l l' :
  lookup_node n (l ++ l') = lookup_node n l ≫= λ n', lookup_node n' l'.
Proof.
  revert n. induction l as [|c l IH]; intros n; simpl; [done|].
  destruct n as [|es]; [done|]. destruct (assoc c es); simpl; [apply IH|done].
Qed.

Section Walk.

Context {St : Type}.
Variable body : list str → list str → list str → St → M (list str * St).

(** Going into the entry called [d]: the first entry of that name. *)
Lemma visit_assoc below d acc es :
  (fix visit (l : list (str * node)) : M St :=
     match l with
     | [] => mret acc
     | (nm, ch) :: l' =>
         if decide (nm = d) then walk_node body (below ++ [d]) ch acc
         else visit l'
     end) es
  = match assoc d es with
    | Some ch => walk_node body (below ++ [d]) ch acc
    | None => mret acc
    end.
Proof.
  induction es as [|[nm ch] es IH]; simpl; [done|].
  by destruct (decide (nm = d)).
Qed.

Lemma foldM_inv {A} (J : St → Prop) (f : St → A → M St) l :
  (∀ acc x w, x ∈ l → J acc →
     ∃ acc' w', f acc x w = (Ret acc', w') ∧ J acc' ∧ w_fs w' = w_fs w) →
  ∀ st w, J st →
    ∃ st' w', foldM f st l w = (Ret st', w') ∧ J st' ∧ w_fs w' = w_fs w.
Proof.
  induction l as [|x l IH]; intros Hf st w HJ; simpl.
  - by exists st, w.
  - destruct (Hf st x w) as (acc' & w1 & E & HJ' & Hw); [left|done|].
    unfold mbind, ST_bind. rewrite E.
    destruct (IH (λ acc y w Hy, Hf acc y w (list_elem_of_further _ _ _ Hy))
                acc' w1 HJ') as (st' & w' & E' & ? & ?).
    exists st', w'. split_and!; [done|done|congruence].
Qed.

(** A loop body that always finishes, keeps [J] and leaves the filesystem
    alone makes a walk that does the same; [C] is what is known of the
    directory the body is run on. *)
Lemma walk_node_inv (C : list str → node → Prop) (J : St → Prop) :
  (∀ below es st w, C below (Dir es) → J st →
     ∃ dirs st' w',
       body below (dirnames_of es) (filenames_of es) st w
         = (Ret (dirs, st'), w') ∧
       J st' ∧ w_fs w' = w_fs w ∧
       ∀ d ch, d ∈ dirs → assoc d es = Some ch → C (below ++ [d]) ch) →
  ∀ n below st w, C below n → J st →
    ∃ st' w', walk_node body below n st w = (Ret st', w') ∧
              J st' ∧ w_fs w' = w_fs w.
Proof.
  intros Hbody n. induction n as [d|es IH] using node_tree_ind;
    intros below st w HC HJ; simpl.
  - by exists st, w.
  - destruct (Hbody below es st w HC HJ) as (dirs & st1 & w1 & E & HJ1 & Hw1 & HC1).
    unfold mbind, ST_bind. rewrite E. simpl.
    match goal with
    | |- context [foldM ?f _ _ _] =>
        destruct (foldM_inv J f dirs) with (st := st1) (w := w1)
          as (st' & w' & E' & ? & ?); [|done|]
    end.
    + intros acc d w0 Hd Hacc. rewrite visit_assoc.
      destruct (assoc d es) as [ch|] eqn:Ea; [|by exists acc, w0].
      apply (assoc_Forall
               (λ n, ∀ below st w, C below n → J st →
                  ∃ st' w', walk_node body below n st w = (Ret st', w') ∧
                            J st' ∧ w_fs w' = w_fs w) _ _ _ IH Ea); eauto.
    + exists st', w'. split_and!; [done|done|congruence].
Qed.

End Walk.

(** ** The scanner *)

Lemma count_walk n below total w :
  ∃ total' w',
    walk_node FileTools.count_body below n total w = (Ret total', w') ∧
    w_fs w' = w_fs w.
Proof.
  destruct (walk_node_inv FileTools.count_body (λ _ _, True) (λ _, True))
    with (n := n) (below := below) (st := total) (w := w)
    as (t' & w' & E & _ & Hw); [|done|done|by eauto].
  intros b es st w0 _ _. unfold FileTools.count_body.
  destruct (FileTools.ignored_top _); eexists _, _, _; by split_and!.
Qed.

Lemma recorded_from_empty top : recorded_from top ∅.
Proof. intros k files H. by rewrite lookup_empty in H. Qed.

Lemma empty_not_ignored : FileTools.ignored_top (split_on SEP []) = false.
Proof. vm_compute. reflexivity. Qed.

Lemma tree_body_step top total below es st w :
  lookup_node top below = Some (Dir es) →
  Forall (λ d, d ∉ FileTools.IGNORED_TOPDIRS) below →
  recorded_from top st.1 →
  ∃ dirs st' w',
    FileTools.tree_body total below (dirnames_of es) (filenames_of es) st w
      = (Ret (dirs, st'), w') ∧
    recorded_from top st'.1 ∧ w_fs w' = w_fs w ∧
    ∀ d ch, d ∈ dirs → assoc d es = Some ch →
      lookup_node top (below ++ [d]) = Some ch ∧
      Forall (λ d, d ∉ FileTools.IGNORED_TOPDIRS) (below ++ [d]).
Proof.
  intros Htop Hbelow Hrec. destruct st as [tree processed]. simpl in Hrec.
  unfold FileTools.tree_body.
  destruct (FileTools.ignored_top (split_on SEP (os_path_relpath below)))
    eqn:Hig.
  { eexists _, _, _. split_and!; [done|done|done|].
    intros d ch Hd. by apply elem_of_nil in Hd. }
  set (rel := os_path_relpath below) in *.
  set (reldir := if bool_decide (rel = lit ".") then [] else rel).
  set (tree' := <[reldir := default [] (tree !! reldir) ++ filenames_of es]> tree).
  assert (recorded_from top tree') as Hrec'.
  { intros k files Hk. unfold tree' in Hk.
    destruct (decide (reldir = k)) as [<-|Hne].
    - rewrite lookup_insert_eq in Hk. simplify_eq. split.
      + unfold reldir. destruct (bool_decide (rel = lit "."));
          [apply empty_not_ignored|done].
      + intros fname [Hold|Hnew]%elem_of_app.
        * destruct (tree !! reldir) as [old|] eqn:Eold; simpl in Hold;
            [|by apply elem_of_nil in Hold].
          by apply (Hrec _ _ Eold).
        * exists below, es. by split_and!.
    - rewrite lookup_insert_ne in Hk by done. by apply Hrec. }
  assert (∀ d ch,
            d ∈ filter (λ d, d ∉ FileTools.IGNORED_TOPDIRS) (dirnames_of es) →
            assoc d es = Some ch →
            lookup_node top (below ++ [d]) = Some ch ∧
            Forall (λ d, d ∉ FileTools.IGNORED_TOPDIRS) (below ++ [d]))
    as Hdirs.
  { intros d ch [Hd _]%list_elem_of_filter Ha. split.
    - rewrite lookup_node_app, Htop. simpl. by rewrite Ha.
    - apply Forall_app. split; [done|]. by constructor. }
  unfold mbind, ST_bind, mret, ST_ret, emit_progress, emit.
  destruct (_ || _); eexists _, _, _; split_and!; done.
Qed.

Lemma tree_walk top total n below st w :
  lookup_node top below = Some n →
  Forall (λ d, d ∉ FileTools.IGNORED_TOPDIRS) below →
  recorded_from top st.1 →
  ∃ st' w',
    walk_node (FileTools.tree_body total) below n st w = (Ret st', w') ∧
    recorded_from top st'.1 ∧ w_fs w' = w_fs w.
Proof.
  intros Htop Hbelow Hrec.
  apply (walk_node_inv (FileTools.tree_body total)
           (λ below n, lookup_node top below = Some n ∧
                       Forall (λ d, d ∉ FileTools.IGNORED_TOPDIRS) below)
           (λ st, recorded_from top st.1)); [|done|done].
  intros b es st0 w0 [H1 H2] H3. by apply tree_body_step.
Qed.

(** The scanner always returns; it leaves the filesystem alone and what
    it returns is recorded from the directory it was pointed to. *)
Lemma read_dir_tree_raw_spec project_root w :
  ∃ tree w',
    FileTools.read_dir_tree_raw project_root w = (Ret tree, w') ∧
    w_fs w' = w_fs w ∧
    match os_lookup project_root (w_fs w) with
    | Some top => recorded_from top tree
    | None => tree = ∅
    end.
Proof.
  destruct w as [f t]. unfold FileTools.read_dir_tree_raw, os_walk.
  cbv [mbind ST_bind mret ST_ret emit_log emit_progress emit w_fs w_trace].
  destruct (os_lookup project_root f) as [top|] eqn:Etop.
  - match goal with
    | |- context [walk_node FileTools.count_body [] top 0%nat ?w0] =>
        destruct (count_walk top [] 0%nat w0) as (total & w1 & E1 & Hw1)
    end.
    rewrite E1. destruct w1 as [f1 t1]. simpl in Hw1. subst f1.
    rewrite Etop.
    match goal with
    | |- context [walk_node (FileTools.tree_body total) [] top ?s0 ?w0] =>
        destruct (tree_walk top total top [] s0 w0)
          as (st' & w2 & E2 & Hrec & Hw2);
          [done|done|apply recorded_from_empty|]
    end.
    rewrite E2. destruct w2 as [f2 t2]. simpl in Hw2. subst f2.
    eexists _, _. split_and!; [reflexivity|done|done].
  - rewrite Etop. eexists _, _. split_and!; [reflexivity|done|done].
Qed.

Lemma split_on_no_sep name : SEP ∉ name → split_on SEP name = [name].
Proof.
  induction name as [|c name IH]; intros H; simpl; [done|].
  apply not_elem_of_cons in H as [Hc Hn].
  destruct (N.eqb_spec c SEP); [done|]. by rewrite IH.
Qed.

Lemma split_on_app_sep name rest :
  SEP ∉ name → split_on SEP (name ++ SEP :: rest) = name :: split_on SEP rest.
Proof.
  induction name as [|c name IH]; intros H; simpl.
  - reflexivity.
  - apply not_elem_of_cons in H as [Hc Hn].
    destruct (N.eqb_spec c SEP); [done|]. by rewrite IH.
Qed.

Lemma ignored_name_no_sep name :
  name ∈ FileTools.IGNORED_TOPDIRS → SEP ∉ name.
Proof.
  unfold FileTools.IGNORED_TOPDIRS. rewrite elem_of_list_to_set.
  intros H. cbn [fmap list_fmap] in H.
  repeat (apply elem_of_cons in H as [->|H];
          [apply (bool_decide_unpack _); vm_compute; exact I|]).
  by apply elem_of_nil in H.
Qed.

Lemma ignored_key name rest :
  name ∈ FileTools.IGNORED_TOPDIRS →
  FileTools.ignored_top (split_on SEP name) = true ∧
  FileTools.ignored_top (split_on SEP (name ++ SEP :: rest)) = true.
Proof.
  intros H. pose proof (ignored_name_no_sep _ H) as Hs.
  rewrite split_on_no_sep, split_on_app_sep by done. simpl.
  by rewrite bool_decide_eq_true_2.
Qed.

(** C5.  For a root that is a directory, given as a path the host takes,
    in a filesystem whose names the host gives and the console takes: the
    scanner returns a tree.  The tree has no entry under an ignored name
    nor under any path that begins with an ignored name followed by a
    slash; and every file name it records is that of a regular file
    directly in a directory below the scanned one none of whose names, on
    the way down, is ignored. *)
Theorem scan_excludes_ignored project_root w :
  host_path project_root = true →
  host_fs (w_fs w) = true →
  path_isdir_in project_root (w_fs w) = true →
  ∃ tree w',
    FileTools.read_dir_tree_raw project_root w = (Ret tree, w') ∧
    (∀ name rest,
       name ∈ FileTools.IGNORED_TOPDIRS →
       tree !! name = None ∧ tree !! (name ++ SEP :: rest) = None) ∧
    (∀ k files fname,
       tree !! k = Some files → fname ∈ files →
       ∃ top below es,
         os_lookup project_root (w_fs w) = Some top ∧
         k = reldir_of below ∧
         Forall (λ d, d ∉ FileTools.IGNORED_TOPDIRS) below ∧
         lookup_node top below = Some (Dir es) ∧
         fname ∈ filenames_of es).
Proof.
  intros _ _ Hdir.
  destruct (read_dir_tree_raw_spec project_root w)
    as (tree & w' & Hrun & _ & Hrec).
  exists tree, w'. split; [done|]. clear Hdir.
  destruct (os_lookup project_root (w_fs w)) as [top|]; [|subst tree].
  - split.
    + intros name rest Hn. destruct (ignored_key name rest Hn) as [H1 H2].
      split.
      * destruct (tree !! name) as [files|] eqn:E; [|done].
        destruct (Hrec _ _ E) as [H _]. congruence.
      * destruct (tree !! (name ++ SEP :: rest)) as [files|] eqn:E; [|done].
        destruct (Hrec _ _ E) as [H _]. congruence.
    + intros k files fname Hk Hf.
      destruct (Hrec _ _ Hk) as [_ H]. destruct (H _ Hf) as (below & es & ? & ? & ? & ?).
      exists top, below, es. by split_and!.
  - split; [by intros; rewrite !lookup_empty|].
    intros k files fname Hk. by rewrite lookup_empty in Hk.
Qed.

(** The scan of the example project. *)
Lemma scan_excludes_ignored_witness :
  ∃ tree w',
    FileTools.read_dir_tree_raw (lit "/proj") example_world = (Ret tree, w') ∧
    (∀ name rest,
       name ∈ FileTools.IGNORED_TOPDIRS →
       tree !! name = None ∧ tree !! (name ++ SEP :: rest) = None) ∧
    (∀ k files fname,
       tree !! k = Some files → fname ∈ files →
       ∃ top below es,
         os_lookup (lit "/proj") example_fs = Some top ∧
         k = reldir_of below ∧
         Forall (λ d, d ∉ FileTools.IGNORED_TOPDIRS) below ∧
         lookup_node top below = Some (Dir es) ∧
         fname ∈ filenames_of es).
Proof.
  apply (scan_excludes_ignored (lit "/proj") example_world).
  - vm_compute. reflexivity.
  - vm_compute. reflexivity.
  - vm_compute. reflexivity.
Defined.

(** The scan of the example project: the dependency folder is left out
    with all it holds, and so is the build folder inside the sources. *)
Example scan_example :
  ∃ w',
    FileTools.read_dir_tree_raw (lit "/proj") example_world
    = (Ret {[ [] := [lit "index.html"; lit "notes.txt"];
              lit "src" := [lit "main.py"] ]}, w').
Proof. eexists. vm_compute. reflexivity. Qed.

(** C8, amended.  For a root path without a NUL character and without a
    lone surrogate that is missing or leads to no directory, the scanner
    raises nothing: it returns the empty tree and leaves the filesystem
    alone. *)
Theorem scan_of_no_directory_is_empty project_root w :
  host_text project_root = true →
  path_isdir_in project_root (w_fs w) = false →
  ∃ w',
    FileTools.read_dir_tree_raw project_root w = (Ret ∅, w') ∧
    w_fs w' = w_fs w.
Proof.
  intros _ Hd. destruct w as [f t]. simpl in *.
  unfold path_isdir_in in Hd.
  unfold FileTools.read_dir_tree_raw, os_walk.
  cbv [mbind ST_bind mret ST_ret emit_log emit_progress emit w_fs w_trace].
  destruct (os_lookup project_root f) as [[d|es]|] eqn:E; [|done|];
    simpl; rewrite ?E; simpl; eexists; split; reflexivity.
Qed.

(** The scan pointed at the page of the example project. *)
Lemma scan_of_no_directory_is_empty_witness :
  ∃ w',
    FileTools.read_dir_tree_raw (lit "/proj/index.html") example_world
      = (Ret ∅, w') ∧
    w_fs w' = example_fs.
Proof.
  apply (scan_of_no_directory_is_empty (lit "/proj/index.html") example_world).
  - vm_compute. reflexivity.
  - vm_compute. reflexivity.
Defined.

(** C8 as the specification has it fails: for a path that is missing and
    for one that leads to a regular file the scanner raises no
    [NotADirectoryError] and returns the empty tree. *)
Lemma scan_of_missing_root_returns :
  path_exists_in (lit "/nonexistent") example_fs = false ∧
  path_isdir_in (lit "/proj/index.html") example_fs = false ∧
  (FileTools.read_dir_tree_raw (lit "/nonexistent") example_world).1 = Ret ∅ ∧
  (FileTools.read_dir_tree_raw (lit "/proj/index.html") example_world).1
    = Ret ∅ ∧
  ∀ p, (FileTools.read_dir_tree_raw (lit "/nonexistent") example_world).1
       ≠ Raise (NotADirectoryError p).
Proof.
  split_and!; try (vm_compute; reflexivity).
  intros p. vm_compute. discriminate.
Qed.

(** ** The session entry point *)

(** On a project path that is no directory the session runner sends its
    notifications and leaves with [sys.exit(1)]: the planner is not
    called and the filesystem is as it was. *)
Lemma agent_exits_on_bad_project simple_agent project_root session_id
    user_instruction w :
  path_isdir_in project_root (w_fs w) = false →
  MyAgent.agent simple_agent project_root session_id user_instruction w
  = (Raise (SystemExit 1),
     World (w_fs w) (w_trace w ++ [agent_log "info"; agent_log "error"])).
Proof.
  intros Hd. destruct w as [f t]. simpl in Hd. unfold MyAgent.agent.
  cbv [mbind ST_bind mret ST_ret inspect os_path_isdir emit_log emit raise
       w_fs w_trace].
  rewrite Hd. simpl. by rewrite <- app_assoc.
Qed.



(** * Further properties *)


(** * More on the mutator *)

Lemma read_text_in_Ret_file p f s :
  read_text_in p f = Ret s →
  ∃ l bs, resolve f p = inr l ∧ stat_loc f l = Some (KFile bs).
Proof.
  unfold read_text_in. destruct (os_stat p f) as [[bs|]|] eqn:E; try done.
  apply os_stat_Ret in E as (l & Hr & Hl). eauto.
Qed.

(** What a call that answered the success outcome went through. *)
Lemma apply_updated_inv m project_root filename new_content w w' :
  apply_patch_raw m project_root filename new_content w
    = (Ret (msg_updated filename), w') →
  ∃ cur,
    read_text_in (target_path project_root filename) (w_fs w) = Ret cur ∧
    cur ≠ new_content ∧
    write_text_in (target_path project_root filename) new_content (w_fs w)
      = (Ret tt, w_fs w') ∧
    read_text_in (target_path project_root filename) (w_fs w') = Ret new_content.
Proof.
  intros Hrun.
  destruct (apply_patch_raw_outcome m project_root filename new_content w)
    as (s & w2 & Hrun' & Hout).
  rewrite Hrun in Hrun'. simplify_eq.
  inversion Hout; subst;
    try match goal with
        | H : _ = msg_updated _ |- _ =>
            exfalso; symmetry in H; revert H;
            first [ apply updated_not_not_found
                  | apply updated_not_update_error
                  | apply updated_not_unchanged
                  | apply write_failure_not_updated
                  | apply updated_not_verification_failed ]
        end.
  eauto 10.
Qed.

(** X1.  For a path that reads as text different from the new content, and
    new content that can be encoded and has no carriage return, the mutator
    answers the success outcome; afterwards the file holds the encoding of
    the new content, the working directory is the same and every other
    location is as it was.  This holds for both copies. *)
Theorem apply_updates_readable_file m project_root filename new_content w
    cur bs :
  read_text_in (target_path project_root filename) (w_fs w) = Ret cur →
  cur ≠ new_content →
  utf8_encode new_content = Some bs →
  CR ∉ new_content →
  ∃ w' l,
    apply_patch_raw m project_root filename new_content w
      = (Ret (msg_updated filename), w') ∧
    resolve (w_fs w) (target_path project_root filename) = inr l ∧
    stat_loc (w_fs w') l = Some (KFile bs) ∧
    fs_cwd (w_fs w') = fs_cwd (w_fs w) ∧
    ∀ q, q ≠ l → stat_loc (w_fs w') q = stat_loc (w_fs w) q.
Proof.
  intros Hrd Hne Hbs Hcr.
  destruct (read_text_in_Ret_file _ _ _ Hrd) as (l & old & Hr & Hl).
  destruct (write_text_in_over_file _ _ _ _ _ _ Hr Hl Hbs) as [f1 Hwr].
  pose proof (read_after_write _ _ _ _ Hwr) as Hrd1.
  rewrite universal_newlines_id in Hrd1 by done.
  pose proof (exists_of_read _ _ _ Hrd) as Hex.
  destruct (apply_patch_raw_outcome m project_root filename new_content w)
    as (s & w' & Hrun & Hout).
  exists w', l. rewrite Hrun.
  inversion Hout; subst; try congruence.
  assert (w_fs w' = f1) as Hf by congruence.
  apply write_text_in_Ret in Hwr as (l' & bs' & Hr' & Hl' & Hb' & Hp).
  assert (l' = l) as -> by congruence. assert (bs' = bs) as -> by congruence.
  rewrite Hf. split_and!; [done|done| | |].
  - by rewrite (put_loc_stat_same _ _ _ _ Hp).
  - by eapply put_loc_cwd.
  - intros q Hq. eapply put_loc_stat_other; [exact Hp|exact Hl'|done|done].
Qed.

(** The page of the example project gets a footer. *)
Lemma apply_updates_readable_file_witness :
  ∃ w' l,
    apply_patch_raw patch_tools (lit "/proj") (lit "index.html")
      (lit "<h1>Hi</h1><footer/>") example_world
      = (Ret (msg_updated (lit "index.html")), w') ∧
    resolve example_fs (target_path (lit "/proj") (lit "index.html")) = inr l ∧
    stat_loc (w_fs w') l
      = Some (KFile (list_byte_of_string "<h1>Hi</h1><footer/>")) ∧
    fs_cwd (w_fs w') = [] ∧
    ∀ q, q ≠ l → stat_loc (w_fs w') q = stat_loc example_fs q.
Proof.
  apply (apply_updates_readable_file patch_tools (lit "/proj")
           (lit "index.html") (lit "<h1>Hi</h1><footer/>") example_world
           (lit "<h1>Hi</h1>")).
  - vm_compute. reflexivity.
  - vm_compute. discriminate.
  - vm_compute. reflexivity.
  - apply (bool_decide_unpack _). vm_compute. exact I.
Defined.

(** X2.  After a call of the mutator that answered the success outcome,
    a second call with the same arguments, of either copy, answers the
    unchanged outcome and leaves the filesystem as the first call left
    it. *)
Theorem apply_twice_is_unchanged m m' project_root filename new_content w w1 :
  apply_patch_raw m project_root filename new_content w
    = (Ret (msg_updated filename), w1) →
  ∃ w2,
    apply_patch_raw m' project_root filename new_content w1
      = (Ret (msg_unchanged filename), w2) ∧
    w_fs w2 = w_fs w1.
Proof.
  intros (cur & _ & _ & _ & Hrd)%apply_updated_inv.
  pose proof (exists_of_read _ _ _ Hrd) as Hex.
  destruct (apply_patch_raw_outcome m' project_root filename new_content w1)
    as (s & w2 & Hrun & Hout).
  exists w2. rewrite Hrun. inversion Hout; subst; try congruence.
  split; [done|congruence].
Qed.

Lemma apply_twice_is_unchanged_witness :
  ∃ w2,
    apply_patch_raw simple_patch_tools (lit "/proj") (lit "index.html")
      (lit "<h1>Hi</h1><footer/>")
      (apply_patch_raw patch_tools (lit "/proj") (lit "index.html")
         (lit "<h1>Hi</h1><footer/>") example_world).2
      = (Ret (msg_unchanged (lit "index.html")), w2) ∧
    w_fs w2
    = w_fs (apply_patch_raw patch_tools (lit "/proj") (lit "index.html")
              (lit "<h1>Hi</h1><footer/>") example_world).2.
Proof.
  apply (apply_twice_is_unchanged patch_tools simple_patch_tools (lit "/proj")
           (lit "index.html") (lit "<h1>Hi</h1><footer/>") example_world).
  vm_compute. reflexivity.
Defined.

(** * What the decoder yields can be encoded *)

Lemma utf8_encode_Forall s : Forall encodable s ↔ is_Some (utf8_encode s).
Proof.
  induction s as [|c s IH]; simpl.
  - split; [by eexists|constructor].
  - rewrite Forall_cons, IH. unfold encodable.
    destruct (utf8_encode_cp c), (utf8_encode s); split.
    all: try (intros [[? ?] [? ?]]; by eauto).
    all: try (intros [? ?]; done).
Qed.

Lemma encodable_spec c :
  c < 0x110000 → is_surrogate c = false → encodable c.
Proof.
  intros Hc Hs. unfold encodable, utf8_encode_cp. rewrite Hs.
  destruct (c <? 0x80); [by eexists|].
  destruct (c <? 0x800); [by eexists|].
  destruct (c <? 0x10000); [by eexists|].
  destruct (N.ltb_spec c 0x110000); [by eexists|lia].
Qed.

Ltac bools :=
  unfold is_cont, cont_bits in *;
  repeat match goal with
         | H : (_ && _) = true |- _ => apply andb_true_iff in H as [? ?]
         | H : negb _ = true |- _ => apply negb_true_iff in H
         | H : (_ <=? _) = true |- _ => apply N.leb_le in H
         | H : (_ <? _) = true |- _ => apply N.ltb_lt in H
         end.

Lemma not_surrogate_below c : c < 0xD800 → is_surrogate c = false.
Proof.
  intros. unfold is_surrogate. apply andb_false_iff. left. apply N.leb_gt. lia.
Qed.

Lemma not_surrogate_above c : 0xE000 ≤ c → is_surrogate c = false.
Proof.
  intros. unfold is_surrogate. apply andb_false_iff. right. apply N.ltb_ge. lia.
Qed.

Lemma utf8_decode_encodable bs s : utf8_decode bs = Some s → Forall encodable s.
Proof.
  assert (∀ n bs s, (length bs ≤ n)%nat → utf8_decode bs = Some s →
                    Forall encodable s) as H.
  { clear. induction n as [|n IH]; intros bs s Hn.
    - destruct bs; [|simpl in Hn; lia]. simpl. intros [= <-]. constructor.
    - destruct bs as [|b0 r0]; [simpl; intros [= <-]; constructor|].
      cbn [utf8_decode]. simpl in Hn.
      assert (∀ c r s, (length r ≤ n)%nat → encodable c →
                cons c <$> utf8_decode r = Some s → Forall encodable s) as Hk.
      { intros c r s' Hr Hc Hd.
        destruct (utf8_decode r) as [s0|] eqn:E; [|done].
        simpl in Hd. simplify_eq. constructor; [done|]. by eapply IH. }
      destruct (N.ltb_spec (Byte.to_N b0) 0x80).
      { apply Hk; [lia|]. apply encodable_spec; [lia|].
        apply not_surrogate_below. lia. }
      destruct (N.ltb_spec (Byte.to_N b0) 0xC0); [done|].
      destruct (N.ltb_spec (Byte.to_N b0) 0xE0).
      { destruct r0 as [|b1 r1]; [done|].
        case_match eqn:Hg; [|done]. simpl in Hn. bools.
        apply Hk; [lia|]. apply encodable_spec; [lia|].
        apply not_surrogate_below. lia. }
      destruct (N.ltb_spec (Byte.to_N b0) 0xF0).
      { destruct r0 as [|b1 [|b2 r2]]; [done|done|].
        case_match eqn:Hg; [|done]. simpl in Hn.
        apply andb_true_iff in Hg as [Hg Hs]. apply negb_true_iff in Hs. bools.
        apply Hk; [lia|]. apply encodable_spec; [lia|done]. }
      destruct (N.ltb_spec (Byte.to_N b0) 0xF8); [|done].
      destruct r0 as [|b1 [|b2 [|b3 r3]]]; [done|done|done|].
      case_match eqn:Hg; [|done]. simpl in Hn. bools.
      apply Hk; [lia|]. apply encodable_spec; [done|].
      apply not_surrogate_above. lia. }
  by apply (H (length bs)).
Qed.

Lemma universal_newlines_Forall (P : N → Prop) s :
  P LF → Forall P s → Forall P (universal_newlines s).
Proof.
  intros HLF.
  assert (∀ n s, (length s ≤ n)%nat → Forall P s →
                 Forall P (universal_newlines s)) as H.
  { clear s. induction n as [|n IH]; intros s Hn Hs.
    - destruct s; [|simpl in Hn; lia]. constructor.
    - destruct s as [|c s]; [constructor|]. simpl in *.
      apply Forall_cons in Hs as [Hc Hs].
      destruct (c =? CR).
      + constructor; [done|]. destruct s as [|c' s]; [constructor|].
        apply Forall_cons in Hs as [Hc' Hs]. simpl in Hn.
        destruct (c' =? LF); apply IH; simpl; try lia; [done|by constructor].
      + constructor; [done|]. apply IH; [lia|done]. }
  intros. by apply (H (length s)).
Qed.

(** Text that was read can be written. *)
Lemma read_text_in_encodable p f s :
  read_text_in p f = Ret s → is_Some (utf8_encode s).
Proof.
  unfold read_text_in. destruct (os_stat p f) as [[bs|]|]; try done.
  destruct (utf8_decode bs) as [s0|] eqn:E; [|done]. intros [= <-].
  apply utf8_encode_Forall, universal_newlines_Forall.
  - apply encodable_spec; [done|reflexivity].
  - by eapply utf8_decode_encodable.
Qed.

(** X3.  For arguments the console and the host take and content that
    can be encoded: when the path leads to a directory, or to a regular
    file whose bytes are no UTF-8, the mutator answers an update-error
    outcome, [Error updating file: ] followed by the text of the exception
    of the first read, and the filesystem is the one it found.  For a
    directory that text is [[Errno 21] Is a directory: ] and the path as
    the error shows it, between single quotes when it is plain; for bytes
    that are no UTF-8 it begins with what the decoder says of every
    failure.  This holds for both copies. *)
Theorem apply_unreadable_target m project_root filename new_content w l :
  host_target project_root filename = true →
  is_Some (utf8_encode new_content) →
  resolve (w_fs w) (target_path project_root filename) = inr l →
  stat_loc (w_fs w) l = Some KDir ∨
  (∃ bs, stat_loc (w_fs w) l = Some (KFile bs) ∧ utf8_decode bs = None) →
  ∃ detail w',
    apply_patch_raw m project_root filename new_content w
      = (Ret (lit "Error updating file: " ++ detail), w') ∧
    w_fs w' = w_fs w ∧
    (stat_loc (w_fs w) l = Some KDir →
     ∃ shown,
       detail = lit "[Errno 21] Is a directory: " ++ shown ∧
       (repr_plain (Path_str (target_path project_root filename)) = true →
        shown = quoted (Path_str (target_path project_root filename)))) ∧
    ((∃ bs, stat_loc (w_fs w) l = Some (KFile bs) ∧ utf8_decode bs = None) →
     ∃ rest, detail = lit "'utf-8' codec can't decode byte" ++ rest).
Proof.
  intros _ _ Hr Hk.
  set (p := target_path project_root filename) in *.
  assert (∃ e, exists_in p (w_fs w) = true ∧
               read_text_in p (w_fs w) = Raise e ∧
               (stat_loc (w_fs w) l = Some KDir →
                e = IsADirectoryError (Path_str p)) ∧
               ((∃ bs, stat_loc (w_fs w) l = Some (KFile bs) ∧
                       utf8_decode bs = None) →
                e = UnicodeDecodeError))
    as (e & Hex & Hrd & He & He').
  { unfold exists_in, read_text_in.
    destruct Hk as [Hl|(bs & Hl & Hd)];
      rewrite (proj2 (os_stat_Ret p (w_fs w) _) (ex_intro _ l (conj Hr Hl)));
      rewrite ?Hd; eexists; split_and!; try reflexivity; try congruence.
    intros (bs & Hl' & _). congruence. }
  destruct (apply_patch_raw_outcome m project_root filename new_content w)
    as (s & w' & Hrun & Hout).
  exists (str_exn e), w'. rewrite Hrun. fold p in Hout.
  inversion Hout; subst; try congruence.
  assert (e0 = e) as -> by congruence.
  split_and!; [done|done| |].
  - intros Hl. rewrite (He Hl). by eexists.
  - intros Hb. rewrite (He' Hb). by exists (lit "s").
Qed.

Lemma apply_unreadable_target_witness :
  ∃ detail w',
    apply_patch_raw simple_patch_tools (lit "/proj") (lit "src") (lit "X")
      example_world
      = (Ret (lit "Error updating file: " ++ detail), w') ∧
    w_fs w' = example_fs ∧
    (stat_loc example_fs [lit "proj"; lit "src"] = Some KDir →
     ∃ shown,
       detail = lit "[Errno 21] Is a directory: " ++ shown ∧
       (repr_plain (Path_str (target_path (lit "/proj") (lit "src"))) = true →
        shown = quoted (Path_str (target_path (lit "/proj") (lit "src"))))) ∧
    ((∃ bs, stat_loc example_fs [lit "proj"; lit "src"] = Some (KFile bs) ∧
            utf8_decode bs = None) →
     ∃ rest, detail = lit "'utf-8' codec can't decode byte" ++ rest).
Proof.
  apply (apply_unreadable_target simple_patch_tools (lit "/proj") (lit "src")
           (lit "X") example_world [lit "proj"; lit "src"]).
  - vm_compute. reflexivity.
  - vm_compute. eauto.
  - vm_compute. reflexivity.
  - left. vm_compute. reflexivity.
Defined.

(** * The notifications of [patch_tools.py] *)








(** * More on the creator *)

Lemma created_inv m project_root path content w w' :
  create_new_file_raw m project_root path content w
    = (Ret (msg_created path), w') →
  ∃ f1,
    mkdir_rec (anchor (target_path project_root path))
      (rev (parts (Path_parent (target_path project_root path)))) (w_fs w)
      = (Ret tt, f1) ∧
    write_text_in (target_path project_root path) content f1
      = (Ret tt, w_fs w') ∧
    read_text_in (target_path project_root path) (w_fs w') = Ret content.
Proof.
  intros Hrun.
  destruct (create_new_file_raw_outcome m project_root path content w)
    as (s & w2 & Hrun' & Hout).
  rewrite Hrun in Hrun'. simplify_eq.
  inversion Hout; subst;
    try match goal with
        | H : _ = msg_created _ |- _ =>
            exfalso; symmetry in H; revert H;
            first [ apply created_not_create_error
                  | apply created_not_verification_failed ]
        end.
  eauto.
Qed.

(** X12.  After a call of the creator that answered the created outcome,
    a call of the mutator, of either copy, with the same root, path and
    content answers the unchanged outcome and leaves the filesystem
    alone. *)
Theorem apply_after_create_is_unchanged m m' project_root path content w w1 :
  create_new_file_raw m project_root path content w
    = (Ret (msg_created path), w1) →
  ∃ w2,
    apply_patch_raw m' project_root path content w1
      = (Ret (msg_unchanged path), w2) ∧
    w_fs w2 = w_fs w1.
Proof.
  intros (f1 & _ & _ & Hrd)%created_inv.
  pose proof (exists_of_read _ _ _ Hrd) as Hex.
  destruct (apply_patch_raw_outcome m' project_root path content w1)
    as (s & w2 & Hrun & Hout).
  exists w2. rewrite Hrun. inversion Hout; subst; try congruence.
  split; [done|congruence].
Qed.

Lemma apply_after_create_is_unchanged_witness :
  ∃ w2,
    apply_patch_raw simple_patch_tools (lit "/proj") (lit "a/b/c.txt")
      (lit "X")
      (create_new_file_raw patch_tools (lit "/proj") (lit "a/b/c.txt")
         (lit "X") example_world).2
      = (Ret (msg_unchanged (lit "a/b/c.txt")), w2) ∧
    w_fs w2
    = w_fs (create_new_file_raw patch_tools (lit "/proj") (lit "a/b/c.txt")
              (lit "X") example_world).2.
Proof.
  apply (apply_after_create_is_unchanged patch_tools simple_patch_tools
           (lit "/proj") (lit "a/b/c.txt") (lit "X") example_world).
  vm_compute. reflexivity.
Defined.

(** ** What the creator leaves alone *)

Lemma write_text_in_keeps p s f r f1 :
  write_text_in p s f = (r, f1) →
  fs_cwd f1 = fs_cwd f ∧
  (∀ q, stat_loc f q = Some KDir → stat_loc f1 q = Some KDir) ∧
  (∀ q, resolve f p ≠ inr q → stat_loc f1 q = stat_loc f q).
Proof.
  intros H.
  destruct (write_text_in_effect _ _ _ _ _ H) as [->|(l & bs & Hr & Hl & Hp)];
    [done|].
  split_and!.
  - by eapply put_loc_cwd.
  - intros q Hq. by eapply put_file_keeps_dirs.
  - intros q Hq. eapply put_loc_stat_other; [exact Hp|done|done|congruence].
Qed.

(** X7.  Whatever its arguments and however it ends, a call of the
    creator keeps the working directory, keeps every directory that was
    there, and keeps every regular file with its bytes, except the one
    file the path leads to.  This holds for both copies. *)
Theorem create_never_destroys m project_root path content w :
  let f := w_fs w in
  let f' := w_fs (create_new_file_raw m project_root path content w).2 in
  fs_cwd f' = fs_cwd f ∧
  (∀ q, stat_loc f q = Some KDir → stat_loc f' q = Some KDir) ∧
  (∀ q bs, stat_loc f q = Some (KFile bs) →
     resolve f' (target_path project_root path) ≠ inr q →
     stat_loc f' q = Some (KFile bs)).
Proof.
  intros f f'. subst f'.
  destruct (create_new_file_raw_outcome m project_root path content w)
    as (s & w' & Hrun & Hout).
  rewrite Hrun. simpl. fold f in Hout.
  set (p := target_path project_root path) in *.
  assert (∀ f1 f2 r r',
    mkdir_rec (anchor p) (rev (parts (Path_parent p))) f = (r, f1) →
    write_text_in p content f1 = (r', f2) →
    fs_cwd f2 = fs_cwd f ∧
    (∀ q, stat_loc f q = Some KDir → stat_loc f2 q = Some KDir) ∧
    (∀ q bs, stat_loc f q = Some (KFile bs) → resolve f2 p ≠ inr q →
       stat_loc f2 q = Some (KFile bs))) as Hboth.
  { intros f1 f2 r r' [[Hc Hx] _]%mkdir_rec_spec Hwr.
    destruct (write_text_in_keeps _ _ _ _ _ Hwr) as (Hc2 & Hd2 & Ho2).
    split_and!; [congruence|by eauto|].
    intros q bs Hq Hnr. rewrite Ho2; [by apply Hx|].
    intros Hr. apply Hnr. eapply resolve_mono; [done|exact Hd2|done]. }
  inversion Hout; subst; eauto.
  apply mkdir_rec_spec in H as [[Hc Hx] _].
  split_and!; [done|by eauto|by eauto].
Qed.

(** ** The directories made for a path without double dots *)

Lemma mkdir_flat_made a ps f r f1 :
  DOTDOT ∉ ps → mkdir_flat (MkPath a ps) f = (r, f1) →
  made_under (base_of a f ++ ps) f f1.
Proof.
  intros Hdd. unfold mkdir_flat, try_except_if, raise, exist_ok_guard.
  destruct (mkdir_in (MkPath a ps) f) as [r0 f0] eqn:E.
  assert (made_under (base_of a f ++ ps) f f0) as Hm.
  { intros q. destruct (mkdir_in_plain_frame _ _ _ _ _ q Hdd E)
      as [?|(? & ? & ->)]; [by left|by right]. }
  destruct r0 as [[]|e]; [by intros; simplify_eq|].
  repeat case_match; by intros; simplify_eq.
Qed.

Lemma not_elem_of_rev_cons (x c : str) rps :
  x ∉ c :: rps → (x ∉ rev rps) ∧ x ∉ rev rps ++ [c].
Proof.
  intros [Hc Hr]%not_elem_of_cons.
  assert (x ∉ rev rps) as H.
  { intros H%list_elem_of_In%in_rev%list_elem_of_In. by apply Hr. }
  split; [done|]. rewrite elem_of_app, list_elem_of_singleton. tauto.
Qed.

Lemma mkdir_rec_made a rps f r f1 :
  DOTDOT ∉ rps → mkdir_rec a rps f = (r, f1) →
  made_under (base_of a f ++ rev rps) f f1.
Proof.
  revert f r f1. induction rps as [|c rps IH]; intros f r f1 Hdd H.
  - change (mkdir_rec a [] f) with
      (try_except_if is_OSError (mkdir_in (MkPath a [])) (λ e,
         if is_FileNotFoundError e then raise e
         else exist_ok_guard (MkPath a []) e) f) in H.
    by apply (mkdir_flat_made a [] f r f1).
  - destruct (not_elem_of_rev_cons _ _ _ Hdd) as [Hdd1 Hdd2].
    cbn [mkdir_rec rev] in *. unfold try_except_if, raise in H.
    destruct (mkdir_in (MkPath a (rev rps ++ [c])) f) as [r0 f0] eqn:E.
    assert (made_under (base_of a f ++ rev rps ++ [c]) f f0) as Hm.
    { intros q. destruct (mkdir_in_plain_frame _ _ _ _ _ q Hdd2 E)
        as [?|(? & ? & ->)]; [by left|by right]. }
    pose proof (mkdir_in_extends _ _ _ _ E) as Hx0.
    destruct r0 as [[]|e]; [by simplify_eq|].
    destruct (is_OSError e); [|by simplify_eq].
    destruct (is_FileNotFoundError e).
    + unfold mbind, ST_bind in H.
      destruct (mkdir_rec a rps f0) as [r2 f2] eqn:E2.
      assert (DOTDOT ∉ rps) as Hdd0 by (by apply not_elem_of_cons in Hdd as [_ ?]).
      pose proof (IH _ _ _ Hdd0 E2) as Hm2.
      destruct (mkdir_rec_spec _ _ _ _ _ E2) as [Hx2 _].
      rewrite (base_of_extends a _ _ Hx0) in Hm2.
      assert (made_under (base_of a f ++ rev rps ++ [c]) f f2) as Hm02.
      { eapply made_under_trans; [|exact Hm|]; [done|].
        intros q. destruct (Hm2 q) as [?|(? & ? & Hp)]; [by left|right].
        split_and!; [done|done|]. etrans; [exact Hp|].
        by apply prefix_app, prefix_app_r. }
      destruct r2 as [[]|e2]; [|by simplify_eq].
      apply mkdir_flat_made in H; [|done].
      rewrite (base_of_extends a f f2) in H by (by eapply extends_trans).
      eapply made_under_trans; [|exact Hm02|exact H]. done.
    + unfold exist_ok_guard in H. case_match; by simplify_eq.
Qed.

(** X8.  For a target path without a double dot, a call of the creator
    changes nothing off the path: every location that is not a prefix of
    the location of the target is afterwards what it was before, however
    the call ends.  This holds for both copies. *)
Theorem create_touches_only_its_path m project_root path content w q :
  DOTDOT ∉ parts (target_path project_root path) →
  ¬ q `prefix_of` base_of (anchor (target_path project_root path)) (w_fs w)
                  ++ parts (target_path project_root path) →
  stat_loc (w_fs (create_new_file_raw m project_root path content w).2) q
  = stat_loc (w_fs w) q.
Proof.
  set (p := target_path project_root path). set (f := w_fs w).
  intros Hdd Hq.
  destruct (create_new_file_raw_outcome m project_root path content w)
    as (s & w' & Hrun & Hout).
  rewrite Hrun. simpl. fold p f in Hout.
  assert (DOTDOT ∉ rev (parts (Path_parent p))) as Hdd1.
  { intros H%list_elem_of_In%in_rev%list_elem_of_In. apply Hdd. simpl in H.
    destruct (parts p) as [|c ps _] using rev_ind; [done|].
    rewrite removelast_last in H. apply elem_of_app. by left. }
  assert (∀ f1 r,
    mkdir_rec (anchor p) (rev (parts (Path_parent p))) f = (r, f1) →
    stat_loc f1 q = stat_loc f q ∧ fs_cwd f1 = fs_cwd f) as Hmk.
  { intros f1 r E. destruct (mkdir_rec_spec _ _ _ _ _ E) as [[Hc _] _].
    split; [|done].
    destruct (mkdir_rec_made _ _ _ _ _ Hdd1 E q) as [?|(_ & _ & Hp)]; [done|].
    exfalso. apply Hq. etrans; [exact Hp|]. rewrite rev_involutive. simpl.
    apply prefix_app.
    destruct (parts p) as [|c ps _] using rev_ind; [done|].
    rewrite removelast_last. by apply prefix_app_r. }
  assert (∀ f1 f2 r,
    fs_cwd f1 = fs_cwd f → write_text_in p content f1 = (r, f2) →
    stat_loc f2 q = stat_loc f1 q) as Hwr.
  { intros f1 f2 r Hc E.
    destruct (write_text_in_keeps _ _ _ _ _ E) as (_ & _ & Ho). apply Ho.
    unfold resolve. intros Hn. apply namei_plain_inr in Hn; [|done].
    apply Hq. subst q. unfold base_of. by rewrite Hc. }
  inversion Hout; subst;
    repeat match goal with
           | H : mkdir_rec _ _ _ = _ |- _ => apply Hmk in H as [? ?]
           end;
    try (erewrite Hwr by eauto); done.
Qed.

Lemma create_touches_only_its_path_witness :
  stat_loc
    (w_fs (create_new_file_raw patch_tools (lit "/proj") (lit "a/b/c.txt")
             (lit "X") example_world).2)
    [lit "proj"; lit "src"; lit "main.py"]
  = stat_loc example_fs [lit "proj"; lit "src"; lit "main.py"].
Proof.
  apply (create_touches_only_its_path patch_tools (lit "/proj")
           (lit "a/b/c.txt") (lit "X") example_world).
  - apply (bool_decide_unpack _). vm_compute. exact I.
  - apply (bool_decide_unpack _). vm_compute. exact I.
Defined.

(** ** A regular file in the way *)

Lemma namei_plain_file f shown cur comps k d :
  DOTDOT ∉ comps → (0 < k < length comps)%nat →
  stat_loc f (cur ++ take k comps) = Some (KFile d) →
  namei f shown cur comps = inl (NotADirectoryError shown).
Proof.
  revert cur k. induction comps as [|c rest IH]; intros cur k Hdd Hk Hf;
    [simpl in Hk; lia|].
  apply not_elem_of_cons in Hdd as [Hc Hdd].
  destruct rest as [|y rest]; [simpl in Hk; lia|].
  rewrite namei_step by done.
  destruct k as [|k]; [lia|]. cbn [take] in Hf.
  destruct k as [|k].
  - rewrite take_0 in Hf. by rewrite Hf.
  - assert (stat_loc f (cur ++ [c]) = Some KDir) as Hd.
    { eapply (stat_prefix_dir f (cur ++ [c]) (take (S k) (y :: rest))); [done|].
      rewrite <- app_assoc. cbn [app]. by rewrite Hf. }
    rewrite Hd. apply (IH (cur ++ [c]) (S k)); [done|simpl in *; lia|].
    by rewrite <- app_assoc.
Qed.

Lemma mkdir_rec_raises a rps f e :
  mkdir_in (MkPath a (rev rps)) f = (Raise e, f) →
  is_OSError e = true → is_FileNotFoundError e = false →
  is_dir_in (MkPath a (rev rps)) f = false →
  mkdir_rec a rps f = (Raise e, f).
Proof.
  intros Hmk Hos Hfnf Hd.
  destruct rps; cbn [mkdir_rec] in *; unfold try_except_if;
    rewrite Hmk, Hos, Hfnf; unfold exist_ok_guard; by rewrite Hd.
Qed.

(** X9.  For arguments the console and the host take and content that
    can be encoded: when a regular file sits at a proper prefix of a
    target path without a double dot, the creator answers a create-error
    outcome and the filesystem is the one it found.  The outcome is
    [Error creating file: ] followed by the text of the error of [mkdir]:
    it begins with [[Errno 17] File exists: ] when the file is the parent
    itself, and with [[Errno 20] Not a directory: ] when the file is
    further up; then comes the parent path as the error shows it, between
    single quotes when it is plain.  This holds for both copies. *)
Theorem create_blocked_by_file m project_root path content w k d :
  host_target project_root path = true →
  is_Some (utf8_encode content) →
  DOTDOT ∉ parts (target_path project_root path) →
  (0 < k < length (parts (target_path project_root path)))%nat →
  stat_loc (w_fs w)
    (base_of (anchor (target_path project_root path)) (w_fs w)
     ++ take k (parts (target_path project_root path))) = Some (KFile d) →
  ∃ shown w',
    create_new_file_raw m project_root path content w
      = (Ret (lit "Error creating file: "
              ++ (if decide (S k = length (parts (target_path project_root path)))
                  then lit "[Errno 17] File exists: "
                  else lit "[Errno 20] Not a directory: ")
              ++ shown),
         w') ∧
    w_fs w' = w_fs w ∧
    (repr_plain (Path_str (Path_parent (target_path project_root path))) = true →
     shown = quoted (Path_str (Path_parent (target_path project_root path)))).
Proof.
  set (p := target_path project_root path). set (f := w_fs w).
  intros _ _ Hdd Hk Hf.
  assert (∃ ps c, parts p = ps ++ [c]) as (ps & c & Ep).
  { destruct (parts p) as [|c ps _] using rev_ind; [simpl in Hk; lia|eauto]. }
  assert (Path_parent p = MkPath (anchor p) (rev (rev ps))) as Hpp.
  { unfold Path_parent. by rewrite Ep, removelast_last, rev_involutive. }
  rewrite Ep, length_app in Hk. simpl in Hk.
  rewrite Ep, take_app_le in Hf by lia.
  assert (DOTDOT ∉ ps) as Hdd1.
  { intros H. apply Hdd. rewrite Ep. apply elem_of_app. by left. }
  set (e := if decide (S k = length (parts p))
            then FileExistsError (Path_str (Path_parent p))
            else NotADirectoryError (Path_str (Path_parent p))).
  assert (mkdir_rec (anchor p) (rev ps) f = (Raise e, f)) as Hmk.
  { subst e. rewrite Ep, length_app. simpl.
    destruct (decide (S k = (length ps + 1)%nat)) as [Hlast|Hmid].
    - rewrite take_ge in Hf by lia.
      assert (resolve f (Path_parent p) = inr (base_of (anchor p) f ++ ps))
        as Hr.
      { rewrite Hpp. unfold resolve. simpl. rewrite rev_involutive.
        apply namei_plain_ok; [done|]. intros j Hj.
        rewrite <- (take_drop j ps) in Hf.
        eapply (stat_prefix_dir f _ (drop j ps)).
        - intros E%(f_equal length). rewrite length_drop in E. simpl in E. lia.
        - rewrite <- app_assoc. by rewrite Hf. }
      apply mkdir_rec_raises; rewrite <- ?Hpp; try done.
      + unfold mkdir_in. by rewrite Hr, Hf.
      + unfold is_dir_in, os_stat. by rewrite Hr, Hf.
    - assert (resolve f (Path_parent p)
              = inl (NotADirectoryError (Path_str (Path_parent p)))) as Hr.
      { unfold resolve. rewrite Hpp at 2 3. simpl. rewrite rev_involutive.
        eapply namei_plain_file; [done| |exact Hf]. lia. }
      apply mkdir_rec_raises; rewrite <- ?Hpp; try done.
      + unfold mkdir_in. by rewrite Hr.
      + unfold is_dir_in, os_stat. by rewrite Hr. }
  destruct (create_new_file_raw_outcome m project_root path content w)
    as (s & w' & Hrun & Hout).
  exists (quoted (Path_str (Path_parent p))), w'. rewrite Hrun.
  fold p f in Hout.
  assert (parts (Path_parent p) = ps) as Hps.
  { rewrite Hpp. simpl. apply rev_involutive. }
  inversion Hout as [e0 f1 Hmk0 He0| | |]; subst;
    match goal with
    | H : mkdir_rec _ _ _ = _ |- _ => rewrite Hmk in H
    end; try congruence.
  split_and!; [|congruence|done].
  assert (e0 = e) as -> by congruence.
  subst e. by destruct (decide (S k = length (parts p))).
Qed.

Lemma create_blocked_by_file_witness :
  ∃ shown w',
    create_new_file_raw simple_patch_tools (lit "/proj")
      (lit "index.html/a/b.txt") (lit "X") example_world
      = (Ret (lit "Error creating file: " ++ lit "[Errno 20] Not a directory: "
              ++ shown),
         w') ∧
    w_fs w' = example_fs ∧
    (repr_plain (lit "/proj/index.html/a") = true →
     shown = quoted (lit "/proj/index.html/a")).
Proof.
  apply (create_blocked_by_file simple_patch_tools (lit "/proj")
           (lit "index.html/a/b.txt") (lit "X") example_world 2%nat
           (list_byte_of_string "<h1>Hi</h1>")).
  - vm_compute. reflexivity.
  - vm_compute. eauto.
  - apply (bool_decide_unpack _). vm_compute. exact I.
  - vm_compute. lia.
  - vm_compute. reflexivity.
Defined.

(** ** A directory at the path *)

Lemma parent_of_dir f p :
  wf_fs f → is_dir_in p f = true → is_dir_in (Path_parent p) f = true.
Proof.
  intros Hwf Hd. unfold Path_parent.
  destruct (parts p) as [|c ps] eqn:Ep using rev_ind.
  - simpl. by replace (MkPath (anchor p) []) with p
      by (destruct p; simpl in *; congruence).
  - rewrite removelast_last.
    assert (∃ l, resolve f p = inr l) as [l Hr].
    { unfold is_dir_in, os_stat in Hd. destruct (resolve f p); [done|eauto]. }
    pose proof (resolve_ancestor f p (length ps) l Hwf Hr) as H.
    rewrite Ep, take_app_length in H. apply H.
    rewrite length_app. simpl. lia.
Qed.

(** X10.  In a filesystem whose working directory is a directory, for
    arguments the console and the host take and content that can be
    encoded: when the target path leads to a directory, the creator
    answers a create-error outcome, [Error creating file: [Errno 21] Is a
    directory: ] followed by the path as the error shows it, between
    single quotes when it is plain, and the filesystem is the one it
    found.  This holds for both copies. *)
Theorem create_on_directory m project_root path content w :
  host_target project_root path = true →
  is_Some (utf8_encode content) →
  wf_fs (w_fs w) →
  is_dir_in (target_path project_root path) (w_fs w) = true →
  ∃ shown w',
    create_new_file_raw m project_root path content w
      = (Ret (lit "Error creating file: " ++ lit "[Errno 21] Is a directory: "
              ++ shown),
         w') ∧
    w_fs w' = w_fs w ∧
    (repr_plain (Path_str (target_path project_root path)) = true →
     shown = quoted (Path_str (target_path project_root path))).
Proof.
  set (p := target_path project_root path). set (f := w_fs w).
  intros _ _ Hwf Hd.
  assert (mkdir_rec (anchor p) (rev (parts (Path_parent p))) f = (Ret tt, f))
    as Hmk.
  { apply mkdir_rec_existing. rewrite rev_involutive.
    by apply (parent_of_dir f p). }
  assert (write_text_in p content f
          = (Raise (IsADirectoryError (Path_str p)), f)) as Hwr.
  { unfold is_dir_in, os_stat in Hd. unfold write_text_in.
    destruct (resolve f p) as [|l]; [done|].
    by destruct (stat_loc f l) as [[|]|]. }
  destruct (create_new_file_raw_outcome m project_root path content w)
    as (s & w' & Hrun & Hout).
  exists (quoted (Path_str p)), w'. rewrite Hrun. fold p f in Hout.
  inversion Hout; subst;
    repeat match goal with
           | H : mkdir_rec _ _ _ = _ |- _ =>
               rewrite Hmk in H; simplify_eq
           | H : write_text_in _ _ _ = _ |- _ =>
               rewrite Hwr in H; simplify_eq
           end; try done.
Qed.

Lemma create_on_directory_witness :
  ∃ shown w',
    create_new_file_raw patch_tools (lit "/proj") (lit "src") (lit "X")
      example_world
      = (Ret (lit "Error creating file: " ++ lit "[Errno 21] Is a directory: "
              ++ shown), w') ∧
    w_fs w' = example_fs ∧
    (repr_plain (lit "/proj/src") = true → shown = quoted (lit "/proj/src")).
Proof.
  apply (create_on_directory patch_tools (lit "/proj") (lit "src") (lit "X")
           example_world).
  - vm_compute. reflexivity.
  - vm_compute. eauto.
  - vm_compute. reflexivity.
  - vm_compute. reflexivity.
Defined.

(** ** Content with a carriage return *)

(** On a free way the directories are made and the file is written. *)
Lemma create_runs p content f bs :
  way_free p f → utf8_encode content = Some bs →
  ∃ f1 f2 l,
    mkdir_rec (anchor p) (rev (parts (Path_parent p))) f = (Ret tt, f1) ∧
    write_text_in p content f1 = (Ret tt, f2) ∧
    resolve f2 p = inr l ∧ stat_loc f2 l = Some (KFile bs).
Proof.
  intros (Hwf & Hdd & Hne & Hnf & Htarget) Hbs.
  assert (∃ ps c, parts p = ps ++ [c]) as (ps & c & Ep).
  { destruct (parts p) as [|c ps _] using rev_ind; [done|eauto]. }
  clear Hne. rewrite Ep in Hdd, Hnf, Htarget.
  assert (parts (Path_parent p) = ps) as Hpp.
  { unfold Path_parent. simpl. by rewrite Ep, removelast_last. }
  assert (DOTDOT ∉ rev ps) as Hdd1.
  { intros H%list_elem_of_In%in_rev%list_elem_of_In. apply Hdd.
    apply elem_of_app. by left. }
  destruct (mkdir_rec_plain (anchor p) (rev ps) f Hdd1)
    as (f1 & Emk & Hx & Hs1 & Hm1).
  { by apply stat_base_dir. }
  { intros k d. rewrite rev_involutive.
    specialize (Hnf (k `min` length ps)%nat d).
    rewrite take_app_le, length_app in Hnf by lia. simpl in Hnf.
    destruct (decide (k ≤ length ps)%nat).
    - rewrite Nat.min_l in Hnf by lia. apply Hnf. lia.
    - rewrite Nat.min_r, take_ge in Hnf by lia. rewrite take_ge by lia.
      apply Hnf. lia. }
  rewrite rev_involutive in Hs1, Hm1.
  pose proof (base_of_extends (anchor p) _ _ Hx) as Hb.
  assert (resolve f1 p = inr ((base_of (anchor p) f ++ ps) ++ [c])) as Hr.
  { replace p with (MkPath (anchor p) (ps ++ [c]))
      by (destruct p; simpl in *; congruence).
    simpl. rewrite resolve_plain, Hb, <- ?app_assoc; [done|done|].
    by rewrite Hb. }
  assert (stat_loc f1 ((base_of (anchor p) f ++ ps) ++ [c]) ≠ Some KDir) as Ht.
  { destruct (Hm1 ((base_of (anchor p) f ++ ps) ++ [c]))
      as [->|(_ & _ & Hpre)]; [by rewrite <- app_assoc|].
    apply prefix_length in Hpre. rewrite !length_app in Hpre. simpl in Hpre.
    lia. }
  destruct (write_text_in_under_dir p content f1 _ c bs Hr Hs1 Ht Hbs)
    as [f2 Hwr].
  destruct (write_text_in_result _ _ _ _ Hwr) as (l & bs' & Hr2 & Hl2 & Hbs').
  exists f1, f2, l. rewrite Hpp. split_and!; [done|done|done|congruence].
Qed.

(** X11.  For arguments the console and the host take, on a free way (no
    double dot, no regular file in the way, no directory at the path),
    with content that can be encoded but holds a carriage return, the
    creator makes the directories and writes the file, whose bytes are the
    encoding of the content, and yet answers the verification-failed
    outcome: the text read back has its line endings translated.  This
    holds for both copies. *)
Theorem create_carriage_return_reports_failure m project_root path content w
    bs :
  host_target project_root path = true →
  way_free (target_path project_root path) (w_fs w) →
  utf8_encode content = Some bs →
  CR ∈ content →
  ∃ w' l,
    create_new_file_raw m project_root path content w
      = (Ret (msg_creation_verification_failed path), w') ∧
    resolve (w_fs w') (target_path project_root path) = inr l ∧
    stat_loc (w_fs w') l = Some (KFile bs).
Proof.
  intros _ Hfree Hbs Hcr.
  destruct (create_runs _ _ _ _ Hfree Hbs) as (f1 & f2 & l & Hmk & Hwr & Hr & Hl).
  pose proof (read_after_write _ _ _ _ Hwr) as Hrd.
  pose proof (universal_newlines_CR _ Hcr) as Hne.
  destruct (create_new_file_raw_outcome m project_root path content w)
    as (s & w' & Hrun & Hout).
  exists w', l. rewrite Hrun.
  inversion Hout; subst;
    repeat match goal with
           | H : mkdir_rec _ _ _ = _ |- _ =>
               rewrite Hmk in H; simplify_eq
           | H : write_text_in _ _ _ = _ |- _ =>
               rewrite Hwr in H; simplify_eq
           end; try done; try congruence.
Qed.

Lemma create_carriage_return_reports_failure_witness :
  ∃ w' l,
    create_new_file_raw simple_patch_tools (lit "/proj") (lit "a/win.txt")
      note_text example_world
      = (Ret (msg_creation_verification_failed (lit "a/win.txt")), w') ∧
    resolve (w_fs w') (target_path (lit "/proj") (lit "a/win.txt")) = inr l ∧
    stat_loc (w_fs w') l
      = Some (KFile (list_byte_of_string "one" ++ [x0d; x0a]
                     ++ list_byte_of_string "two")).
Proof.
  apply (create_carriage_return_reports_failure simple_patch_tools
           (lit "/proj") (lit "a/win.txt") note_text example_world).
  - vm_compute. reflexivity.
  - split_and!.
    + vm_compute. reflexivity.
    + apply (bool_decide_unpack _). vm_compute. exact I.
    + vm_compute. discriminate.
    + intros k d Hk. vm_compute in Hk.
      do 3 (destruct k as [|k]; [vm_compute; discriminate|]). lia.
    + vm_compute. discriminate.
  - vm_compute. reflexivity.
  - apply (bool_decide_unpack _). vm_compute. exact I.
Defined.

(** ** Creating the same file again *)

Lemma set_entry_same c v es : assoc c es = Some v → set_entry c v es = es.
Proof.
  induction es as [|[n x] es IH]; simpl; [done|].
  destruct (decide (n = c)) as [->|Hn]; [by intros [= ->]|].
  intros H. by rewrite IH.
Qed.

Lemma put_same n l v : lookup_node n l = Some v → put n l v = Some n.
Proof.
  revert n. induction l as [|c l IH]; intros n; simpl; [by intros [= ->]|].
  destruct n as [|es]; [done|].
  destruct (assoc c es) as [ch|] eqn:E; simpl; [|done].
  intros H. rewrite (IH _ H). simpl. by rewrite set_entry_same.
Qed.

Lemma put_loc_same f l bs :
  stat_loc f l = Some (KFile bs) → put_loc f l (File bs) = Some f.
Proof.
  unfold stat_loc, put_loc. intros H.
  destruct (lookup_node (Dir (fs_root f)) l) as [[d|]|] eqn:E; simplify_eq.
  simpl in H. simplify_eq. rewrite (put_same _ _ _ E). by destruct f.
Qed.

(** X13.  In a filesystem whose working directory is a directory: after
    a call of the creator that answered the created outcome, a second
    call with the same arguments, of either copy, answers the created
    outcome again and leaves the filesystem exactly as the first call left
    it. *)
Theorem create_twice_is_same m m' project_root path content w w1 :
  wf_fs (w_fs w) →
  create_new_file_raw m project_root path content w
    = (Ret (msg_created path), w1) →
  ∃ w2,
    create_new_file_raw m' project_root path content w1
      = (Ret (msg_created path), w2) ∧
    w_fs w2 = w_fs w1.
Proof.
  set (p := target_path project_root path).
  intros Hwf (f1 & Hmk & Hwr & Hrd)%created_inv. fold p in Hmk, Hwr, Hrd.
  assert (wf_fs (w_fs w1)) as Hwf1.
  { eapply write_text_in_wf; [exact Hwr|].
    eapply extends_wf; [|exact Hwf]. by eapply mkdir_rec_spec. }
  destruct (write_text_in_result _ _ _ _ Hwr) as (l & bs & Hr & Hl & Hbs).
  assert (mkdir_rec (anchor p) (rev (parts (Path_parent p))) (w_fs w1)
          = (Ret tt, w_fs w1)) as Hmk1.
  { apply mkdir_rec_existing. rewrite rev_involutive.
    by apply (parent_is_dir (w_fs w1) p l bs). }
  assert (write_text_in p content (w_fs w1) = (Ret tt, w_fs w1)) as Hwr1.
  { destruct (write_text_in_over_file p content (w_fs w1) l bs bs Hr Hl Hbs)
      as [f3 E].
    rewrite E. f_equal.
    apply write_text_in_Ret in E as (l' & bs' & Hr' & _ & Hbs' & Hp).
    assert (l' = l) as -> by congruence.
    assert (bs' = bs) as -> by congruence.
    rewrite (put_loc_same _ _ _ Hl) in Hp. congruence. }
  destruct (create_new_file_raw_outcome m' project_root path content w1)
    as (s & w2 & Hrun & Hout).
  exists w2. rewrite Hrun. fold p in Hout.
  assert (universal_newlines content = content) as Hun.
  { pose proof (read_after_write _ _ _ _ Hwr). congruence. }
  inversion Hout; subst;
    repeat match goal with
           | H : mkdir_rec _ _ _ = _ |- _ => rewrite Hmk1 in H; simplify_eq
           | H : write_text_in _ _ _ = _ |- _ => rewrite Hwr1 in H; simplify_eq
           end; try done; try congruence.
Qed.

Lemma create_twice_is_same_witness :
  ∃ w2,
    create_new_file_raw simple_patch_tools (lit "/proj") (lit "a/b/c.txt")
      (lit "X")
      (create_new_file_raw patch_tools (lit "/proj") (lit "a/b/c.txt")
         (lit "X") example_world).2
      = (Ret (msg_created (lit "a/b/c.txt")), w2) ∧
    w_fs w2
    = w_fs (create_new_file_raw patch_tools (lit "/proj") (lit "a/b/c.txt")
              (lit "X") example_world).2.
Proof.
  apply (create_twice_is_same patch_tools simple_patch_tools (lit "/proj")
           (lit "a/b/c.txt") (lit "X") example_world).
  - vm_compute. reflexivity.
  - vm_compute. reflexivity.
Defined.

(** * More on the scanner *)










(** ** Keys name one directory each *)

Lemma name_ok_spec d :
  name_ok d = true ↔ (SEP ∉ d) ∧ d ≠ [] ∧ d ≠ lit ".".
Proof.
  unfold name_ok, is_name.
  rewrite !andb_true_iff, !negb_true_iff, !bool_decide_eq_false. tauto.
Qed.



Lemma join_with_cons sep p q ps :
  join_with sep (p :: q :: ps) = p ++ sep ++ join_with sep (q :: ps).
Proof. done. Qed.

Lemma split_join l :
  l ≠ [] → Forall (λ d, SEP ∉ d) l → split_on SEP (join_with [SEP] l) = l.
Proof.
  induction l as [|d [|d' l] IH]; intros Hne Hl; [done| |].
  - simpl. apply split_on_no_sep. by apply Forall_cons in Hl as [? _].
  - rewrite join_with_cons. apply Forall_cons in Hl as [Hd Hl].
    cbn [app]. rewrite split_on_app_sep by done. by rewrite IH.
Qed.






(** * More on the session entry point *)









(** X17.  For a request other than [OPTIONS] in which one of
    [project_path], [session_id] and [user_instructions] is missing or
    empty, [fix_sync] answers status 400 with [success] false and the
    missing-parameters error, whatever the other parameters and the
    filesystem are; the world is the one it found and the planner is not
    run. *)
Theorem fix_sync_missing_parameter simple_agent parse_agent_output method data
    w key :
  method ≠ "OPTIONS"%string →
  key ∈ ["project_path"; "session_id"; "user_instructions"]%string →
  default [] (data !! key) = [] →
  Main.fix_sync simple_agent parse_agent_output method data w
  = (Ret (Main.Response 400
       {[ "success"%string := Main.JBool false;
          "error"%string := Main.JStr (lit "Missing required parameters: project_path, session_id, user_instructions") ]}),
     w).
Proof.
  intros Hm Hk Hnone. unfold Main.fix_sync.
  rewrite bool_decide_eq_false_2 by done.
  assert (bool_decide (default [] (data !! "project_path"%string) = [])
          || bool_decide (default [] (data !! "session_id"%string) = [])
          || bool_decide (default [] (data !! "user_instructions"%string) = [])
          = true) as ->; [|done].
  rewrite !orb_true_iff, !bool_decide_eq_true.
  repeat (apply elem_of_cons in Hk as [->|Hk]; [tauto|]).
  by apply elem_of_nil in Hk.
Qed.

Lemma fix_sync_missing_parameter_witness :
  Main.fix_sync (λ _ _ _, mret []) (λ r _ _, r) "POST"
    {[ "project_path"%string := lit "/proj";
       "user_instructions"%string := lit "fix" ]} example_world
  = (Ret (Main.Response 400
       {[ "success"%string := Main.JBool false;
          "error"%string := Main.JStr (lit "Missing required parameters: project_path, session_id, user_instructions") ]}),
     example_world).
Proof.
  apply (fix_sync_missing_parameter (λ _ _ _, mret []) (λ r _ _, r) "POST"
           {[ "project_path"%string := lit "/proj";
              "user_instructions"%string := lit "fix" ]} example_world
           "session_id"%string).
  - discriminate.
  - apply (bool_decide_unpack _). vm_compute. exact I.
  - vm_compute. reflexivity.
Defined.

(** * The reader of [file_tools.py] *)

(** ** The two decoders *)

Ltac split_bools :=
  unfold bad_second3, bad_second4, is_surrogate, is_cont, cont_bits in *;
  repeat match goal with
         | H : (_ && _) = true |- _ => apply andb_true_iff in H as [? ?]
         | H : (_ && _) = false |- _ => apply andb_false_iff in H as [?|?]
         | H : (_ || _) = true |- _ => apply orb_true_iff in H as [?|?]
         | H : (_ || _) = false |- _ => apply orb_false_iff in H as [? ?]
         | H : negb _ = true |- _ => apply negb_true_iff in H
         | H : negb _ = false |- _ => apply negb_false_iff in H
         | H : (_ <=? _) = true |- _ => apply N.leb_le in H
         | H : (_ <=? _) = false |- _ => apply N.leb_gt in H
         | H : (_ <? _) = true |- _ => apply N.ltb_lt in H
         | H : (_ <? _) = false |- _ => apply N.ltb_ge in H
         | H : (_ =? _) = true |- _ => apply N.eqb_eq in H
         | H : (_ =? _) = false |- _ => apply N.eqb_neq in H
         | H : (if ?b then _ else _) = _ |- _ =>
             let E := fresh "E" in destruct b eqn:E
         end.

(** On well-formed input the lenient decoder is the strict one. *)
Lemma utf8_decode_replace_strict bs s :
  utf8_decode bs = Some s → utf8_decode_replace bs = s.
Proof.
  assert (∀ n bs s, (length bs ≤ n)%nat → utf8_decode bs = Some s →
                    utf8_decode_replace bs = s) as H.
  { clear. induction n as [|n IH]; intros bs s Hn.
    - destruct bs; [|simpl in Hn; lia]. simpl. by intros [= <-].
    - destruct bs as [|b0 r0]; [simpl; by intros [= <-]|].
      cbn [utf8_decode utf8_decode_replace]. simpl in Hn.
      assert (∀ c r s, (length r ≤ n)%nat →
                cons c <$> utf8_decode r = Some s →
                c :: utf8_decode_replace r = s) as Hk.
      { intros c r s' Hr Hd.
        destruct (utf8_decode r) as [s0|] eqn:E; [|done].
        simpl in Hd. simplify_eq. f_equal. by apply IH. }
      destruct (N.ltb_spec (Byte.to_N b0) 0x80); [apply Hk; lia|].
      destruct (N.ltb_spec (Byte.to_N b0) 0xC0); [by intros [=]|].
      destruct (N.ltb_spec (Byte.to_N b0) 0xE0).
      { destruct r0 as [|b1 r1]; [done|].
        case_match eqn:Hg; [|done]. simpl in Hn. intros Hd.
        apply andb_true_iff in Hg as [Hc Hg]. rewrite Hc. simpl.
        split_bools.
        destruct (N.ltb_spec (Byte.to_N b0) 0xC2); [lia|].
        apply Hk; [lia|done]. }
      destruct (N.ltb_spec (Byte.to_N b0) 0xF0).
      { destruct r0 as [|b1 [|b2 r2]]; [done|done|].
        case_match eqn:Hg; [|done]. simpl in Hn. intros Hd.
        assert (is_cont b1 = true ∧ is_cont b2 = true) as [Hc1 Hc2].
        { do 3 (apply andb_true_iff in Hg as [Hg ?]). by split. }
        assert (bad_second3 (Byte.to_N b0) b1 = false) as ->.
        { unfold bad_second3. rewrite Hc1. simpl.
          destruct (N.ltb_spec (Byte.to_N b1) 0xA0); apply N.eqb_neq;
            split_bools; lia. }
        rewrite Hc2. simpl. apply Hk; [lia|done]. }
      destruct (N.ltb_spec (Byte.to_N b0) 0xF8); [|done].
      destruct r0 as [|b1 [|b2 [|b3 r3]]]; [done|done|done|].
      case_match eqn:Hg; [|done]. simpl in Hn. intros Hd.
      assert (is_cont b1 = true ∧ is_cont b2 = true ∧ is_cont b3 = true)
        as (Hc1 & Hc2 & Hc3).
      { do 4 (apply andb_true_iff in Hg as [Hg ?]). by split_and!. }
      assert (Byte.to_N b0 < 0xF5) as Hlead by (split_bools; lia).
      rewrite (proj2 (N.ltb_lt _ _) Hlead).
      assert (bad_second4 (Byte.to_N b0) b1 = false) as ->.
      { unfold bad_second4. rewrite Hc1. simpl.
        destruct (N.ltb_spec (Byte.to_N b1) 0x90); apply N.eqb_neq;
          split_bools; lia. }
      rewrite Hc2, Hc3. simpl. apply Hk; [lia|done]. }
  by apply (H (length bs)).
Qed.

Ltac bool_goal :=
  unfold is_surrogate, is_cont, cont_bits;
  repeat match goal with
         | |- (_ && _) = true => apply andb_true_iff; split
         | |- negb _ = true => apply negb_true_iff
         | |- (_ <=? _) = true => apply N.leb_le
         | |- (_ <? _) = true => apply N.ltb_lt
         | |- (?a <=? ?c) && (?c <? ?b) = false =>
             destruct (N.leb_spec a c); destruct (N.ltb_spec c b);
             simpl; try done; exfalso
         end.

(** On input that is not well formed the lenient decoder puts in a
    replacement character. *)
Lemma utf8_decode_replace_lossy bs :
  utf8_decode bs = None → REPLACEMENT ∈ utf8_decode_replace bs.
Proof.
  assert (∀ n bs, (length bs ≤ n)%nat → utf8_decode bs = None →
                  REPLACEMENT ∈ utf8_decode_replace bs) as H.
  { clear. induction n as [|n IH]; intros bs Hn.
    - destruct bs; [|simpl in Hn; lia]. by simpl.
    - destruct bs as [|b0 r0]; [by simpl|].
      cbn [utf8_decode utf8_decode_replace]. simpl in Hn.
      assert (∀ c r, (length r ≤ n)%nat →
                cons c <$> utf8_decode r = None →
                REPLACEMENT ∈ c :: utf8_decode_replace r) as Hk.
      { intros c r Hr Hd. right. apply IH; [done|].
        by destruct (utf8_decode r). }
      assert (∀ l, REPLACEMENT ∈ REPLACEMENT :: l) as Hhere by (by left).
      destruct (N.ltb_spec (Byte.to_N b0) 0x80); [apply Hk; lia|].
      destruct (N.ltb_spec (Byte.to_N b0) 0xC0).
      { intros _. rewrite (proj2 (N.ltb_lt _ 0xE0)) by lia.
        by rewrite (proj2 (N.ltb_lt _ 0xC2)) by lia. }
      destruct (N.ltb_spec (Byte.to_N b0) 0xE0).
      { destruct (N.ltb_spec (Byte.to_N b0) 0xC2); [done|].
        destruct r0 as [|b1 r1]; [done|].
        destruct (is_cont b1) eqn:Hc1; simpl; [|done].
        rewrite (proj2 (N.leb_le 0x80 _)); [simpl in Hn; apply Hk; lia|].
        split_bools. lia. }
      destruct (N.ltb_spec (Byte.to_N b0) 0xF0).
      { destruct r0 as [|b1 r1]; [done|].
        destruct (bad_second3 (Byte.to_N b0) b1) eqn:Hb; [done|].
        destruct r1 as [|b2 r2]; [done|].
        destruct (is_cont b2) eqn:Hc2; simpl; [|done].
        apply orb_false_iff in Hb as [Hc1%negb_false_iff Hb]. rewrite Hc1.
        simpl. simpl in Hn.
        match goal with
        | |- context [if ?g then _ else _] =>
            assert (g = true) as ->; [|apply Hk; lia]
        end.
        split_bools; bool_goal; lia. }
      destruct (N.ltb_spec (Byte.to_N b0) 0xF5).
      { rewrite (proj2 (N.ltb_lt _ 0xF8)) by lia.
        destruct r0 as [|b1 r1]; [done|].
        destruct (bad_second4 (Byte.to_N b0) b1) eqn:Hb;
          [intros _; by left|].
        destruct r1 as [|b2 r2]; [intros _; by left|].
        destruct (is_cont b2) eqn:Hc2; simpl; [|intros _; by left].
        destruct r2 as [|b3 r3]; [intros _; by left|].
        destruct (is_cont b3) eqn:Hc3; simpl; [|intros _; by left].
        apply orb_false_iff in Hb as [Hc1%negb_false_iff Hb]. rewrite Hc1.
        simpl. simpl in Hn.
        match goal with
        | |- context [if ?g then _ else _] =>
            assert (g = true) as ->; [|apply Hk; lia]
        end.
        split_bools; bool_goal; lia. }
      intros _. by left. }
  intros. by apply (H (length bs)).
Qed.

(** ** Paths as text and back *)

Lemma split_on_elems sep s x : x ∈ split_on sep s → sep ∉ x.
Proof.
  revert x. induction s as [|c s IH]; intros x; simpl.
  - intros ->%list_elem_of_singleton. apply not_elem_of_nil.
  - destruct (N.eqb_spec c sep) as [->|Hne].
    + intros [->|Hx]%elem_of_cons; [apply not_elem_of_nil|by apply IH].
    + destruct (split_on sep s) as [|h t] eqn:E.
      * intros ->%list_elem_of_singleton.
        apply not_elem_of_cons. split; [done|apply not_elem_of_nil].
      * intros [->|Hx]%elem_of_cons.
        -- apply not_elem_of_cons. split; [done|]. apply IH. by left.
        -- apply IH. by right.
Qed.

Lemma Path_of_ok s : Path_ok (Path_of s).
Proof.
  split.
  - unfold Path_of, parse_anchor. simpl.
    destruct s as [|c0 s0]; [by left|].
    destruct (c0 =? SEP); [|by left].
    destruct (_ && _); [right; right; by left|right; by left].
  - unfold Path_of. simpl. apply Forall_forall.
    intros x [Hx Hin]%list_elem_of_filter. unfold name_ok.
    rewrite Hx, andb_true_r. apply negb_true_iff, bool_decide_eq_false.
    by eapply split_on_elems.
Qed.

Lemma truediv_ok p s : Path_ok p → Path_ok (truediv p s).
Proof.
  intros [Ha Hp]. unfold truediv.
  destruct (Path_of_ok s) as [Hqa Hqp].
  destruct (anchor (Path_of s)) eqn:E.
  - split; [done|]. simpl. by apply Forall_app.
  - split; [by rewrite E|done].
Qed.

Lemma target_path_ok project_root filename :
  Path_ok (target_path project_root filename).
Proof.
  unfold target_path. destruct (os_path_isabs filename);
    [apply Path_of_ok|apply truediv_ok, Path_of_ok].
Qed.

Lemma filter_names ps :
  Forall (λ x, name_ok x = true) ps → filter (λ x, is_name x = true) ps = ps.
Proof.
  induction 1 as [|x ps Hx _ IH]; [done|].
  rewrite filter_cons_True, IH; [done|].
  unfold name_ok in Hx. by apply andb_true_iff in Hx as [_ ?].
Qed.

Lemma names_no_sep ps :
  Forall (λ x, name_ok x = true) ps → Forall (λ d, SEP ∉ d) ps.
Proof.
  intros H. eapply Forall_impl; [exact H|]. by intros d (? & _)%name_ok_spec.
Qed.

(** The text of a path of names starts with no slash. *)
Lemma join_names_start ps :
  Forall (λ x, name_ok x = true) ps →
  starts_with_sep (join_with [SEP] ps) = false.
Proof.
  destruct ps as [|x ps]; [done|]. intros [Hx _]%Forall_cons.
  apply name_ok_spec in Hx as (Hsep & Hne & _).
  destruct x as [|c x]; [done|].
  assert (c ≠ SEP) as Hc by (intros ->; apply Hsep; by left).
  destruct ps; simpl; by apply N.eqb_neq.
Qed.

Lemma split_join_names ps :
  Forall (λ x, name_ok x = true) ps →
  filter (λ x, is_name x = true) (split_on SEP (join_with [SEP] ps)) = ps.
Proof.
  intros H. destruct ps as [|x ps]; [done|].
  rewrite split_join; [by apply filter_names|done|by apply names_no_sep].
Qed.

Lemma parse_anchor_rel s : starts_with_sep s = false → parse_anchor s = [].
Proof. destruct s as [|c s]; simpl; [done|]. by intros ->. Qed.

Lemma parse_anchor_one s :
  starts_with_sep s = false → parse_anchor (SEP :: s) = [SEP].
Proof. intros H. unfold parse_anchor. by rewrite N.eqb_refl, H. Qed.

Lemma parse_anchor_two s :
  starts_with_sep s = false → parse_anchor (SEP :: SEP :: s) = [SEP; SEP].
Proof.
  intros H. unfold parse_anchor. rewrite N.eqb_refl.
  cbn [starts_with_sep tail]. by rewrite N.eqb_refl, H.
Qed.

Lemma split_on_sep_cons s : split_on SEP (SEP :: s) = [] :: split_on SEP s.
Proof. cbn [split_on]. by rewrite N.eqb_refl. Qed.

Lemma Path_of_str p : Path_ok p → Path_of (Path_str p) = p.
Proof.
  destruct p as [a ps]. intros [Ha Hps]. simpl in *.
  pose proof (join_names_start ps Hps) as Hst.
  pose proof (split_join_names ps Hps) as Hsj.
  unfold Path_of, Path_str. cbn [anchor parts].
  repeat (apply elem_of_cons in Ha as [->|Ha]);
    [| | |by apply elem_of_nil in Ha].
  - destruct ps as [|x ps]; [done|]. cbn [app].
    by rewrite parse_anchor_rel, Hsj.
  - change ([SEP] ++ join_with [SEP] ps) with (SEP :: join_with [SEP] ps).
    rewrite parse_anchor_one, split_on_sep_cons by done.
    rewrite filter_cons_False by done. by rewrite Hsj.
  - change ([SEP; SEP] ++ join_with [SEP] ps)
      with (SEP :: SEP :: join_with [SEP] ps).
    rewrite parse_anchor_two, !split_on_sep_cons by done.
    rewrite !filter_cons_False by done. by rewrite Hsj.
Qed.

Lemma split_Path_str p :
  Path_ok p → parts p ≠ [] →
  ∃ pre, split_on SEP (Path_str p) = pre ++ parts p.
Proof.
  destruct p as [a ps]. intros [Ha Hps] Hne. simpl in *.
  assert (split_on SEP (join_with [SEP] ps) = ps) as Hsj.
  { apply split_join; [done|by apply names_no_sep]. }
  unfold Path_str. cbn [anchor parts].
  repeat (apply elem_of_cons in Ha as [->|Ha]);
    [| | |by apply elem_of_nil in Ha].
  - destruct ps as [|x ps]; [done|]. exists []. by rewrite app_nil_l.
  - exists [[]].
    change ([SEP] ++ join_with [SEP] ps) with (SEP :: join_with [SEP] ps).
    by rewrite split_on_sep_cons, Hsj.
  - exists [[]; []].
    change ([SEP; SEP] ++ join_with [SEP] ps)
      with (SEP :: SEP :: join_with [SEP] ps).
    by rewrite !split_on_sep_cons, Hsj.
Qed.

Lemma wants_dir_Path_str p :
  Path_ok p → parts p ≠ [] → wants_dir (Path_str p) = false.
Proof.
  intros Hok Hne. destruct (split_Path_str p Hok Hne) as [pre E].
  unfold wants_dir. rewrite E.
  destruct (parts p) as [|c ps _] eqn:Ep using rev_ind; [done|].
  rewrite app_assoc, last_snoc. apply negb_false_iff.
  destruct Hok as [_ Hps]. rewrite Ep in Hps.
  apply Forall_app in Hps as [_ [Hc _]%Forall_cons].
  unfold name_ok in Hc. by apply andb_true_iff in Hc as [_ ?].
Qed.

Lemma wants_dir_nonempty path : wants_dir path = false → path ≠ [].
Proof. intros H ->. by vm_compute in H. Qed.

(** Where [Path(path)] leads to a regular file and [path] does not ask
    for a directory, [open(path)] gets the bytes of that file. *)
Lemma os_open_read_file path f d :
  wants_dir path = false →
  os_stat (Path_of path) f = Ret (KFile d) →
  os_open_read path f = Ret d.
Proof.
  intros Hw Hs. apply os_stat_Ret in Hs as (l & Hr & Hl).
  unfold os_open_read.
  rewrite bool_decide_eq_false_2 by (by apply wants_dir_nonempty).
  unfold resolve in Hr. rewrite (namei_shown _ _ path _ _ _ Hr), Hl.
  by rewrite Hw.
Qed.

Lemma namei_OSError f shown cur comps e :
  namei f shown cur comps = inl e → is_OSError e = true.
Proof.
  revert cur. induction comps as [|c rest IH]; intros cur; simpl; [done|].
  destruct (decide (c = DOTDOT)); [apply IH|].
  destruct rest as [|y rest]; [done|].
  destruct (stat_loc f (cur ++ [c])) as [[|]|]; [by intros [= <-]|apply IH|].
  by intros [= <-].
Qed.

Lemma os_open_read_OSError path f e :
  os_open_read path f = Raise e → is_OSError e = true.
Proof.
  unfold os_open_read. destruct (bool_decide _); [by intros [= <-]|].
  destruct (namei _ _ _ _) as [e'|l] eqn:En.
  { intros [= <-]. by eapply namei_OSError. }
  destruct (stat_loc f l) as [[d|]|]; [|by intros [= <-]..].
  destruct (wants_dir path); [by intros [= <-]|done].
Qed.

Lemma is_OSError_Exception e : is_OSError e = true → is_Exception e = true.
Proof. by destruct e. Qed.

(** X18.  For a path the host takes, every call of the reader of
    [file_tools.py] leaves the filesystem alone and sends
    [file_operation read path started] and a log notification first.
    Either the path could be opened: then the call returns the bytes
    decoded leniently, with the line endings translated, after the
    notifications [completed] and [success].  Or opening raised: then the
    call raises that same exception, which is an [OSError], after the
    notifications [failed] and [error].  The content of a file never
    makes the reader fail. *)
Theorem read_file_raw_outcome path w :
  host_path path = true →
  ∃ r w' evs,
    read_file_raw path w = (r, w') ∧
    w_fs w' = w_fs w ∧
    w_trace w'
      = w_trace w ++ file_operation "read" path "started" :: agent_log "info"
                     :: evs ∧
    ((∃ d, os_open_read path (w_fs w) = Ret d ∧
           r = Ret (universal_newlines (utf8_decode_replace d)) ∧
           evs = [file_operation "read" path "completed";
                  agent_log "success"]) ∨
     (∃ e, os_open_read path (w_fs w) = Raise e ∧
           r = Raise e ∧ is_OSError e = true ∧
           evs = [file_operation "read" path "failed"; agent_log "error"])).
Proof.
  intros _.
  destruct w as [f t]. unfold read_file_raw, read_replace_in. run_M.
  destruct (os_open_read path f) as [d|e] eqn:E.
  - eexists _, _, _. split_and!; [reflexivity|done| |left; eauto].
    simpl. by rewrite <- !app_assoc.
  - pose proof (os_open_read_OSError _ _ _ E) as He.
    rewrite (is_OSError_Exception _ He).
    eexists _, _, _. split_and!; [reflexivity|done| |right; eauto].
    simpl. by rewrite <- !app_assoc.
Qed.

(** The reader pointed at the source folder of the example project. *)
Lemma read_file_raw_outcome_witness :
  ∃ r w' evs,
    read_file_raw (lit "/proj/src") example_world = (r, w') ∧
    w_fs w' = example_fs ∧
    w_trace w'
      = [] ++ file_operation "read" (lit "/proj/src") "started"
              :: agent_log "info" :: evs ∧
    ((∃ d, os_open_read (lit "/proj/src") example_fs = Ret d ∧
           r = Ret (universal_newlines (utf8_decode_replace d)) ∧
           evs = [file_operation "read" (lit "/proj/src") "completed";
                  agent_log "success"]) ∨
     (∃ e, os_open_read (lit "/proj/src") example_fs = Raise e ∧
           r = Raise e ∧ is_OSError e = true ∧
           evs = [file_operation "read" (lit "/proj/src") "failed";
                  agent_log "error"])).
Proof.
  apply (read_file_raw_outcome (lit "/proj/src") example_world).
  vm_compute. reflexivity.
Defined.

Lemma read_replace_in_agrees path f s :
  wants_dir path = false →
  read_text_in (Path_of path) f = Ret s →
  read_replace_in path f = Ret s.
Proof.
  intros Hw Hrd. unfold read_text_in in Hrd.
  destruct (os_stat (Path_of path) f) as [[d|]|] eqn:Hs; try done.
  destruct (utf8_decode d) as [s0|] eqn:Hd; [|done]. simplify_eq.
  unfold read_replace_in. rewrite (os_open_read_file _ _ _ Hw Hs).
  by rewrite (utf8_decode_replace_strict _ _ Hd).
Qed.

Lemma read_file_raw_Ret path w s :
  read_replace_in path (w_fs w) = Ret s →
  read_file_raw path w
  = (Ret s,
     World (w_fs w)
       (w_trace w ++ [file_operation "read" path "started"; agent_log "info";
                      file_operation "read" path "completed";
                      agent_log "success"])).
Proof.
  intros H. destruct w as [f t]. simpl in H.
  unfold read_file_raw. run_M. rewrite H. simpl. by rewrite <- !app_assoc.
Qed.

(** X19.  For a path given as text that does not end in a slash or a
    dot component: whenever [Path(path).read_text(encoding='utf-8')], the
    strict read the mutator and the creator use, gives a text, the reader
    of [file_tools.py] returns that same text and leaves the filesystem
    alone. *)
Theorem read_file_raw_agrees_with_read_text path w s :
  wants_dir path = false →
  read_text_in (Path_of path) (w_fs w) = Ret s →
  ∃ w', read_file_raw path w = (Ret s, w') ∧ w_fs w' = w_fs w.
Proof.
  intros Hw Hrd.
  rewrite (read_file_raw_Ret _ _ _ (read_replace_in_agrees _ _ _ Hw Hrd)).
  by eexists.
Qed.

Lemma read_file_raw_agrees_with_read_text_witness :
  ∃ w',
    read_file_raw (lit "/proj/notes.txt") example_world
      = (Ret (lit "one" ++ [LF] ++ lit "two"), w') ∧
    w_fs w' = example_fs.
Proof.
  apply (read_file_raw_agrees_with_read_text (lit "/proj/notes.txt")
           example_world).
  - vm_compute. reflexivity.
  - vm_compute. reflexivity.
Defined.

Lemma universal_newlines_keeps c s :
  c ≠ CR → c ∈ s → c ∈ universal_newlines s.
Proof.
  intros Hc.
  assert (∀ n s, (length s ≤ n)%nat → c ∈ s → c ∈ universal_newlines s) as H.
  { clear s. induction n as [|n IH]; intros s Hn Hin.
    - destruct s; [by apply elem_of_nil in Hin|simpl in Hn; lia].
    - destruct s as [|x s]; [by apply elem_of_nil in Hin|]. simpl in *.
      destruct (N.eqb_spec x CR) as [->|Hx].
      + apply elem_of_cons in Hin as [?|Hin]; [done|].
        destruct s as [|x' s]; [by apply elem_of_nil in Hin|]. simpl in Hn.
        destruct (N.eqb_spec x' LF) as [->|Hx'].
        * apply elem_of_cons in Hin as [->|Hin]; [by left|right].
          apply IH; [lia|done].
        * right. apply IH; [simpl; lia|done].
      + apply elem_of_cons in Hin as [->|Hin]; [by left|right].
        apply IH; [lia|done]. }
  intros. by apply (H (length s)).
Qed.

(** X20.  For a path that leads to a regular file whose bytes are no
    UTF-8 (and that does not end in a slash or a dot component): the
    strict read raises [UnicodeDecodeError], whereas the reader of
    [file_tools.py] returns a text, in which the replacement character
    U+FFFD occurs, and leaves the filesystem alone. *)
Theorem read_file_raw_replaces_invalid path w d :
  wants_dir path = false →
  os_stat (Path_of path) (w_fs w) = Ret (KFile d) →
  utf8_decode d = None →
  read_text_in (Path_of path) (w_fs w) = Raise UnicodeDecodeError ∧
  ∃ s w',
    read_file_raw path w = (Ret s, w') ∧ REPLACEMENT ∈ s ∧ w_fs w' = w_fs w.
Proof.
  intros Hw Hs Hd. split.
  - unfold read_text_in. by rewrite Hs, Hd.
  - assert (read_replace_in path (w_fs w)
            = Ret (universal_newlines (utf8_decode_replace d))) as Hr.
    { unfold read_replace_in. by rewrite (os_open_read_file _ _ _ Hw Hs). }
    rewrite (read_file_raw_Ret _ _ _ Hr). eexists _, _.
    split_and!; [reflexivity| |done].
    apply universal_newlines_keeps; [done|].
    by apply utf8_decode_replace_lossy.
Qed.

Lemma read_file_raw_replaces_invalid_witness :
  read_text_in (Path_of (lit "/logo.png"))
    (Fsys [(lit "logo.png", File [x89; x50; x4e; x47])] [])
    = Raise UnicodeDecodeError ∧
  ∃ s w',
    read_file_raw (lit "/logo.png")
      (World (Fsys [(lit "logo.png", File [x89; x50; x4e; x47])] []) [])
      = (Ret s, w') ∧
    REPLACEMENT ∈ s ∧
    w_fs w' = Fsys [(lit "logo.png", File [x89; x50; x4e; x47])] [].
Proof.
  apply (read_file_raw_replaces_invalid (lit "/logo.png")
           (World (Fsys [(lit "logo.png", File [x89; x50; x4e; x47])] []) [])
           [x89; x50; x4e; x47]).
  - vm_compute. reflexivity.
  - vm_compute. reflexivity.
  - vm_compute. reflexivity.
Defined.

(** X21.  In a filesystem whose working directory is a directory: after
    a call of the mutator that answered the success outcome, the reader
    of [file_tools.py], given the text of the path the mutator computed,
    returns exactly the new content. *)
Theorem read_file_raw_after_apply m project_root filename new_content w w1 :
  wf_fs (w_fs w) →
  apply_patch_raw m project_root filename new_content w
    = (Ret (msg_updated filename), w1) →
  ∃ w2,
    read_file_raw (Path_str (target_path project_root filename)) w1
      = (Ret new_content, w2) ∧
    w_fs w2 = w_fs w1.
Proof.
  set (p := target_path project_root filename).
  intros Hwf (cur & _ & _ & Hwr & Hrd)%apply_updated_inv.
  fold p in Hwr, Hrd.
  pose proof (target_path_ok project_root filename) as Hok. fold p in Hok.
  assert (parts p ≠ []) as Hne.
  { intros Hnil.
    pose proof (write_text_in_wf _ _ _ _ _ Hwr Hwf) as Hwf1.
    destruct (read_text_in_Ret_file _ _ _ Hrd) as (l & bs & Hr & Hl).
    unfold resolve in Hr. rewrite Hnil in Hr. simpl in Hr. simplify_eq.
    rewrite (stat_base_dir _ _ Hwf1) in Hl. done. }
  assert (read_replace_in (Path_str p) (w_fs w1) = Ret new_content) as Hrr.
  { apply read_replace_in_agrees; [by apply wants_dir_Path_str|].
    by rewrite Path_of_str. }
  rewrite (read_file_raw_Ret _ _ _ Hrr). by eexists.
Qed.

Lemma read_file_raw_after_apply_witness :
  ∃ w2,
    read_file_raw (Path_str (target_path (lit "/proj") (lit "index.html")))
      (apply_patch_raw patch_tools (lit "/proj") (lit "index.html")
         (lit "<h1>Hi</h1><footer/>") example_world).2
      = (Ret (lit "<h1>Hi</h1><footer/>"), w2) ∧
    w_fs w2
    = w_fs (apply_patch_raw patch_tools (lit "/proj") (lit "index.html")
              (lit "<h1>Hi</h1><footer/>") example_world).2.
Proof.
  apply (read_file_raw_after_apply patch_tools (lit "/proj")
           (lit "index.html") (lit "<h1>Hi</h1><footer/>") example_world).
  - vm_compute. reflexivity.
  - vm_compute. reflexivity.
Defined.

(** * The patch generator *)

(** X22.  Whatever the lint summary and the instructions are, the patch
    generator returns the original source it was given, unchanged, and
    leaves the filesystem alone: it only sends notifications. *)
Theorem patch_generator_raw_returns_source lower source_path original_source
    lint_summary instructions w :
  ∃ w',
    patch_generator_raw lower source_path original_source lint_summary
      instructions w = (Ret original_source, w') ∧
    w_fs w' = w_fs w.
Proof.
  destruct w as [f t]. unfold patch_generator_raw. run_M.
  destruct (truthy instructions); [|destruct (_ || _)]; simpl;
    eexists; split; reflexivity.
Qed.

(** * The planner and the readers it uses *)

Lemma read_strict_in_Exception path f e :
  SimpleFileTools.read_strict_in path f = Raise e → is_Exception e = true.
Proof.
  unfold SimpleFileTools.read_strict_in.
  destruct (os_open_read path f) as [d|e'] eqn:E.
  - destruct (utf8_decode d); [done|]. by intros [= <-].
  - intros [= <-]. by eapply is_OSError_Exception, os_open_read_OSError.
Qed.

(** The reader of [simple_file_tools.py] always returns, and leaves the
    world as it is. *)
Lemma read_file_returns project_root relative_path w :
  ∃ s, SimpleFileTools.read_file project_root relative_path w = (Ret s, w).
Proof.
  unfold SimpleFileTools.read_file. run_M.
  destruct (SimpleFileTools.read_strict_in _ _) as [s|e] eqn:E; [by eexists|].
  rewrite (read_strict_in_Exception _ _ _ E). by eexists.
Qed.

Lemma read_dir_tree_returns directory_path w :
  ∃ s w',
    SimpleFileTools.read_dir_tree directory_path w = (Ret s, w') ∧
    w_fs w' = w_fs w.
Proof.
  unfold SimpleFileTools.read_dir_tree, os_walk.
  cbv [mbind ST_bind mret ST_ret try_except try_except_if].
  destruct (os_lookup directory_path (w_fs w)) as [top|]; [|by eexists _, _].
  destruct (walk_node_inv (SimpleFileTools.tree_lines_body directory_path)
              (λ _ _, True) (λ _, True))
    with (n := top) (below := @nil str) (st := (@nil str, false)) (w := w)
    as (st' & w' & E & _ & Hw); [|done|done|].
  - intros below es [lines stopped] w0 _ _.
    unfold SimpleFileTools.tree_lines_body.
    destruct stopped; [by eexists _, _, _|].
    cbv [mret ST_ret]. case_match; by eexists _, _, _.
  - rewrite E. by eexists _, _.
Qed.

Section Planner.

Variable new_client : result unit.
Variable chat_completion : str → list (str * str) → option str
                           → result SimpleAgent.message.

Lemma main_files_returns project_root w :
  ∃ main_files w',
    os_walk (SimpleAgent.main_files_body project_root) project_root [] w
      = (Ret main_files, w') ∧
    w_fs w' = w_fs w.
Proof.
  unfold os_walk.
  destruct (os_lookup project_root (w_fs w)) as [top|]; [|by eexists _, _].
  destruct (walk_node_inv (SimpleAgent.main_files_body project_root)
              (λ _ _, True) (λ _, True))
    with (n := top) (below := @nil str) (st := @nil (str * str)) (w := w)
    as (st' & w' & E & _ & Hw); [|done|done|by eexists _, _].
  intros below es mf w0 _ _. unfold SimpleAgent.main_files_body.
  case_match; [by eexists _, _, _|].
  unfold mbind at 1, ST_bind at 1.
  match goal with
  | |- context [foldM ?f mf ?l w0] =>
      destruct (foldM_inv (λ _, True) f l) with (st := mf) (w := w0)
        as (mf' & w1 & E & _ & Hw); [|done|]
  end.
  - intros acc file w1 _ _. case_match; [by eexists _, _|].
    case_match; [|by eexists _, _].
    cbv [try_except try_except_if mbind ST_bind mret ST_ret].
    destruct (read_file_returns project_root
                (os_path_relpath (below ++ [file])) w1) as [s ->].
    by eexists _, _.
  - rewrite E. by eexists _, _, _.
Qed.

(** What a run of the planner comes to once the client is built: the
    two reads, which leave the filesystem alone, and then the request. *)
Lemma simple_agent_reads project_root session_id user_instruction w :
  new_client = Ret tt →
  ∃ structure main_files w0,
    w_fs w0 = w_fs w ∧
    SimpleAgent.simple_agent new_client chat_completion project_root
      session_id user_instruction w
    = try_except
        (m ← inspect (λ _, chat_completion structure main_files
                             user_instruction);
         result_summary ←
           match SimpleAgent.call m with
           | Some (SimpleAgent.modify_file filename new_content) =>
               result ← SimplePatchTools.apply_patch_raw project_root filename
                          new_content;
               mret [lit "Modified file: " ++ filename;
                     lit "Result: " ++ result]
           | Some (SimpleAgent.create_file filename content) =>
               result ← SimplePatchTools.create_new_file_raw project_root
                          filename content;
               mret [lit "Created file: " ++ filename;
                     lit "Result: " ++ result]
           | _ => mret []
           end;
         emit_log "success" ;;
         mret (join_with [LF] (SimpleAgent.final_result m result_summary)))
        (λ e, emit_log "error" ;; mret (lit "Error: " ++ str_exn e)) w0.
Proof.
  intros Hc. unfold SimpleAgent.simple_agent. rewrite Hc.
  cbv [mbind ST_bind mret ST_ret try_except try_except_if inspect emit_log
       emit].
  match goal with
  | |- context [SimpleFileTools.read_dir_tree project_root ?w1] =>
      destruct (read_dir_tree_returns project_root w1)
        as (ps & w2 & E1 & Hw2); rewrite E1
  end.
  destruct (main_files_returns project_root w2) as (mf & w3 & E2 & Hw3).
  rewrite E2. exists (take 3000 ps), mf, w3.
  split; [simpl in *; congruence|done].
Qed.


(** X24.  When the client can be built and the request to the language
    model raises an [Exception]: the planner does not raise, it returns
    the text [Error: ] followed by the text of the exception, and the
    filesystem is the one it found. *)
Theorem simple_agent_request_failure project_root session_id user_instruction
    w e :
  new_client = Ret tt →
  (∀ structure main_files,
     chat_completion structure main_files user_instruction = Raise e) →
  is_Exception e = true →
  ∃ w',
    SimpleAgent.simple_agent new_client chat_completion project_root
      session_id user_instruction w
      = (Ret (lit "Error: " ++ str_exn e), w') ∧
    w_fs w' = w_fs w.
Proof.
  intros Hc Hm He.
  destruct (simple_agent_reads project_root session_id user_instruction w Hc)
    as (ps & mf & w0 & Hw0 & ->).
  cbv [mbind ST_bind mret ST_ret try_except try_except_if inspect emit_log
       emit].
  rewrite Hm, He. by eexists.
Qed.

End Planner.


Lemma simple_agent_request_failure_witness :
  ∃ w',
    SimpleAgent.simple_agent (Ret tt) (λ _ _ _, Raise (FileNotFoundError []))
      (lit "/proj") (lit "s1") (Some (lit "add a footer")) example_world
      = (Ret (lit "Error: " ++ str_exn (FileNotFoundError [])), w') ∧
    w_fs w' = example_fs.
Proof.
  apply (simple_agent_request_failure (Ret tt)
           (λ _ _ _, Raise (FileNotFoundError []))
           (lit "/proj") (lit "s1") (Some (lit "add a footer")) example_world).
  - reflexivity.
  - reflexivity.
  - reflexivity.
Defined.

(** ** The planner behind the entry point *)






(** * The planner's reader and the mutator look at the same file *)

Lemma split_on_nonempty sep s : split_on sep s ≠ [].
Proof.
  destruct s as [|c s]; simpl; [done|].
  destruct (c =? sep); [done|]. by destruct (split_on sep s).
Qed.

Lemma split_on_app_cons a b :
  split_on SEP (a ++ SEP :: b) = split_on SEP a ++ split_on SEP b.
Proof.
  induction a as [|c a IH]; cbn [app split_on].
  - by rewrite N.eqb_refl.
  - destruct (c =? SEP); [by rewrite IH|]. rewrite IH.
    pose proof (split_on_nonempty SEP a).
    by destruct (split_on SEP a).
Qed.

Lemma ends_with_sep_snoc a :
  SimpleFileTools.ends_with_sep a = true → ∃ a', a = a' ++ [SEP].
Proof.
  unfold SimpleFileTools.ends_with_sep.
  destruct (last a) as [c|] eqn:E; [|done].
  intros ->%N.eqb_eq. by apply last_Some in E.
Qed.

Lemma filter_names_app l1 l2 :
  filter (λ x, is_name x = true) (l1 ++ l2)
  = filter (λ x, is_name x = true) l1 ++ filter (λ x, is_name x = true) l2.
Proof. apply filter_app. Qed.

(** The parts of a joined path. *)
Lemma parts_join a b :
  starts_with_sep b = false →
  parts (Path_of (SimpleFileTools.os_path_join a b))
  = parts (Path_of a) ++ parts (Path_of b).
Proof.
  intros Hb. unfold SimpleFileTools.os_path_join. rewrite Hb.
  unfold Path_of. cbn [parts].
  destruct (bool_decide_reflect (a = [])) as [->|Hne]; [done|].
  cbn [orb].
  destruct (SimpleFileTools.ends_with_sep a) eqn:He.
  - destruct (ends_with_sep_snoc _ He) as [a' ->].
    rewrite <- app_assoc. cbn [app].
    rewrite !split_on_app_cons, !filter_names_app.
    cbn [split_on]. rewrite filter_cons_False by done.
    by rewrite filter_nil, app_nil_r.
  - cbn [app]. by rewrite split_on_app_cons, filter_names_app.
Qed.

Lemma ends_with_sep_one c :
  SimpleFileTools.ends_with_sep [c] = (c =? SEP).
Proof. done. Qed.

Lemma ends_with_sep_cons c c' a :
  SimpleFileTools.ends_with_sep (c :: c' :: a)
  = SimpleFileTools.ends_with_sep (c' :: a).
Proof. unfold SimpleFileTools.ends_with_sep. by rewrite last_cons_cons. Qed.

(** The root marker of a joined path. *)
Lemma anchor_join a b :
  starts_with_sep b = false →
  parse_anchor (SimpleFileTools.os_path_join a b)
  = match a with
    | [] => parse_anchor b
    | _ => parse_anchor a
    end.
Proof.
  intros Hb. unfold SimpleFileTools.os_path_join. rewrite Hb.
  destruct a as [|c0 a]; [done|].
  rewrite bool_decide_eq_false_2 by done. cbn [orb].
  destruct (N.eqb_spec c0 SEP) as [->|H0].
  2:{ destruct (SimpleFileTools.ends_with_sep (c0 :: a));
        unfold parse_anchor; cbn [app]; by rewrite (proj2 (N.eqb_neq _ _) H0). }
  destruct a as [|c1 a].
  { rewrite ends_with_sep_one, N.eqb_refl. cbn [app].
    by rewrite parse_anchor_one. }
  rewrite ends_with_sep_cons.
  destruct a as [|c2 a].
  { rewrite ends_with_sep_one.
    destruct (N.eqb_spec c1 SEP) as [->|H1]; cbn [app].
    - by rewrite parse_anchor_two.
    - unfold parse_anchor. rewrite N.eqb_refl. cbn [starts_with_sep].
      by rewrite (proj2 (N.eqb_neq _ _) H1). }
  rewrite ends_with_sep_cons.
  destruct (SimpleFileTools.ends_with_sep (c2 :: a)); done.
Qed.



(** [Path(os.path.join(root, rel))] is the path the mutator computes. *)
Lemma Path_of_join project_root relative_path :
  Path_of (SimpleFileTools.os_path_join project_root relative_path)
  = target_path project_root relative_path.
Proof.
  unfold target_path, os_path_isabs.
  destruct (starts_with_sep relative_path) eqn:Hb.
  { unfold SimpleFileTools.os_path_join. by rewrite Hb. }
  unfold truediv.
  assert (anchor (Path_of relative_path) = []) as ->
    by (by apply parse_anchor_rel).
  pose proof (parts_join project_root relative_path Hb) as Hp.
  pose proof (anchor_join project_root relative_path Hb) as Ha.
  destruct (Path_of (SimpleFileTools.os_path_join project_root relative_path))
    as [a ps] eqn:E.
  assert (a = parse_anchor
                (SimpleFileTools.os_path_join project_root relative_path))
    as -> by (by apply (f_equal anchor) in E).
  simpl in Hp. rewrite Hp, Ha. f_equal.
  destruct project_root; [by rewrite parse_anchor_rel|done].
Qed.

(** X26.  For a project root and a relative path whose join does not end
    in a slash or a dot component: whenever the strict read of the path
    the mutator computes, [Path(project_root) / relative_path], gives a
    text, [read_file] of [simple_file_tools.py] returns that same text and
    changes nothing. *)
Theorem read_file_reads_what_mutator_reads project_root relative_path w s :
  wants_dir (SimpleFileTools.os_path_join project_root relative_path) = false →
  read_text_in (target_path project_root relative_path) (w_fs w) = Ret s →
  SimpleFileTools.read_file project_root relative_path w = (Ret s, w).
Proof.
  intros Hw Hrd. destruct w as [f t]. simpl in Hrd.
  rewrite <- Path_of_join in Hrd. unfold read_text_in in Hrd.
  destruct (os_stat _ f) as [[d|]|] eqn:Hs; try done.
  destruct (utf8_decode d) as [s0|] eqn:Hd; [|done]. simplify_eq.
  unfold SimpleFileTools.read_file, SimpleFileTools.read_strict_in. run_M.
  by rewrite (os_open_read_file _ _ _ Hw Hs), Hd.
Qed.

Lemma read_file_reads_what_mutator_reads_witness :
  SimpleFileTools.read_file (lit "/proj") (lit "src/main.py") example_world
  = (Ret (lit "print(1)"), example_world).
Proof.
  apply (read_file_reads_what_mutator_reads (lit "/proj") (lit "src/main.py")
           example_world).
  - vm_compute. reflexivity.
  - vm_compute. reflexivity.
Defined.

(** * What the planner puts into its request *)

(** X27.  For a root that is a directory, given as a path the host takes,
    in a filesystem whose names the host gives and the console takes: the
    loop of the planner that reads the main files ends normally and
    leaves the filesystem alone.  It collects at most five entries; the
    content of each is at most 2000 characters long, and the path of each
    is the path, relative to the root, of a regular file that sits in a
    directory below the root and whose name ends in one of the seven
    source suffixes. *)
Theorem main_files_bounded project_root w :
  host_path project_root = true →
  host_fs (w_fs w) = true →
  path_isdir_in project_root (w_fs w) = true →
  ∃ main_files w',
    os_walk (SimpleAgent.main_files_body project_root) project_root [] w
      = (Ret main_files, w') ∧
    w_fs w' = w_fs w ∧
    (length main_files ≤ 5)%nat ∧
    Forall (λ entry,
              (length entry.2 ≤ 2000)%nat ∧
              ∃ top below es file,
                os_lookup project_root (w_fs w) = Some top ∧
                lookup_node top below = Some (Dir es) ∧
                file ∈ filenames_of es ∧
                entry.1 = os_path_relpath (below ++ [file]) ∧
                existsb (SimpleAgent.endswith file)
                  SimpleAgent.SOURCE_SUFFIXES = true)
      main_files.
Proof.
  intros _ _ Hdir. unfold path_isdir_in in Hdir. unfold os_walk.
  destruct (os_lookup project_root (w_fs w)) as [top|] eqn:Etop; [|done].
  clear Hdir.
  set (P := λ entry : str * str,
              (length entry.2 ≤ 2000)%nat ∧
              ∃ top0 below es file,
                Some top = Some top0 ∧
                lookup_node top0 below = Some (Dir es) ∧
                file ∈ filenames_of es ∧
                entry.1 = os_path_relpath (below ++ [file]) ∧
                existsb (SimpleAgent.endswith file)
                  SimpleAgent.SOURCE_SUFFIXES = true).
  set (J := λ mf : list (str * str), (length mf ≤ 5)%nat ∧ Forall P mf).
  destruct (walk_node_inv (SimpleAgent.main_files_body project_root)
              (λ below n, lookup_node top below = Some n) J)
    with (n := top) (below := @nil str) (st := @nil (str * str)) (w := w)
    as (mf & w' & E & [Hlen HP] & Hw); [|done|split; [simpl; lia|constructor]|].
  2:{ by exists mf, w'. }
  intros below es mf w0 Htop HJ. unfold SimpleAgent.main_files_body.
  case_match.
  { eexists _, _, _. split_and!; [reflexivity|done|done|].
    by intros d ch Hd%elem_of_nil. }
  unfold mbind at 1, ST_bind at 1.
  match goal with
  | |- context [foldM ?f mf ?l w0] =>
      destruct (foldM_inv J f l) with (st := mf) (w := w0)
        as (mf' & w1 & E & HJ' & Hw); [|done|]
  end.
  - intros acc file w1 Hfile [Hacc HPacc].
    destruct (bool_decide_reflect (5 ≤ length acc)%nat) as [|Hlt];
      [by eexists _, _|].
    destruct (existsb (SimpleAgent.endswith file) SimpleAgent.SOURCE_SUFFIXES)
      eqn:Hsuf; [|by eexists _, _].
    cbv [try_except try_except_if mbind ST_bind mret ST_ret].
    destruct (read_file_returns project_root
                (os_path_relpath (below ++ [file])) w1) as [s ->].
    eexists _, _. split_and!; [reflexivity| |done].
    split.
    + rewrite length_app. simpl. lia.
    + apply Forall_app. split; [done|]. constructor; [|constructor].
      split; [simpl; rewrite length_take; lia|].
      by exists top, below, es, file.
  - rewrite E. eexists _, _, _. split_and!; [reflexivity|done|done|].
    intros d ch _ Ha. rewrite lookup_node_app, Htop. simpl. by rewrite Ha.
Qed.

(** The main files of the example project. *)
Lemma main_files_bounded_witness :
  ∃ main_files w',
    os_walk (SimpleAgent.main_files_body (lit "/proj")) (lit "/proj") []
      example_world
      = (Ret main_files, w') ∧
    w_fs w' = example_fs ∧
    (length main_files ≤ 5)%nat ∧
    Forall (λ entry,
              (length entry.2 ≤ 2000)%nat ∧
              ∃ top below es file,
                os_lookup (lit "/proj") example_fs = Some top ∧
                lookup_node top below = Some (Dir es) ∧
                file ∈ filenames_of es ∧
                entry.1 = os_path_relpath (below ++ [file]) ∧
                existsb (SimpleAgent.endswith file)
                  SimpleAgent.SOURCE_SUFFIXES = true)
      main_files.
Proof.
  apply (main_files_bounded (lit "/proj") example_world).
  - vm_compute. reflexivity.
  - vm_compute. reflexivity.
  - vm_compute. reflexivity.
Defined.

(** * The project root is no fence *)

(** The absolute path that spells out a location. *)
Lemma target_path_absolute project_root l :
  Forall (λ d, name_ok d = true) l →
  target_path project_root (SEP :: join_with [SEP] l) = MkPath [SEP] l.
Proof.
  intros Hl. unfold target_path, os_path_isabs. cbn [starts_with_sep].
  rewrite N.eqb_refl.
  apply (Path_of_str (MkPath [SEP] l)). split; [|done].
  right. by left.
Qed.

Lemma resolve_absolute f l k :
  DOTDOT ∉ l → stat_loc f l = Some k → resolve f (MkPath [SEP] l) = inr l.
Proof.
  intros Hdd Hl. unfold resolve. simpl.
  rewrite (namei_plain_ok f _ [] l Hdd); [done|].
  intros j Hj. simpl. rewrite <- (take_drop j l) in Hl.
  eapply (stat_prefix_dir f (take j l) (drop j l)); [|by rewrite Hl].
  intros E%(f_equal length). rewrite length_drop in E. simpl in E. lia.
Qed.

(** X28.  The project root does not confine the mutator.  For any
    regular file of the filesystem, at a location [l] of plain names,
    that reads as text different from the new content: the mutator,
    given the absolute path of the file as file name, answers the success
    outcome and the file holds the encoding of the new content
    afterwards, whatever the project root is.  This holds for both
    copies. *)
Theorem apply_reaches_any_file m project_root l bs cur new_content enc w :
  Forall (λ d, name_ok d = true) l → DOTDOT ∉ l →
  stat_loc (w_fs w) l = Some (KFile bs) →
  utf8_decode bs = Some cur →
  universal_newlines cur ≠ new_content →
  utf8_encode new_content = Some enc →
  CR ∉ new_content →
  ∃ w',
    apply_patch_raw m project_root (SEP :: join_with [SEP] l) new_content w
      = (Ret (msg_updated (SEP :: join_with [SEP] l)), w') ∧
    stat_loc (w_fs w') l = Some (KFile enc).
Proof.
  intros Hok Hdd Hl Hcur Hne Henc Hcr.
  set (filename := SEP :: join_with [SEP] l).
  pose proof (target_path_absolute project_root l Hok) as Hp.
  fold filename in Hp.
  pose proof (resolve_absolute _ _ _ Hdd Hl) as Hr. rewrite <- Hp in Hr.
  assert (read_text_in (target_path project_root filename) (w_fs w)
          = Ret (universal_newlines cur)) as Hrd.
  { unfold read_text_in.
    rewrite (proj2 (os_stat_Ret _ _ _) (ex_intro _ l (conj Hr Hl))).
    by rewrite Hcur. }
  destruct (write_text_in_over_file _ _ _ _ _ _ Hr Hl Henc) as [f1 Hwr].
  pose proof (read_after_write _ _ _ _ Hwr) as Hrd1.
  rewrite universal_newlines_id in Hrd1 by done.
  pose proof (exists_of_read _ _ _ Hrd) as Hex.
  destruct (apply_patch_raw_outcome m project_root filename new_content w)
    as (s & w' & Hrun & Hout).
  exists w'. rewrite Hrun.
  inversion Hout; subst; try congruence.
  assert (w_fs w' = f1) as Hf by congruence.
  apply write_text_in_Ret in Hwr as (l' & bs' & Hr' & Hl' & Hb' & Hput).
  assert (l' = l) as -> by congruence. assert (bs' = enc) as -> by congruence.
  split; [done|]. rewrite Hf. by rewrite (put_loc_stat_same _ _ _ _ Hput).
Qed.

(** Called for the project [/proj/src], the mutator rewrites the page
    that lies outside of it. *)
Lemma apply_reaches_any_file_witness :
  ∃ w',
    apply_patch_raw simple_patch_tools (lit "/proj/src")
      (SEP :: join_with [SEP] [lit "proj"; lit "index.html"]) (lit "gone")
      example_world
      = (Ret (msg_updated
                (SEP :: join_with [SEP] [lit "proj"; lit "index.html"])), w') ∧
    stat_loc (w_fs w') [lit "proj"; lit "index.html"]
      = Some (KFile (list_byte_of_string "gone")).
Proof.
  apply (apply_reaches_any_file simple_patch_tools (lit "/proj/src")
           [lit "proj"; lit "index.html"] (list_byte_of_string "<h1>Hi</h1>")
           (lit "<h1>Hi</h1>") (lit "gone") (list_byte_of_string "gone")
           example_world).
  - constructor; [vm_compute; reflexivity|].
    constructor; [vm_compute; reflexivity|constructor].
  - apply (bool_decide_unpack _). vm_compute. exact I.
  - vm_compute. reflexivity.
  - vm_compute. reflexivity.
  - vm_compute. discriminate.
  - vm_compute. reflexivity.
  - apply (bool_decide_unpack _). vm_compute. exact I.
Defined.

(** * The two loops of the scanner *)

Lemma within_nil total : within total [].
Proof. intros step cur tot H. by apply elem_of_nil in H. Qed.

Lemma within_app total evs1 evs2 :
  within total evs1 → within total evs2 → within total (evs1 ++ evs2).
Proof. intros H1 H2 step cur tot [?|?]%elem_of_app; eauto. Qed.

Lemma world_same w : World (w_fs w) (w_trace w ++ []) = w.
Proof. destruct w. simpl. by rewrite app_nil_r. Qed.

Lemma foldM_ext {A St} (f g : St → A → M St) l :
  (∀ acc x w, f acc x w = g acc x w) →
  ∀ st w, foldM f st l w = foldM g st l w.
Proof.
  intros Hfg. induction l as [|x l IH]; intros st w; simpl; [done|].
  unfold mbind, ST_bind. rewrite Hfg.
  destruct (g st x w) as [[st'|e] w']; [apply IH|done].
Qed.

(** The walk below a directory, with the descent written by [assoc]. *)
Lemma walk_node_Dir {St}
    (body : list str → list str → list str → St → M (list str * St))
    below es st w :
  walk_node body below (Dir es) st w
  = match body below (dirnames_of es) (filenames_of es) st w with
    | (Ret r, w1) =>
        foldM (λ acc d,
                 match assoc d es with
                 | Some ch => walk_node body (below ++ [d]) ch acc
                 | None => mret acc
                 end) r.2 r.1 w1
    | (Raise e, w1) => (Raise e, w1)
    end.
Proof.
  cbn [walk_node]. unfold mbind at 1, ST_bind at 1.
  destruct (body below (dirnames_of es) (filenames_of es) st w)
    as [[r|e] w1]; [|done].
  apply foldM_ext. intros acc d w0. by rewrite visit_assoc.
Qed.

(** The visits of a list of directory names. *)
Lemma visits_within below es L :
  Forall (λ e, ∀ below, ∃ c, walks_within below e.2 c) es →
  ∃ C,
    (∀ total w,
       foldM (λ acc d,
                match assoc d es with
                | Some ch => walk_node FileTools.count_body (below ++ [d]) ch acc
                | None => mret acc
                end) total L w = (Ret (total + C)%nat, w)) ∧
    (∀ total_dirs tree k w,
       (k + C ≤ total_dirs)%nat →
       ∃ tree' k' evs,
         foldM (λ acc d,
                  match assoc d es with
                  | Some ch =>
                      walk_node (FileTools.tree_body total_dirs)
                        (below ++ [d]) ch acc
                  | None => mret acc
                  end) (tree, k)
           (filter (λ d, d ∉ FileTools.IGNORED_TOPDIRS) L) w
           = (Ret (tree', k'), World (w_fs w) (w_trace w ++ evs)) ∧
         (k ≤ k' ≤ k + C)%nat ∧ within total_dirs evs).
Proof.
  intros IH. induction L as [|d L [C' [HC HT]]].
  - exists 0%nat. split.
    + intros total w. simpl. by rewrite Nat.add_0_r.
    + intros total_dirs tree k w _. exists tree, k, [].
      rewrite filter_nil. simpl. rewrite world_same.
      split_and!; [done|lia|lia|apply within_nil].
  - assert (∃ c,
      (∀ total w,
         match assoc d es with
         | Some ch => walk_node FileTools.count_body (below ++ [d]) ch total
         | None => mret total
         end w = (Ret (total + c)%nat, w)) ∧
      (∀ total_dirs tree k w,
         (k + c ≤ total_dirs)%nat →
         ∃ tree' k' evs,
           match assoc d es with
           | Some ch =>
               walk_node (FileTools.tree_body total_dirs) (below ++ [d]) ch
                 (tree, k)
           | None => mret (tree, k)
           end w = (Ret (tree', k'), World (w_fs w) (w_trace w ++ evs)) ∧
           (k ≤ k' ≤ k + c)%nat ∧ within total_dirs evs))
      as (c & Hc & Ht).
    { destruct (assoc d es) as [ch|] eqn:Ea.
      - destruct (assoc_Forall
                    (λ n, ∀ below, ∃ c, walks_within below n c) _ _ _ IH Ea
                    (below ++ [d])) as [c [H1 H2]].
        by exists c.
      - exists 0%nat. split.
        + intros total w. by rewrite Nat.add_0_r.
        + intros total_dirs tree k w _. exists tree, k, [].
          rewrite world_same. split_and!; [done|lia|lia|apply within_nil]. }
    exists (c + C')%nat. split.
    + intros total w. cbn [foldM]. unfold mbind, ST_bind.
      rewrite Hc, HC. by rewrite Nat.add_assoc.
    + intros total_dirs tree k w Hk.
      rewrite filter_cons. destruct (decide (d ∉ FileTools.IGNORED_TOPDIRS)).
      * cbn [foldM]. unfold mbind, ST_bind.
        destruct (Ht total_dirs tree k w) as (t1 & k1 & ev1 & -> & Hk1 & Hw1);
          [lia|].
        destruct (HT total_dirs t1 k1 (World (w_fs w) (w_trace w ++ ev1)))
          as (t2 & k2 & ev2 & -> & Hk2 & Hw2); [lia|].
        exists t2, k2, (ev1 ++ ev2). simpl. rewrite <- app_assoc.
        split_and!; [done|lia|lia|by apply within_app].
      * destruct (HT total_dirs tree k w) as (t2 & k2 & ev2 & -> & Hk2 & Hw2);
          [lia|].
        exists t2, k2, ev2. split_and!; [done|lia|lia|done].
Qed.

Lemma walks_within_ex n : ∀ below, ∃ c, walks_within below n c.
Proof.
  induction n as [d|es IH] using node_tree_ind; intros below.
  - exists 0%nat. split.
    + intros total w. simpl. by rewrite Nat.add_0_r.
    + intros total_dirs tree k w _. exists tree, k, []. simpl.
      rewrite world_same. split_and!; [done|lia|lia|apply within_nil].
  - destruct (visits_within below es (dirnames_of es) IH) as (C & HC & HT).
    destruct (FileTools.ignored_top (split_on SEP (os_path_relpath below)))
      eqn:Hig.
    + exists C. split.
      * intros total w. rewrite walk_node_Dir.
        unfold FileTools.count_body. rewrite Hig. apply HC.
      * intros total_dirs tree k w Hk. rewrite walk_node_Dir.
        unfold FileTools.tree_body. rewrite Hig.
        exists tree, k, []. simpl. rewrite world_same.
        split_and!; [done|lia|lia|apply within_nil].
    + exists (S C). split.
      * intros total w. rewrite walk_node_Dir.
        unfold FileTools.count_body. rewrite Hig.
        cbv [mret ST_ret fst snd]. rewrite HC. do 2 f_equal. lia.
      * intros total_dirs tree k w Hk.
        assert (∃ tree1 ev1,
          FileTools.tree_body total_dirs below (dirnames_of es)
            (filenames_of es) (tree, k) w
          = (Ret (filter (λ d, d ∉ FileTools.IGNORED_TOPDIRS) (dirnames_of es),
                  (tree1, S k)),
             World (w_fs w) (w_trace w ++ ev1)) ∧
          within total_dirs ev1) as (tree1 & ev1 & Hb & Hev1).
        { unfold FileTools.tree_body. rewrite Hig.
          cbv [mbind ST_bind mret ST_ret emit_progress emit].
          destruct (_ || _).
          - eexists _, [_]. split; [reflexivity|].
            intros step cur tot Hin.
            apply elem_of_cons in Hin as [Heq|Hin];
              [|by apply elem_of_nil in Hin].
            simplify_eq. split; [done|lia].
          - eexists _, []. rewrite world_same. split; [reflexivity|].
            apply within_nil. }
        rewrite walk_node_Dir, Hb. cbn [fst snd].
        destruct (HT total_dirs tree1 (S k)
                    (World (w_fs w) (w_trace w ++ ev1)))
          as (t2 & k2 & evs & -> & Hk2 & Hw2); [lia|].
        exists t2, k2, (ev1 ++ evs). simpl. rewrite <- app_assoc.
        split_and!; [done|lia|lia|by apply within_app].
Qed.

(** The run of the scanner, with what it sends. *)
Lemma scan_progress_run project_root w :
  ∃ tree w' total evs,
    FileTools.read_dir_tree_raw project_root w = (Ret tree, w') ∧
    w_trace w' = w_trace w ++ evs ∧
    within total evs.
Proof.
  destruct w as [f t]. unfold FileTools.read_dir_tree_raw, os_walk.
  cbv [mbind ST_bind mret ST_ret emit_log emit_progress emit w_fs w_trace].
  destruct (os_lookup project_root f) as [top|] eqn:Etop.
  - destruct (walks_within_ex top []) as [c [Hc Ht]].
    rewrite Hc, Etop. simpl (0 + c)%nat.
    match goal with
    | |- context [walk_node (FileTools.tree_body c) [] top (∅, 0%nat) ?w0] =>
        destruct (Ht c ∅ 0%nat w0) as (t2 & k2 & evs & -> & Hk2 & Hw2); [lia|]
    end.
    eexists _, _, c, _. split_and!; [reflexivity| |].
    + simpl. rewrite <- !app_assoc. reflexivity.
    + intros step cur tot Hin. simpl in Hin.
      apply elem_of_cons in Hin as [[=]|Hin].
      apply elem_of_cons in Hin as [Heq|Hin];
        [simplify_eq; split; [done|lia]|].
      apply elem_of_app in Hin as [Hin|Hin]; [by apply (Hw2 step)|].
      apply elem_of_cons in Hin as [[=]|Hin]. by apply elem_of_nil in Hin.
  - rewrite Etop. eexists _, _, 0%nat, _. split_and!; [reflexivity| |].
    + simpl. rewrite <- !app_assoc. reflexivity.
    + intros step cur tot Hin. simpl in Hin.
      apply elem_of_cons in Hin as [[=]|Hin].
      apply elem_of_cons in Hin as [Heq|Hin];
        [simplify_eq; split; [done|lia]|].
      apply elem_of_cons in Hin as [[=]|Hin]. by apply elem_of_nil in Hin.
Qed.

(** X29.  However a call of the scanner of [file_tools.py] ends, the
    progress notifications it has sent all announce one and the same
    total and none of them counts beyond it: the second loop never files
    more directories than the first loop counted. *)
Theorem scan_progress_within_total project_root w r w' :
  FileTools.read_dir_tree_raw project_root w = (r, w') →
  ∃ total evs,
    w_trace w' = w_trace w ++ evs ∧
    within total evs.
Proof.
  intros Hrun.
  destruct (scan_progress_run project_root w)
    as (tree & w1 & total & evs & Hrun1 & Htrace & Hin).
  rewrite Hrun in Hrun1. injection Hrun1 as _ ->.
  by exists total, evs.
Qed.

(** The scan of the example project. *)
Lemma scan_progress_within_total_witness :
  ∃ total evs,
    w_trace (FileTools.read_dir_tree_raw (lit "/proj") example_world).2
      = [] ++ evs ∧
    within total evs.
Proof.
  apply (scan_progress_within_total (lit "/proj") example_world
           (FileTools.read_dir_tree_raw (lit "/proj") example_world).1).
  vm_compute. reflexivity.
Defined.

(** * What the user is told about a failed run *)




